(** * PriceHawk: price-observation ingest and alert evaluation

    A shallow embedding of the Express/PostgreSQL server of the repository
    (the file with [scrapeFacebookListing], the [/api/products] handlers,
    [checkAlerts], [sendPriceAlert] and the hourly [cron.schedule] job).

    - The relational store is a record of three tables (lists of rows, in
      insertion order) and the serial counters of their [id] columns.
    - Every [await]ed I/O ([pool.query], [transporter.sendMail]) is a step of
      a small state-and-exception monad [M]; it advances a millisecond clock
      and emits one event.  A JavaScript [throw] is the result [Throw],
      [try { } catch (error) { }] is [try_catch].
    - Whether the store or the SMTP transport is reachable at a given instant
      is decided by the environment [env]; nothing in the handlers is
      assumed to succeed.
    - Prices are JavaScript numbers on which the code only applies [!==] and
      [<=]; they are modelled as integers ([Z]).  The declarations of the
      tables are not among the sources: the price columns are taken to be
      read back as numbers, and the [id] columns to be serial primary keys. *)

From Stdlib Require Import List String Ascii ZArith Arith Bool Lia.
From Stdlib Require Import DecimalString.
From Stdlib Require Import Sorted Permutation.
Import ListNotations.

Local Open Scope list_scope.
Local Open Scope Z_scope.

(* ================================================================== *)
(** * Data model: the rows of the three tables *)
(* ================================================================== *)

Definition time := nat.

(** A row of [products]; the columns are the ones the statements of the
    server name. [p_last_checked] is [None] until an UPDATE sets it. *)
Record product := mkProduct {
  p_id : nat;
  p_title : string;
  p_description : string;
  p_current_price : Z;
  p_image_url : string;
  p_location : string;
  p_seller_name : string;
  p_listing_id : string;
  p_marketplace_url : string;
  p_status : string;
  p_last_checked : option time
}.

(** A row of [price_history]. *)
Record history_entry := mkHistory {
  ph_id : nat;
  ph_product_id : nat;
  ph_price : Z;
  ph_checked_at : time
}.

(** A row of [alerts]. *)
Record alert := mkAlert {
  a_id : nat;
  a_product_id : nat;
  a_user_email : string;
  a_target_price : Z;
  a_alert_type : string;
  a_is_active : bool;
  a_triggered_at : option time
}.

Record db := mkDb {
  products : list product;
  price_history : list history_entry;
  alerts : list alert;
  next_product_id : nat;
  next_history_id : nat;
  next_alert_id : nat
}.

Definition empty_db : db := mkDb [] [] [] 1 1 1.

(** What [scrapeFacebookListing] returns. *)
Record listingData := mkListing {
  ld_title : string;
  ld_description : string;
  ld_price : Z;
  ld_image_url : string;
  ld_location : string;
  ld_seller_name : string;
  ld_listing_id : string;
  ld_marketplace_url : string
}.

(** A row of the SELECT of [checkAlerts]: [a.*, p.title, p.marketplace_url]. *)
Record alert_row := mkAlertRow {
  ar_alert : alert;
  ar_title : string;
  ar_marketplace_url : string
}.

Definition ar_id (r : alert_row) : nat := a_id (ar_alert r).
Definition ar_target_price (r : alert_row) : Z := a_target_price (ar_alert r).

(* ================================================================== *)
(** * The SQL statements, as functions on the store *)
(* ================================================================== *)

Module Sql.

(** [SELECT * FROM products WHERE id = $1] *)
Definition select_product (id : nat) (d : db) : list product :=
  filter (fun p => Nat.eqb (p_id p) id) (products d).

(** [UPDATE products SET current_price = $1, last_checked = NOW() WHERE id = $2] *)
Definition set_price (price : Z) (now : time) (p : product) : product :=
  mkProduct (p_id p) (p_title p) (p_description p) price (p_image_url p)
            (p_location p) (p_seller_name p) (p_listing_id p)
            (p_marketplace_url p) (p_status p) (Some now).

Definition update_product_price (price : Z) (id : nat) (now : time) (d : db) : db :=
  mkDb (map (fun p => if Nat.eqb (p_id p) id then set_price price now p else p)
            (products d))
       (price_history d) (alerts d)
       (next_product_id d) (next_history_id d) (next_alert_id d).

(** [UPDATE products SET current_price = $1, last_checked = NOW(),
     status = 'active' WHERE id = $2] *)
Definition set_tracked (price : Z) (now : time) (p : product) : product :=
  mkProduct (p_id p) (p_title p) (p_description p) price (p_image_url p)
            (p_location p) (p_seller_name p) (p_listing_id p)
            (p_marketplace_url p) "active" (Some now).

Definition update_product_tracked (price : Z) (id : nat) (now : time) (d : db) : db :=
  mkDb (map (fun p => if Nat.eqb (p_id p) id then set_tracked price now p else p)
            (products d))
       (price_history d) (alerts d)
       (next_product_id d) (next_history_id d) (next_alert_id d).

(** [SELECT id FROM products WHERE listing_id = $1] *)
Definition select_by_listing (lid : string) (d : db) : list nat :=
  map p_id (filter (fun p => String.eqb (p_listing_id p) lid) (products d)).

(** [INSERT INTO products (title, description, current_price, image_url,
     location, seller_name, listing_id, marketplace_url, status)
     VALUES ($1, ..., $8, 'active') RETURNING *]; the eighth value is the
    URL of the request, the result is the row inserted ([result.rows[0]]). *)
Definition new_product (ld : listingData) (url : string) (d : db) : product :=
  mkProduct (next_product_id d) (ld_title ld) (ld_description ld) (ld_price ld)
            (ld_image_url ld) (ld_location ld) (ld_seller_name ld)
            (ld_listing_id ld) url "active" None.

Definition insert_product (ld : listingData) (url : string) (d : db) : db * product :=
  (mkDb (products d ++ [new_product ld url d]) (price_history d) (alerts d)
        (S (next_product_id d)) (next_history_id d) (next_alert_id d),
   new_product ld url d).

(** Modelled from the spec: the declaration of the [price_history] table is
    not among the sources; the [checked_at] column, which the statement
    leaves out, is the time of the insertion ("appends a PriceHistoryEntry
    with the new price and current time").

    [INSERT INTO price_history (product_id, price) VALUES ($1, $2)] *)
Definition insert_price_history (pid : nat) (price : Z) (now : time) (d : db) : db :=
  mkDb (products d)
       (price_history d ++ [mkHistory (next_history_id d) pid price now])
       (alerts d)
       (next_product_id d) (S (next_history_id d)) (next_alert_id d).

(** Modelled from the spec: the declaration of the [alerts] table is not
    among the sources; the columns [is_active] and [triggered_at], which the
    statement leaves out, take the defaults the spec gives an alert:
    "created active", triggered timestamp "null until fired".

    [INSERT INTO alerts (product_id, user_email, target_price, alert_type)
     VALUES ($1, $2, $3, $4)] *)
Definition new_alert (pid : nat) (email : string) (target : Z) (type : string)
    (d : db) : alert :=
  mkAlert (next_alert_id d) pid email target type true None.

Definition insert_alert (pid : nat) (email : string) (target : Z) (type : string)
    (d : db) : db :=
  mkDb (products d) (price_history d)
       (alerts d ++ [new_alert pid email target type d])
       (next_product_id d) (next_history_id d) (S (next_alert_id d)).

(** [SELECT a.*, p.title, p.marketplace_url FROM alerts a
     JOIN products p ON a.product_id = p.id
     WHERE a.product_id = $1 AND a.is_active = true] *)
Definition select_active_alerts (pid : nat) (d : db) : list alert_row :=
  flat_map
    (fun a =>
       map (fun p => mkAlertRow a (p_title p) (p_marketplace_url p))
           (filter (fun p => Nat.eqb (a_product_id a) (p_id p)) (products d)))
    (filter (fun a => Nat.eqb (a_product_id a) pid && a_is_active a) (alerts d)).

(** [UPDATE alerts SET triggered_at = NOW(), is_active = false WHERE id = $1] *)
Definition deactivate (now : time) (a : alert) : alert :=
  mkAlert (a_id a) (a_product_id a) (a_user_email a) (a_target_price a)
          (a_alert_type a) false (Some now).

Definition update_alert_triggered (aid : nat) (now : time) (d : db) : db :=
  mkDb (products d) (price_history d)
       (map (fun a => if Nat.eqb (a_id a) aid then deactivate now a else a)
            (alerts d))
       (next_product_id d) (next_history_id d) (next_alert_id d).

(** [SELECT * FROM products WHERE status = 'active'] *)
Definition select_active_products (d : db) : list product :=
  filter (fun p => String.eqb (p_status p) "active") (products d).

End Sql.

(** Look-ups by primary key, used to state the properties. *)
Definition find_alert (aid : nat) (d : db) : option alert :=
  find (fun a => Nat.eqb (a_id a) aid) (alerts d).

Definition find_product (id : nat) (d : db) : option product :=
  find (fun p => Nat.eqb (p_id p) id) (products d).

Definition stored_price (id : nat) (d : db) : option Z :=
  option_map p_current_price (find_product id d).

(** The key constraints of the tables: [id] is a serial primary key. *)
Definition wf_db (d : db) : Prop :=
  NoDup (map p_id (products d)) /\
  NoDup (map a_id (alerts d)) /\
  Forall (fun p => (p_id p < next_product_id d)%nat) (products d) /\
  Forall (fun a => (a_id a < next_alert_id d)%nat) (alerts d).

(* ================================================================== *)
(** * Effects: exceptions, events, the world and the monad *)
(* ================================================================== *)

(** The exceptions that reach a [catch]. *)
Inductive error :=
| InvalidUrl      (* new Error('Invalid Facebook Marketplace URL') *)
| StoreFailure    (* pool.query rejected *)
| NotifyFailure.  (* transporter.sendMail rejected *)

Definition message (e : error) : string :=
  match e with
  | InvalidUrl => "Invalid Facebook Marketplace URL"
  | StoreFailure => "store failure"
  | NotifyFailure => "notify failure"
  end.

Inductive result (A : Type) :=
| Ok (a : A)
| Throw (e : error).
Arguments Ok {A} a.
Arguments Throw {A} e.

(** The statements sent to the store, as labels of events. *)
Inductive sql :=
| SelectProduct (id : nat)
| UpdateProductPrice (price : Z) (id : nat)
| UpdateProductTracked (price : Z) (id : nat)
| SelectByListing (lid : string)
| InsertProduct (ld : listingData) (url : string)
| InsertHistory (pid : nat) (price : Z)
| InsertAlert (pid : nat) (email : string) (target : Z)
| SelectActiveAlerts (pid : nat)
| UpdateAlertTriggered (aid : nat)
| SelectActiveProducts.

(** [mailOptions] of [sendPriceAlert]; the interpolated values of the HTML
    template are kept as fields. *)
Record mail := mkMail {
  m_from : string;
  m_to : string;
  m_subject : string;
  m_title : string;
  m_current_price : Z;
  m_target_price : Z;
  m_link : string
}.

Inductive event :=
| Query (q : sql) (ok : bool)                     (* pool.query *)
| Notify (aid : nat) (m : mail) (delivered : bool) (* transporter.sendMail *)
| ConsoleLog (msg : string)
| ConsoleError (msg : string) (e : error).

Record world := mkWorld {
  store : db;
  clock : time
}.

Record outcome (A : Type) := mkOutcome {
  res : result A;
  final : world;
  emitted : list event
}.
Arguments mkOutcome {A} res final emitted.
Arguments res {A} o.
Arguments final {A} o.
Arguments emitted {A} o.

Definition M (A : Type) : Type := world -> outcome A.

Definition ret {A} (a : A) : M A :=
  fun w => mkOutcome (Ok a) w [].

Definition throw {A} (e : error) : M A :=
  fun w => mkOutcome (Throw e) w [].

Definition bind {A B} (m : M A) (f : A -> M B) : M B :=
  fun w =>
    let o := m w in
    match res o with
    | Ok a =>
        let o' := f a (final o) in
        mkOutcome (res o') (final o') (emitted o ++ emitted o')
    | Throw e => mkOutcome (Throw e) (final o) (emitted o)
    end.

(** [try { m } catch (error) { h error }] *)
Definition try_catch {A} (m : M A) (h : error -> M A) : M A :=
  fun w =>
    let o := m w in
    match res o with
    | Ok a => o
    | Throw e =>
        let o' := h e (final o) in
        mkOutcome (res o') (final o') (emitted o ++ emitted o')
    end.

Declare Scope js_scope.
Delimit Scope js_scope with js.
Notation "x <- m ;; k" := (bind m (fun x => k))
  (at level 100, m at next level, right associativity) : js_scope.
Notation "m ;; k" := (bind m (fun _ => k))
  (at level 100, right associativity) : js_scope.
Local Open Scope js_scope.

Definition console_log (msg : string) : M unit :=
  fun w => mkOutcome (Ok tt) w [ConsoleLog msg].

Definition console_error (msg : string) (e : error) : M unit :=
  fun w => mkOutcome (Ok tt) w [ConsoleError msg e].

(** [await new Promise(resolve => setTimeout(resolve, ms))] *)
Definition delay (ms : nat) : M unit :=
  fun w => mkOutcome (Ok tt) (mkWorld (store w) (clock w + ms)%nat) [].

(** The environment of the process: when the store and the SMTP transport
    are unreachable, and [process.env.EMAIL_USER]. *)
Record env := mkEnv {
  db_down : time -> bool;
  smtp_down : time -> bool;
  EMAIL_USER : string
}.

(** The HTTP response of a handler: [res.status(s).json(body)]. *)
Inductive body :=
| BError (msg : string)              (* { error: msg } *)
| BUpdated (price : Z)               (* { message: 'Product updated', price } *)
| BProduct (row : option product).   (* product.rows[0] *)

Record response := mkResponse {
  status : nat;
  json : body
}.

(** [req.body] of [POST /api/products]. *)
Record add_request := mkAddRequest {
  marketplace_url : option string;
  user_email : option string;
  target_price : option Z
}.

(** JavaScript truthiness of the fields of the request. *)
Definition truthy_string (s : option string) : bool :=
  match s with
  | Some (String _ _) => true
  | _ => false
  end.

Definition truthy_number (n : option Z) : bool :=
  match n with
  | Some z => negb (z =? 0)
  | None => false
  end.

Definition string_or_empty (s : option string) : string :=
  match s with Some x => x | None => EmptyString end.

Definition number_or_zero (n : option Z) : Z :=
  match n with Some z => z | None => 0 end.

(* ================================================================== *)
(** * The scraper *)
(* ================================================================== *)

(** [url.match(/\/marketplace\/item\/(\d+)/)]: the digits captured by the
    leftmost match, [None] for JavaScript's [null]. *)
Definition is_digit (c : ascii) : bool :=
  (Nat.leb 48 (nat_of_ascii c) && Nat.leb (nat_of_ascii c) 57)%bool.

Fixpoint take_digits (s : string) : string :=
  match s with
  | String c r => if is_digit c then String c (take_digits r) else EmptyString
  | EmptyString => EmptyString
  end.

Fixpoint strip_prefix (pre s : string) : option string :=
  match pre, s with
  | EmptyString, _ => Some s
  | String a pre', String b s' =>
      if Ascii.eqb a b then strip_prefix pre' s' else None
  | String _ _, EmptyString => None
  end.

Definition match_here (s : string) : option string :=
  match strip_prefix "/marketplace/item/" s with
  | Some r =>
      match take_digits r with
      | EmptyString => None
      | d => Some d
      end
  | None => None
  end.

Fixpoint match_item (s : string) : option string :=
  match match_here s with
  | Some d => Some d
  | None =>
      match s with
      | EmptyString => None
      | String _ r => match_item r
      end
  end.

(** [scrapeFacebookListing(url)]: the mock of the source, whose price is
    the constant 0. *)
Definition scrapeFacebookListing (url : string) : M listingData :=
  try_catch
    (match match_item url with
     | None => throw InvalidUrl
     | Some listingId =>
         ret (mkListing "Product from Marketplace" "Tracked item" 0
                        "" "Location TBD" "Seller TBD" listingId url)
     end)
    (fun error => console_error "Scraping error:" error ;; throw error).

(** The same function with the price of the mock left to a page oracle:
    the stand-in for the page a real scraper would read. The handlers take
    their scraper as an argument; the server of the source is the one
    applied to [scrapeFacebookListing]. *)
Definition scrape_with (page : string -> Z) (url : string) : M listingData :=
  try_catch
    (match match_item url with
     | None => throw InvalidUrl
     | Some listingId =>
         ret (mkListing "Product from Marketplace" "Tracked item" (page url)
                        "" "Location TBD" "Seller TBD" listingId url)
     end)
    (fun error => console_error "Scraping error:" error ;; throw error).

(** A page that shows the price [p]. *)
Definition observing (p : Z) : string -> M listingData :=
  scrape_with (fun _ => p).

(** [listingData.price !== product.current_price] *)
Definition price_changed (observed stored : Z) : bool :=
  negb (observed =? stored).

Definition string_of_nat (n : nat) : string :=
  NilEmpty.string_of_uint (Nat.to_uint n).

(* ================================================================== *)
(** * The server *)
(* ================================================================== *)

Section Server.

Variable E : env.

Definition tick (w : world) : world := mkWorld (store w) (S (clock w)).

(** [await pool.query(text, values)]: [run] is the statement as a function
    of [NOW()] and the store. *)
Definition pool_query {A} (q : sql) (run : time -> db -> db * A) : M A :=
  fun w =>
    if db_down E (clock w)
    then mkOutcome (Throw StoreFailure) (tick w) [Query q false]
    else mkOutcome (Ok (snd (run (clock w) (store w))))
                   (mkWorld (fst (run (clock w) (store w))) (S (clock w)))
                   [Query q true].

(** [await transporter.sendMail(mailOptions)] for the alert [aid]. *)
Definition sendMail (aid : nat) (m : mail) : M unit :=
  fun w =>
    if smtp_down E (clock w)
    then mkOutcome (Throw NotifyFailure) (tick w) [Notify aid m false]
    else mkOutcome (Ok tt) (tick w) [Notify aid m true].

Definition mailOptions (alert : alert_row) (currentPrice : Z) : mail :=
  mkMail (EMAIL_USER E)
         (a_user_email (ar_alert alert))
         ("🦅 PriceHawk Alert: " ++ ar_title alert ++ " price dropped!")%string
         (ar_title alert)
         currentPrice
         (ar_target_price alert)
         (ar_marketplace_url alert).

(** [sendPriceAlert(alert, currentPrice)] *)
Definition sendPriceAlert (alert : alert_row) (currentPrice : Z) : M unit :=
  try_catch
    (sendMail (ar_id alert) (mailOptions alert currentPrice) ;;
     console_log ("Alert sent to " ++ a_user_email (ar_alert alert))%string)
    (fun error => console_error "Error sending email:" error).

(** The [for (const alert of alerts.rows)] loop of [checkAlerts]. *)
Fixpoint for_alerts (rows : list alert_row) (currentPrice : Z) : M unit :=
  match rows with
  | [] => ret tt
  | alert :: rest =>
      (if currentPrice <=? ar_target_price alert then
         sendPriceAlert alert currentPrice ;;
         pool_query (UpdateAlertTriggered (ar_id alert))
                    (fun now d => (Sql.update_alert_triggered (ar_id alert) now d, tt))
       else ret tt) ;;
      for_alerts rest currentPrice
  end.

(** [checkAlerts(productId, currentPrice)]; it has no [return]. *)
Definition checkAlerts (productId : nat) (currentPrice : Z) : M unit :=
  try_catch
    (alerts <- pool_query (SelectActiveAlerts productId)
                          (fun _ d => (d, Sql.select_active_alerts productId d)) ;;
     for_alerts alerts currentPrice)
    (fun error => console_error "Error checking alerts:" error).

(** The statements both the manual refresh and the hourly job run once the
    page is scraped: update the product, and when the price changed add it
    to the history and check the alerts. *)
Definition ingest (id : nat) (stored observed : Z) : M unit :=
  pool_query (UpdateProductPrice observed id)
             (fun now d => (Sql.update_product_price observed id now d, tt)) ;;
  if price_changed observed stored then
    pool_query (InsertHistory id observed)
               (fun now d => (Sql.insert_price_history id observed now d, tt)) ;;
    checkAlerts id observed
  else ret tt.

(** [app.post('/api/products/:id/check', ...)] *)
Definition check_product (scrape : string -> M listingData) (id : nat) : M response :=
  try_catch
    (product <- pool_query (SelectProduct id)
                           (fun _ d => (d, Sql.select_product id d)) ;;
     match product with
     | [] => ret (mkResponse 404 (BError "Product not found"))
     | row0 :: _ =>
         listingData <- scrape (p_marketplace_url row0) ;;
         ingest id (p_current_price row0) (ld_price listingData) ;;
         ret (mkResponse 200 (BUpdated (ld_price listingData)))
     end)
    (fun error =>
       console_error "Error checking product:" error ;;
       ret (mkResponse 500 (BError "Failed to check product"))).

(** [error.message || 'Failed to add product'] *)
Definition message_or (e : error) (default : string) : string :=
  match message e with
  | EmptyString => default
  | m => m
  end.

(** [app.post('/api/products', ...)] *)
Definition add_product (scrape : string -> M listingData) (req : add_request)
    : M response :=
  try_catch
    (if negb (truthy_string (marketplace_url req)) then
       ret (mkResponse 400 (BError "Marketplace URL is required"))
     else
       let url := string_or_empty (marketplace_url req) in
       listingData <- scrape url ;;
       existing <- pool_query (SelectByListing (ld_listing_id listingData))
                     (fun _ d => (d, Sql.select_by_listing (ld_listing_id listingData) d)) ;;
       productId <-
         match existing with
         | id0 :: _ =>
             pool_query (UpdateProductTracked (ld_price listingData) id0)
               (fun now d =>
                  (Sql.update_product_tracked (ld_price listingData) id0 now d, tt)) ;;
             ret id0
         | [] =>
             result <- pool_query (InsertProduct listingData url)
                         (fun _ d => Sql.insert_product listingData url d) ;;
             ret (p_id result)
         end ;;
       pool_query (InsertHistory productId (ld_price listingData))
         (fun now d =>
            (Sql.insert_price_history productId (ld_price listingData) now d, tt)) ;;
       (if (truthy_string (user_email req) && truthy_number (target_price req))%bool then
          pool_query (InsertAlert productId (string_or_empty (user_email req))
                                  (number_or_zero (target_price req)))
            (fun _ d =>
               (Sql.insert_alert productId (string_or_empty (user_email req))
                                 (number_or_zero (target_price req)) "price_drop" d, tt))
        else ret tt) ;;
       product <- pool_query (SelectProduct productId)
                    (fun _ d => (d, Sql.select_product productId d)) ;;
       ret (mkResponse 200 (BProduct (hd_error product))))
    (fun error =>
       console_error "Error adding product:" error ;;
       ret (mkResponse 500 (BError (message_or error "Failed to add product")))).

(** The [for (const product of products.rows)] loop of the hourly job. *)
Fixpoint for_products (scrape : string -> M listingData) (rows : list product)
    : M unit :=
  match rows with
  | [] => ret tt
  | product :: rest =>
      try_catch
        (listingData <- scrape (p_marketplace_url product) ;;
         ingest (p_id product) (p_current_price product) (ld_price listingData) ;;
         delay 2000)
        (fun error =>
           console_error
             ("Error checking product " ++ string_of_nat (p_id product) ++ ":")%string
             error) ;;
      for_products scrape rest
  end.

(** The callback of [cron.schedule('0 * * * *', ...)]. *)
Definition price_check (scrape : string -> M listingData) : M unit :=
  console_log "Running scheduled price check..." ;;
  try_catch
    (products <- pool_query SelectActiveProducts
                   (fun _ d => (d, Sql.select_active_products d)) ;;
     for_products scrape products ;;
     console_log "Price check completed")
    (fun error => console_error "Error in scheduled price check:" error).

(** ** Sequences of operations *)

(** The operations that touch alerts: tracking a product (which may create
    an alert), the manual refresh, the hourly job, and an evaluation of the
    alerts of a product. The page oracle of each is the price the listing
    shows at that moment. *)
Inductive op :=
| AddProduct (page : string -> Z) (req : add_request)
| CheckProduct (page : string -> Z) (id : nat)
| PriceCheck (page : string -> Z)
| Evaluate (productId : nat) (currentPrice : Z).

Definition run_op (o : op) : M unit :=
  match o with
  | AddProduct page req => add_product (scrape_with page) req ;; ret tt
  | CheckProduct page id => check_product (scrape_with page) id ;; ret tt
  | PriceCheck page => price_check (scrape_with page)
  | Evaluate productId currentPrice => checkAlerts productId currentPrice
  end.

Fixpoint run_ops (os : list op) : M unit :=
  match os with
  | [] => ret tt
  | o :: rest => run_op o ;; run_ops rest
  end.

(** [n] manual refreshes in succession. *)
Fixpoint refresh_times (scrape : string -> M listingData) (n : nat) (id : nat)
    : M unit :=
  match n with
  | O => ret tt
  | S k => check_product scrape id ;; refresh_times scrape k id
  end.

End Server.

(* ================================================================== *)
(** * Reading a trace *)
(* ================================================================== *)

(** The alerts handed to the notifier, in order. *)
Definition notified_ids (evs : list event) : list nat :=
  flat_map (fun e => match e with Notify aid _ _ => [aid] | _ => [] end) evs.

(** The alerts whose delivery succeeded. *)
Definition delivered_ids (evs : list event) : list nat :=
  flat_map (fun e => match e with Notify aid _ true => [aid] | _ => [] end) evs.

(** The alerts whose deactivating UPDATE was executed, in order. *)
Definition deactivated_ids (evs : list event) : list nat :=
  flat_map
    (fun e => match e with
              | Query (UpdateAlertTriggered aid) true => [aid]
              | _ => []
              end) evs.

(** The products whose alerts were evaluated (the SELECT of [checkAlerts]
    was issued). *)
Definition evaluated_ids (evs : list event) : list nat :=
  flat_map
    (fun e => match e with
              | Query (SelectActiveAlerts pid) _ => [pid]
              | _ => []
              end) evs.

(** An alert fires in a trace when it is handed to the notifier. *)
Definition fires (aid : nat) (evs : list event) : bool :=
  existsb (Nat.eqb aid) (notified_ids evs).

(** The firing rule applied to a loaded row. *)
Definition firing (currentPrice : Z) (r : alert_row) : bool :=
  currentPrice <=? ar_target_price r.

(* ================================================================== *)
(** * Environments and the scenario of the spec *)
(* ================================================================== *)

Definition never : time -> bool := fun _ => false.
Definition always : time -> bool := fun _ => true.

(** Store and SMTP reachable throughout. *)
Definition healthy : env := mkEnv never never "pricehawk@example.com".

(** Store reachable, every delivery fails. *)
Definition smtp_outage : env := mkEnv never always "pricehawk@example.com".

(** The store is unreachable at the instant [t] only. *)
Definition db_blip (t : time) : env :=
  mkEnv (Nat.eqb t) never "pricehawk@example.com".

Definition url1 : string := "https://www.facebook.com/marketplace/item/1234567/".

Definition listing1 (price : Z) : product :=
  mkProduct 1 "Product from Marketplace" "Tracked item" price ""
            "Location TBD" "Seller TBD" "1234567" url1 "active" None.

Definition alert1 : alert := mkAlert 1 1 "ann@example.com" 90 "price_drop" true None.
Definition alert2 : alert := mkAlert 2 1 "bob@example.com" 95 "price_drop" true None.

(** Listing price 100, one active alert with target 90. *)
Definition scenario : world :=
  mkWorld (mkDb [listing1 100] [] [alert1] 2 1 2) 0%nat.

(** The same listing with two active alerts. *)
Definition two_alerts : world :=
  mkWorld (mkDb [listing1 100] [] [alert1; alert2] 2 1 3) 0%nat.

(** A request that tracks the listing with an alert of target 90, and a
    sequence of operations that follows the alert from creation to firing
    and beyond. *)
Definition track_request : add_request :=
  mkAddRequest (Some url1) (Some "ann@example.com"%string) (Some 90).

Definition life_of_an_alert : list op :=
  [AddProduct (fun _ => 100) track_request;
   CheckProduct (fun _ => 95) 1%nat;
   PriceCheck (fun _ => 90);
   CheckProduct (fun _ => 85) 1%nat;
   Evaluate 1%nat 80].

(* ================================================================== *)
(** * Specification-level definitions *)
(* ================================================================== *)

(** The store the loop of [checkAlerts] leaves when no statement fails: each
    firing row costs two instants, the delivery and then the UPDATE. *)
Fixpoint fired_store (rows : list alert_row) (p : Z) (now : time) (d : db) : db :=
  match rows with
  | [] => d
  | r :: rest =>
      if firing p r
      then fired_store rest p (S (S now)) (Sql.update_alert_triggered (ar_id r) (S now) d)
      else fired_store rest p now d
  end.

(** A firing row that names the alert [aid]. *)
Definition names (p : Z) (aid : nat) (r : alert_row) : bool :=
  (firing p r && Nat.eqb (ar_id r) aid)%bool.

(** The life of the alert rows between two stores, with the events in
    between. A row that exists stays, and either is untouched or was active,
    fired in between, and is now the deactivated row. A row that appears was
    created active with no triggered timestamp, and either is still so or
    fired in between. *)
Definition lifecycle (d : db) (evs : list event) (d' : db) : Prop :=
  (forall aid a,
     find_alert aid d = Some a ->
     exists a',
       find_alert aid d' = Some a' /\
       (a' = a \/
        (a_is_active a = true /\
         (exists t, a' = Sql.deactivate t a) /\
         fires aid evs = true))) /\
  (forall aid a',
     find_alert aid d = None ->
     find_alert aid d' = Some a' ->
     (a_is_active a' = true /\ a_triggered_at a' = None) \/
     (a_is_active a' = false /\
      (exists t, a_triggered_at a' = Some t) /\
      fires aid evs = true)).

(** A computation respects the key constraints and the life of alerts. *)
Definition respects {A} (m : M A) : Prop :=
  forall w,
    wf_db (store w) ->
    wf_db (store (final (m w))) /\
    lifecycle (store w) (emitted (m w)) (store (final (m w))).

(** A statement that leaves the [alerts] table and the keys alone. *)
Definition keeps_alerts {A} (run : time -> db -> db * A) : Prop :=
  forall t d,
    alerts (fst (run t d)) = alerts d /\
    next_alert_id (fst (run t d)) = next_alert_id d /\
    (wf_db d -> wf_db (fst (run t d))).

(* ================================================================== *)
(** * Reading the pattern of the scraper *)
(* ================================================================== *)

(** The literal part of [/\/marketplace\/item\/(\d+)/]. *)
Definition item_marker : string := "/marketplace/item/".

(** What follows the digits [take_digits] takes. *)
Fixpoint drop_digits (s : string) : string :=
  match s with
  | String c r => if is_digit c then drop_digits r else s
  | EmptyString => EmptyString
  end.

Fixpoint all_digits (s : string) : bool :=
  match s with
  | String c r => (is_digit c && all_digits r)%bool
  | EmptyString => true
  end.

Definition starts_with_digit (s : string) : bool :=
  match s with
  | String c _ => is_digit c
  | EmptyString => false
  end.

(** The URL contains the marker followed by a decimal digit. *)
Definition has_item_id (url : string) : Prop :=
  exists pre c rest,
    is_digit c = true /\
    url = (pre ++ item_marker ++ String c rest)%string.

(* ================================================================== *)
(** * Relations between the worlds before and after a computation *)
(* ================================================================== *)

(** A relation between the world before, the events emitted and the world
    after. *)
Definition step_rel : Type := world -> list event -> world -> Prop.

Definition obeys {A} (R : step_rel) (m : M A) : Prop :=
  forall w, R w (emitted (m w)) (final (m w)).

(** The events that do not belong to the evaluation of alerts. *)
Definition quiet_sql (q : sql) : bool :=
  match q with
  | SelectActiveAlerts _ | UpdateAlertTriggered _ => false
  | _ => true
  end.

Definition quiet_event (e : event) : bool :=
  match e with
  | Query q _ => quiet_sql q
  | Notify _ _ _ => false
  | ConsoleLog _ | ConsoleError _ _ => true
  end.

(** A relation that composes along a computation and that a step which only
    lets time pass, or emits a quiet event without touching the store,
    satisfies. *)
Record composes (R : step_rel) : Prop := mkComposes {
  composes_trans :
    forall w1 e1 w2 e2 w3, R w1 e1 w2 -> R w2 e2 w3 -> R w1 (e1 ++ e2) w3;
  composes_wait : forall w c, R w [] (mkWorld (store w) c);
  composes_idle :
    forall w e c, quiet_event e = true -> R w [e] (mkWorld (store w) c)
}.

(** The [alerts] table is as before. *)
Definition same_alerts : step_rel :=
  fun w _ w' => alerts (store w') = alerts (store w).

(** Nothing of the evaluation of alerts happened: no alert was loaded,
    handed to the notifier or deactivated. *)
Definition silent : step_rel :=
  fun _ evs _ =>
    evaluated_ids evs = [] /\ notified_ids evs = [] /\ deactivated_ids evs = [].

(** The product row [id] is as before and the alerts of [id] were not
    evaluated. *)
Definition skips (id : nat) : step_rel :=
  fun w evs w' =>
    find_product id (store w') = find_product id (store w) /\
    ~ In id (evaluated_ids evs).

(** A second listing, not active. *)
Definition paused_listing : product :=
  mkProduct 2 "Product from Marketplace" "Tracked item" 50 ""
            "Location TBD" "Seller TBD" "42" "https://fb.com/marketplace/item/42"
            "paused" None.

(** The messages handed to the transport, in order. *)
Definition mails (evs : list event) : list mail :=
  flat_map (fun e => match e with Notify _ m _ => [m] | _ => [] end) evs.

(* ================================================================== *)
(** * Reading and deleting a product *)
(* ================================================================== *)

(** [ORDER BY checked_at DESC]: insertion of a row before the first row that
    is not newer; rows of equal time keep the order of the table. *)
Fixpoint insert_newest (h : history_entry) (l : list history_entry)
    : list history_entry :=
  match l with
  | [] => [h]
  | x :: r =>
      if Nat.leb (ph_checked_at x) (ph_checked_at h)
      then h :: l
      else x :: insert_newest h r
  end.

Definition newest_first (l : list history_entry) : list history_entry :=
  fold_right insert_newest [] l.

(** [SELECT * FROM price_history WHERE product_id = $1
     ORDER BY checked_at DESC LIMIT 90] *)
Definition select_history (id : nat) (d : db) : list history_entry :=
  firstn 90 (newest_first
               (filter (fun h => Nat.eqb (ph_product_id h) id) (price_history d))).

(** Modelled from the spec: the declarations of the tables are not among
    the sources; the price-history rows and the alerts of a deleted product
    are deleted with it ("deletion of a Listing cascades").  Rows are
    deleted only when a product row is.

    [DELETE FROM products WHERE id = $1] *)
Definition delete_product_rows (id : nat) (d : db) : db :=
  if existsb (fun p => Nat.eqb (p_id p) id) (products d)
  then mkDb (filter (fun p => negb (Nat.eqb (p_id p) id)) (products d))
            (filter (fun h => negb (Nat.eqb (ph_product_id h) id)) (price_history d))
            (filter (fun a => negb (Nat.eqb (a_product_id a) id)) (alerts d))
            (next_product_id d) (next_history_id d) (next_alert_id d)
  else d.

(** [await pool.query(text, values)] for the two statements above.  The
    trace keeps the statements of the write path; these two leave no event
    in it.  Failure and time are those of [pool_query]. *)
Definition pool_query_untraced {A} (E : env) (run : time -> db -> db * A) : M A :=
  fun w =>
    if db_down E (clock w)
    then mkOutcome (Throw StoreFailure) (tick w) []
    else mkOutcome (Ok (snd (run (clock w) (store w))))
                   (mkWorld (fst (run (clock w) (store w))) (S (clock w)))
                   [].

(** The JSON of the two handlers. *)
Inductive reply_body :=
| RError (msg : string)                 (* { error: msg } *)
| RMessage (msg : string)               (* { message: msg } *)
| RProduct (row : product) (history : list history_entry).
                                        (* { ...row, price_history: history } *)

Record reply := mkReply {
  r_status : nat;
  r_json : reply_body
}.

(** [app.get('/api/products/:id', ...)] *)
Definition get_product (E : env) (id : nat) : M reply :=
  try_catch
    (productResult <- pool_query E (SelectProduct id)
                        (fun _ d => (d, Sql.select_product id d)) ;;
     match productResult with
     | [] => ret (mkReply 404 (RError "Product not found"))
     | row0 :: _ =>
         historyResult <- pool_query_untraced E
                            (fun _ d => (d, select_history id d)) ;;
         ret (mkReply 200 (RProduct row0 historyResult))
     end)
    (fun error =>
       console_error "Error fetching product:" error ;;
       ret (mkReply 500 (RError "Failed to fetch product"))).

(** [app.delete('/api/products/:id', ...)] *)
Definition delete_product (E : env) (id : nat) : M reply :=
  try_catch
    (pool_query_untraced E (fun _ d => (delete_product_rows id d, tt)) ;;
     ret (mkReply 200 (RMessage "Product deleted successfully")))
    (fun error =>
       console_error "Error deleting product:" error ;;
       ret (mkReply 500 (RError "Failed to delete product"))).

(** Newest first. *)
Definition not_older (a b : history_entry) : Prop :=
  (ph_checked_at b <= ph_checked_at a)%nat.

(* ================================================================== *)
(** * The server of the source, with its own scraper *)
(* ================================================================== *)

(** The requests the server answers and the tick of its hourly job. *)
Inductive request :=
| Track (req : add_request)   (* POST   /api/products *)
| Refresh (id : nat)          (* POST   /api/products/:id/check *)
| Read (id : nat)             (* GET    /api/products/:id *)
| Remove (id : nat)           (* DELETE /api/products/:id *)
| Hourly.                     (* cron.schedule('0 * * * *', ...) *)

Definition serve (E : env) (r : request) : M unit :=
  match r with
  | Track req => add_product E scrapeFacebookListing req ;; ret tt
  | Refresh id => check_product E scrapeFacebookListing id ;; ret tt
  | Read id => get_product E id ;; ret tt
  | Remove id => delete_product E id ;; ret tt
  | Hourly => price_check E scrapeFacebookListing
  end.

Fixpoint serve_all (E : env) (rs : list request) : M unit :=
  match rs with
  | [] => ret tt
  | r :: rest => serve E r ;; serve_all E rest
  end.

(** Every product has the current price 0. *)
Definition all_zero (d : db) : Prop :=
  Forall (fun p => p_current_price p = 0) (products d).

(** An alert as it is created. *)
Definition untriggered (a : alert) : Prop :=
  a_is_active a = true /\ a_triggered_at a = None.

(** From a store where every price is 0: every price is still 0, nothing of
    the evaluation of alerts happened, and every alert row is a row of
    before or a row as created. *)
Definition shipped : step_rel :=
  fun w evs w' =>
    all_zero (store w) ->
    all_zero (store w') /\
    evaluated_ids evs = [] /\
    notified_ids evs = [] /\
    deactivated_ids evs = [] /\
    Forall (fun a => In a (alerts (store w)) \/ untriggered a) (alerts (store w')).

(** A few requests to the server. *)
Definition a_day_of_requests : list request :=
  [Track track_request; Refresh 1%nat; Hourly; Read 1%nat; Hourly;
   Track track_request; Refresh 1%nat].

(** The history and the products only grow at the end: the rows of before
    are a prefix of the history, the ids of before a prefix of the ids of
    the products. *)
Definition grows : step_rel :=
  fun w _ w' =>
    (exists new, price_history (store w') = price_history (store w) ++ new) /\
    (exists new, map p_id (products (store w'))
                 = map p_id (products (store w)) ++ new).

(** What a row of the history records: the product and the price. *)
Definition recorded (h : history_entry) : nat * Z := (ph_product_id h, ph_price h).

(** The rows of a snapshot whose page shows another price than the
    snapshot has. *)
Definition moved (page : string -> Z) (rows : list product) : list product :=
  filter (fun r => price_changed (page (p_marketplace_url r)) (p_current_price r))
         rows.

(** Two active listings and an alert on the second. *)
Definition two_listings : world :=
  mkWorld (mkDb [listing1 100;
                 mkProduct 2 "Product from Marketplace" "Tracked item" 50 ""
                           "Location TBD" "Seller TBD" "42"
                           "https://fb.com/marketplace/item/42" "active" None]
                [] [mkAlert 1 2 "ann@example.com" 40 "price_drop" true None]
                3 1 2)
          0%nat.

(** An alert of the product [pid] that is active and whose target the price
    [p] has reached: [a.product_id = $1 AND a.is_active = true] of the
    SELECT and [currentPrice <= alert.target_price] of the loop. *)
Definition due (pid : nat) (p : Z) (a : alert) : bool :=
  (Nat.eqb (a_product_id a) pid && a_is_active a && (p <=? a_target_price a))%bool.

(** The [productId] of the handler that tracks a listing: the id of the
    first row with that listing id ([existing.rows[0].id]), or the id the
    INSERT gives the new row. *)
Definition tracked_id (lid : string) (d : db) : nat :=
  match Sql.select_by_listing lid d with
  | id0 :: _ => id0
  | [] => next_product_id d
  end.

(** The deactivations of a run, from a store that satisfies the key
    constraints: the constraints and the life of alerts are respected, no
    alert is deactivated twice, and an alert that was deactivated has fired
    during the run, was not inactive before, and is inactive with a
    triggered timestamp afterwards. *)
Definition settles : step_rel :=
  fun w evs w' =>
    wf_db (store w) ->
    wf_db (store w') /\
    lifecycle (store w) evs (store w') /\
    NoDup (deactivated_ids evs) /\
    forall aid,
      In aid (deactivated_ids evs) ->
      fires aid evs = true /\
      (forall a, find_alert aid (store w) = Some a -> a_is_active a = true) /\
      exists a' t,
        find_alert aid (store w') = Some a' /\
        a_is_active a' = false /\
        a_triggered_at a' = Some t.

(** Every alert handed to the notifier was deactivated, and in that order. *)
Definition prompt : step_rel :=
  fun _ evs _ => notified_ids evs = deactivated_ids evs.

(** A refresh that observes 90, and the same followed by an evaluation at
    85. *)
Definition refresh_at_90 : list op := [CheckProduct (fun _ => 90) 1%nat].

Definition refresh_then_evaluate : list op :=
  [CheckProduct (fun _ => 90) 1%nat; Evaluate 1%nat 85].

(* ================================================================== *)
(** * Lemmas on rows and look-ups *)
(* ================================================================== *)

Section Lookups.

Lemma find_map_same_key {A} (key : A -> nat) (g : A -> A) (k : nat) (l : list A) :
  (forall x, key (g x) = key x) ->
  find (fun x => Nat.eqb (key x) k) (map g l)
  = option_map g (find (fun x => Nat.eqb (key x) k) l).
Proof.
  intros Hkey. induction l as [|x l IH]; simpl; [reflexivity|].
  rewrite Hkey. destruct (Nat.eqb (key x) k); [reflexivity | exact IH].
Qed.

Lemma find_app_Some {A} (f : A -> bool) (l l' : list A) (x : A) :
  find f l = Some x -> find f (l ++ l') = Some x.
Proof.
  induction l as [|y l IH]; simpl; [discriminate|].
  destruct (f y); auto.
Qed.

Lemma find_key_In {A} (key : A -> nat) (l : list A) (x : A) :
  NoDup (map key l) -> In x l ->
  find (fun y => Nat.eqb (key y) (key x)) l = Some x.
Proof.
  induction l as [|y l IH]; simpl; intros Hnd Hin; [contradiction|].
  inversion Hnd as [|? ? Hnotin Hnd']; subst.
  destruct Hin as [->|Hin].
  - now rewrite Nat.eqb_refl.
  - destruct (Nat.eqb (key y) (key x)) eqn:Heq.
    + apply Nat.eqb_eq in Heq. exfalso. apply Hnotin. rewrite Heq.
      now apply in_map.
    + auto.
Qed.

Lemma find_key_Some {A} (key : A -> nat) (l : list A) (k : nat) (x : A) :
  find (fun y => Nat.eqb (key y) k) l = Some x -> In x l /\ key x = k.
Proof.
  intros H. apply find_some in H. destruct H as [Hin Hk].
  apply Nat.eqb_eq in Hk. auto.
Qed.

Lemma filter_key_unique {A} (key : A -> nat) (l : list A) (k : nat) (x : A) :
  NoDup (map key l) ->
  find (fun y => Nat.eqb (key y) k) l = Some x ->
  filter (fun y => Nat.eqb k (key y)) l = [x].
Proof.
  induction l as [|y l IH]; simpl; intros Hnd Hf; [discriminate|].
  inversion Hnd as [|? ? Hnotin Hnd']; subst.
  rewrite (Nat.eqb_sym k (key y)).
  destruct (Nat.eqb (key y) k) eqn:Heq.
  - injection Hf as ->. f_equal.
    apply Nat.eqb_eq in Heq.
    clear IH Hnd Hnd'. induction l as [|z l IHl]; simpl; [reflexivity|].
    destruct (Nat.eqb k (key z)) eqn:Hz.
    + apply Nat.eqb_eq in Hz. exfalso. apply Hnotin. simpl. left. congruence.
    + apply IHl. intro Hin. apply Hnotin. simpl. now right.
  - auto.
Qed.

Lemma find_alert_update (aid aid' : nat) (t : time) (d : db) :
  find_alert aid (Sql.update_alert_triggered aid' t d)
  = if Nat.eqb aid aid'
    then option_map (Sql.deactivate t) (find_alert aid d)
    else find_alert aid d.
Proof.
  unfold find_alert, Sql.update_alert_triggered. simpl.
  induction (alerts d) as [|a l IH]; simpl.
  - now destruct (Nat.eqb aid aid').
  - destruct (Nat.eqb (a_id a) aid') eqn:Ha; simpl.
    + destruct (Nat.eqb (a_id a) aid) eqn:Hb.
      * apply Nat.eqb_eq in Ha, Hb. subst.
        now rewrite Nat.eqb_refl.
      * exact IH.
    + destruct (Nat.eqb (a_id a) aid) eqn:Hb.
      * apply Nat.eqb_eq in Hb. subst.
        rewrite Ha. reflexivity.
      * exact IH.
Qed.

Lemma update_alert_ids (aid : nat) (t : time) (d : db) :
  map a_id (alerts (Sql.update_alert_triggered aid t d)) = map a_id (alerts d).
Proof.
  unfold Sql.update_alert_triggered. simpl. rewrite map_map.
  apply map_ext. intros a. now destruct (Nat.eqb (a_id a) aid).
Qed.

Lemma wf_update_alert (aid : nat) (t : time) (d : db) :
  wf_db d -> wf_db (Sql.update_alert_triggered aid t d).
Proof.
  unfold wf_db. intros (Hp & Ha & Hpn & Han).
  rewrite update_alert_ids. repeat split; auto.
  simpl. apply Forall_forall. intros a Hin.
  apply in_map_iff in Hin. destruct Hin as (a0 & <- & Hin0).
  rewrite Forall_forall in Han. specialize (Han a0 Hin0).
  now destruct (Nat.eqb (a_id a0) aid).
Qed.

(** ** The rows [checkAlerts] loads *)

Lemma select_active_alerts_In (pid : nat) (d : db) (r : alert_row) :
  In r (Sql.select_active_alerts pid d) ->
  In (ar_alert r) (alerts d) /\
  a_product_id (ar_alert r) = pid /\
  a_is_active (ar_alert r) = true.
Proof.
  unfold Sql.select_active_alerts. intros H.
  apply in_flat_map in H. destruct H as (a & Ha & Hr).
  apply filter_In in Ha. destruct Ha as [Hin Hc].
  apply andb_true_iff in Hc. destruct Hc as [Hpid Hact].
  apply in_map_iff in Hr. destruct Hr as (pr & <- & _). simpl.
  apply Nat.eqb_eq in Hpid. auto.
Qed.

Lemma select_active_alerts_ids (pid : nat) (d : db) (pr : product) :
  NoDup (map p_id (products d)) ->
  find_product pid d = Some pr ->
  map ar_id (Sql.select_active_alerts pid d)
  = map a_id (filter (fun a => Nat.eqb (a_product_id a) pid && a_is_active a)%bool
                     (alerts d)).
Proof.
  intros Hnd Hf. unfold Sql.select_active_alerts.
  induction (alerts d) as [|a l IH]; simpl; [reflexivity|].
  destruct (Nat.eqb (a_product_id a) pid && a_is_active a)%bool eqn:Hc;
    [|exact IH].
  simpl. rewrite map_app, IH. f_equal.
  apply andb_true_iff in Hc. destruct Hc as [Hpid _].
  apply Nat.eqb_eq in Hpid. subst pid.
  rewrite (filter_key_unique p_id (products d) (a_product_id a) pr Hnd Hf).
  reflexivity.
Qed.

Lemma NoDup_map_filter {A} (key : A -> nat) (f : A -> bool) (l : list A) :
  NoDup (map key l) -> NoDup (map key (filter f l)).
Proof.
  induction l as [|x l IH]; simpl; intros Hnd; [constructor|].
  inversion Hnd as [|? ? Hnotin Hnd']; subst.
  destruct (f x); simpl; auto.
  constructor; auto.
  intro Hin. apply Hnotin.
  apply in_map_iff in Hin. destruct Hin as (y & Hy & Hin).
  apply filter_In in Hin. rewrite <- Hy. apply in_map. tauto.
Qed.

Lemma select_active_alerts_no_product (pid : nat) (d : db) :
  find_product pid d = None -> Sql.select_active_alerts pid d = [].
Proof.
  intros Hf. unfold Sql.select_active_alerts.
  induction (alerts d) as [|a l IH]; simpl; [reflexivity|].
  destruct (Nat.eqb (a_product_id a) pid && a_is_active a)%bool eqn:Hc;
    [|exact IH].
  simpl. rewrite IH.
  apply andb_true_iff in Hc. destruct Hc as [Hpid _].
  apply Nat.eqb_eq in Hpid. subst pid.
  assert (Hempty : filter (fun p => Nat.eqb (a_product_id a) (p_id p))
                          (products d) = []).
  { unfold find_product in Hf. clear IH.
    induction (products d) as [|q ps IHp]; simpl in *; [reflexivity|].
    rewrite (Nat.eqb_sym (a_product_id a) (p_id q)).
    destruct (Nat.eqb (p_id q) (a_product_id a)); [discriminate|auto]. }
  rewrite Hempty. reflexivity.
Qed.

Lemma select_active_alerts_NoDup (pid : nat) (d : db) :
  wf_db d -> NoDup (map ar_id (Sql.select_active_alerts pid d)).
Proof.
  intros (Hp & Ha & _ & _).
  destruct (find_product pid d) as [pr|] eqn:Hf.
  - rewrite (select_active_alerts_ids pid d pr Hp Hf).
    now apply NoDup_map_filter.
  - rewrite (select_active_alerts_no_product pid d Hf). constructor.
Qed.

End Lookups.

(* ================================================================== *)
(** * Lemmas on traces and on the monad *)
(* ================================================================== *)

Lemma notified_ids_app (e1 e2 : list event) :
  notified_ids (e1 ++ e2) = notified_ids e1 ++ notified_ids e2.
Proof. apply flat_map_app. Qed.

Lemma delivered_ids_app (e1 e2 : list event) :
  delivered_ids (e1 ++ e2) = delivered_ids e1 ++ delivered_ids e2.
Proof. apply flat_map_app. Qed.

Lemma deactivated_ids_app (e1 e2 : list event) :
  deactivated_ids (e1 ++ e2) = deactivated_ids e1 ++ deactivated_ids e2.
Proof. apply flat_map_app. Qed.

Lemma evaluated_ids_app (e1 e2 : list event) :
  evaluated_ids (e1 ++ e2) = evaluated_ids e1 ++ evaluated_ids e2.
Proof. apply flat_map_app. Qed.

Lemma fires_app (aid : nat) (e1 e2 : list event) :
  fires aid (e1 ++ e2) = (fires aid e1 || fires aid e2)%bool.
Proof. unfold fires. now rewrite notified_ids_app, existsb_app. Qed.

Lemma fires_In (aid : nat) (evs : list event) :
  fires aid evs = true <-> In aid (notified_ids evs).
Proof.
  unfold fires. rewrite existsb_exists. split.
  - intros (x & Hin & Heq). apply Nat.eqb_eq in Heq. now subst.
  - intros Hin. exists aid. split; [assumption | apply Nat.eqb_refl].
Qed.

Lemma bind_Ok {A B} (m : M A) (f : A -> M B) (w : world) (a : A) :
  res (m w) = Ok a ->
  res (bind m f w) = res (f a (final (m w))) /\
  final (bind m f w) = final (f a (final (m w))) /\
  emitted (bind m f w) = emitted (m w) ++ emitted (f a (final (m w))).
Proof. intros H. unfold bind. cbv zeta. rewrite H. simpl. auto. Qed.

Lemma bind_Throw {A B} (m : M A) (f : A -> M B) (w : world) (e : error) :
  res (m w) = Throw e ->
  res (bind m f w) = Throw e /\
  final (bind m f w) = final (m w) /\
  emitted (bind m f w) = emitted (m w).
Proof. intros H. unfold bind. cbv zeta. rewrite H. simpl. auto. Qed.

Lemma try_catch_Ok {A} (m : M A) (h : error -> M A) (w : world) (a : A) :
  res (m w) = Ok a -> try_catch m h w = m w.
Proof. intros H. unfold try_catch. cbv zeta. now rewrite H. Qed.

Lemma try_catch_Throw {A} (m : M A) (h : error -> M A) (w : world) (e : error) :
  res (m w) = Throw e ->
  res (try_catch m h w) = res (h e (final (m w))) /\
  final (try_catch m h w) = final (h e (final (m w))) /\
  emitted (try_catch m h w) = emitted (m w) ++ emitted (h e (final (m w))).
Proof. intros H. unfold try_catch. cbv zeta. rewrite H. simpl. auto. Qed.

Lemma bind_run {A B} (m : M A) (f : A -> M B) (w w1 w2 : world) (a : A)
    (r : result B) (e1 e2 : list event) :
  m w = mkOutcome (Ok a) w1 e1 ->
  f a w1 = mkOutcome r w2 e2 ->
  bind m f w = mkOutcome r w2 (e1 ++ e2).
Proof. intros Hm Hf. unfold bind. rewrite Hm. cbn. now rewrite Hf. Qed.

Lemma try_catch_run {A} (m : M A) (h : error -> M A) (w w1 : world) (a : A)
    (e1 : list event) :
  m w = mkOutcome (Ok a) w1 e1 ->
  try_catch m h w = mkOutcome (Ok a) w1 e1.
Proof. intros Hm. unfold try_catch. now rewrite Hm. Qed.

Lemma outcome_eta {A} (o : outcome A) :
  o = mkOutcome (res o) (final o) (emitted o).
Proof. now destruct o. Qed.

Lemma world_eta (w : world) : w = mkWorld (store w) (clock w).
Proof. now destruct w. Qed.

(* ================================================================== *)
(** * The loop of [checkAlerts] *)
(* ================================================================== *)

Section Evaluation.

Variable E : env.

(** [sendPriceAlert] swallows the failure of the transport. *)
Lemma sendPriceAlert_run (r : alert_row) (p : Z) (w : world) :
  res (sendPriceAlert E r p w) = Ok tt /\
  final (sendPriceAlert E r p w) = tick w /\
  notified_ids (emitted (sendPriceAlert E r p w)) = [ar_id r] /\
  deactivated_ids (emitted (sendPriceAlert E r p w)) = [] /\
  evaluated_ids (emitted (sendPriceAlert E r p w)) = [] /\
  delivered_ids (emitted (sendPriceAlert E r p w))
  = (if smtp_down E (clock w) then [] else [ar_id r]).
Proof.
  unfold sendPriceAlert, try_catch, bind, sendMail, console_log, console_error.
  destruct (smtp_down E (clock w)); simpl; auto 10.
Qed.

Lemma pool_query_up {A} (q : sql) (run : time -> db -> db * A) (w : world) :
  db_down E (clock w) = false ->
  pool_query E q run w
  = mkOutcome (Ok (snd (run (clock w) (store w))))
              (mkWorld (fst (run (clock w) (store w))) (S (clock w)))
              [Query q true].
Proof. intros H. unfold pool_query. now rewrite H. Qed.

Lemma pool_query_down {A} (q : sql) (run : time -> db -> db * A) (w : world) :
  db_down E (clock w) = true ->
  pool_query E q run w = mkOutcome (Throw StoreFailure) (tick w) [Query q false].
Proof. intros H. unfold pool_query. now rewrite H. Qed.

(** One firing row when the store is reachable: notify, then deactivate. *)
Lemma fire_row_up (r : alert_row) (p : Z) (w : world) :
  db_down E (S (clock w)) = false ->
  let o := bind (sendPriceAlert E r p)
                (fun _ => pool_query E (UpdateAlertTriggered (ar_id r))
                   (fun now d => (Sql.update_alert_triggered (ar_id r) now d, tt))) w in
  res o = Ok tt /\
  final o = mkWorld (Sql.update_alert_triggered (ar_id r) (S (clock w)) (store w))
                    (S (S (clock w))) /\
  notified_ids (emitted o) = [ar_id r] /\
  deactivated_ids (emitted o) = [ar_id r] /\
  evaluated_ids (emitted o) = [] /\
  delivered_ids (emitted o) = (if smtp_down E (clock w) then [] else [ar_id r]).
Proof.
  intros Hup o.
  destruct (sendPriceAlert_run r p w) as (Hr & Hf & Hn & Hd & He & Hdel).
  destruct (bind_Ok _ (fun _ => pool_query E (UpdateAlertTriggered (ar_id r))
                   (fun now d => (Sql.update_alert_triggered (ar_id r) now d, tt)))
                    w tt Hr) as (Br & Bf & Be).
  subst o. rewrite Br, Bf, Be, Hf.
  rewrite pool_query_up by exact Hup. simpl.
  rewrite notified_ids_app, deactivated_ids_app, evaluated_ids_app,
    delivered_ids_app, Hn, Hd, He, Hdel. simpl.
  rewrite app_nil_r. auto 10.
Qed.

Lemma for_alerts_up (rows : list alert_row) (p : Z) :
  (forall t, db_down E t = false) ->
  forall w,
    let o := for_alerts E rows p w in
    res o = Ok tt /\
    final o = mkWorld (fired_store rows p (clock w) (store w))
                      (clock w + 2 * List.length (filter (firing p) rows))%nat /\
    notified_ids (emitted o) = map ar_id (filter (firing p) rows) /\
    deactivated_ids (emitted o) = map ar_id (filter (firing p) rows) /\
    evaluated_ids (emitted o) = [].
Proof.
  intros Hup. induction rows as [|r rest IH]; intros w o.
  - subst o. simpl. rewrite Nat.add_0_r. rewrite <- world_eta. auto.
  - subst o. cbn [for_alerts filter fired_store]. fold (firing p r).
    destruct (firing p r) eqn:Hfire.
    + destruct (fire_row_up r p w (Hup _)) as (Hr & Hf & Hn & Hd & He & _).
      destruct (bind_Ok _ (fun _ => for_alerts E rest p) w tt Hr) as (Br & Bf & Be).
      rewrite Br, Bf, Be, Hf.
      destruct (IH (mkWorld (Sql.update_alert_triggered (ar_id r) (S (clock w)) (store w))
                            (S (S (clock w))))) as (Ir & If & In_ & Id & Ie).
      rewrite Ir, If, notified_ids_app, deactivated_ids_app, evaluated_ids_app,
        Hn, Hd, He, In_, Id, Ie.
      cbn [store clock map List.length app]. repeat split; try reflexivity.
      f_equal. lia.
    + destruct (bind_Ok (ret tt) (fun _ => for_alerts E rest p) w tt eq_refl)
        as (Br & Bf & Be).
      rewrite Br, Bf, Be. cbn [ret final emitted app].
      exact (IH w).
Qed.

End Evaluation.

(* ================================================================== *)
(** * The store after the loop *)
(* ================================================================== *)

Section FiredStore.

Lemma deactivate_twice (t1 t2 : time) (a : alert) :
  Sql.deactivate t2 (Sql.deactivate t1 a) = Sql.deactivate t2 a.
Proof. reflexivity. Qed.

Lemma fired_store_frame (rows : list alert_row) (p : Z) :
  forall now d,
    products (fired_store rows p now d) = products d /\
    price_history (fired_store rows p now d) = price_history d /\
    next_product_id (fired_store rows p now d) = next_product_id d /\
    next_history_id (fired_store rows p now d) = next_history_id d /\
    next_alert_id (fired_store rows p now d) = next_alert_id d /\
    map a_id (alerts (fired_store rows p now d)) = map a_id (alerts d).
Proof.
  induction rows as [|r rest IH]; intros now d; simpl; [auto 10|].
  destruct (firing p r); [|apply IH].
  destruct (IH (S (S now)) (Sql.update_alert_triggered (ar_id r) (S now) d))
    as (H1 & H2 & H3 & H4 & H5 & H6).
  rewrite H1, H2, H3, H4, H5, H6, update_alert_ids. simpl. auto 10.
Qed.

Lemma fired_store_wf (rows : list alert_row) (p : Z) :
  forall now d, wf_db d -> wf_db (fired_store rows p now d).
Proof.
  induction rows as [|r rest IH]; intros now d Hwf; simpl; [assumption|].
  destruct (firing p r); [|now apply IH].
  apply IH. now apply wf_update_alert.
Qed.

(** A row that no firing row names is left as it was. *)
Lemma fired_store_other (rows : list alert_row) (p : Z) (aid : nat) :
  (forall r, In r rows -> firing p r = true -> ar_id r <> aid) ->
  forall now d, find_alert aid (fired_store rows p now d) = find_alert aid d.
Proof.
  induction rows as [|r rest IH]; intros Hno now d; simpl; [reflexivity|].
  destruct (firing p r) eqn:Hfire.
  - rewrite IH by (intros r' Hin; apply Hno; now right).
    rewrite find_alert_update.
    destruct (Nat.eqb aid (ar_id r)) eqn:Heq; [|reflexivity].
    apply Nat.eqb_eq in Heq. exfalso.
    apply (Hno r); [now left | assumption | congruence].
  - apply IH. intros r' Hin. apply Hno. now right.
Qed.

Lemma names_none (rows : list alert_row) (p : Z) (aid : nat) :
  existsb (names p aid) rows = false ->
  forall r, In r rows -> firing p r = true -> ar_id r <> aid.
Proof.
  intros Hex r Hin Hfire Heq.
  assert (Htrue : existsb (names p aid) rows = true).
  { apply existsb_exists. exists r. split; [assumption|].
    unfold names. rewrite Hfire. simpl. now apply Nat.eqb_eq. }
  congruence.
Qed.

(** A row that a firing row names is deactivated, at an instant after the
    start of the loop. *)
Lemma fired_store_hit (rows : list alert_row) (p : Z) (aid : nat) :
  existsb (names p aid) rows = true ->
  forall now d a,
    find_alert aid d = Some a ->
    exists t, (now < t)%nat /\
      find_alert aid (fired_store rows p now d) = Some (Sql.deactivate t a).
Proof.
  induction rows as [|r rest IH]; intros Hex now d a Hfind;
    cbn [existsb fired_store] in *; [discriminate|].
  destruct (firing p r) eqn:Hfire.
  - destruct (existsb (names p aid) rest) eqn:Hrest.
    + destruct (Nat.eqb aid (ar_id r)) eqn:Heq.
      * destruct (IH eq_refl (S (S now))
                     (Sql.update_alert_triggered (ar_id r) (S now) d)
                     (Sql.deactivate (S now) a)) as (t & Ht & Hf).
        { rewrite find_alert_update, Heq, Hfind. reflexivity. }
        exists t. split; [lia|]. now rewrite Hf, deactivate_twice.
      * destruct (IH eq_refl (S (S now))
                     (Sql.update_alert_triggered (ar_id r) (S now) d) a)
          as (t & Ht & Hf).
        { rewrite find_alert_update, Heq. exact Hfind. }
        exists t. split; [lia | exact Hf].
    + unfold names in Hex at 1. rewrite Hfire, orb_false_r in Hex.
      simpl in Hex. apply Nat.eqb_eq in Hex.
      exists (S now). split; [lia|].
      rewrite (fired_store_other rest p aid (names_none rest p aid Hrest)).
      rewrite find_alert_update. subst aid. rewrite Nat.eqb_refl, Hfind.
      reflexivity.
  - unfold names in Hex at 1. rewrite Hfire in Hex. simpl in Hex.
    exact (IH Hex now d a Hfind).
Qed.

Lemma names_In (rows : list alert_row) (p : Z) (aid : nat) :
  existsb (names p aid) rows = true <->
  In aid (map ar_id (filter (firing p) rows)).
Proof.
  rewrite existsb_exists, in_map_iff. split.
  - intros (r & Hin & Hn). unfold names in Hn.
    apply andb_true_iff in Hn. destruct Hn as [Hf Hid].
    apply Nat.eqb_eq in Hid. exists r. split; [assumption|].
    apply filter_In. auto.
  - intros (r & Hid & Hin). apply filter_In in Hin. destruct Hin as [Hin Hf].
    exists r. split; [assumption|]. unfold names.
    rewrite Hf. simpl. now apply Nat.eqb_eq.
Qed.

(** The life of a row through the loop: untouched, or active before and
    deactivated by a firing row that names it. *)
Lemma fired_store_lifecycle (rows : list alert_row) (p : Z) (now : time)
    (d : db) (aid : nat) (a : alert) :
  find_alert aid d = Some a ->
  (forall r, In r rows -> ar_id r = aid -> a_is_active a = true) ->
  exists a',
    find_alert aid (fired_store rows p now d) = Some a' /\
    (a' = a \/
     (a_is_active a = true /\ (exists t, a' = Sql.deactivate t a) /\
      In aid (map ar_id (filter (firing p) rows)))).
Proof.
  intros Hfind Hact.
  destruct (existsb (names p aid) rows) eqn:Hex.
  - destruct (fired_store_hit rows p aid Hex now d a Hfind) as (t & _ & Hf).
    exists (Sql.deactivate t a). split; [exact Hf|]. right.
    pose proof (proj1 (names_In rows p aid) Hex) as Hin.
    repeat split; [|now exists t|exact Hin].
    apply in_map_iff in Hin. destruct Hin as (r & Hid & Hin).
    apply filter_In in Hin. exact (Hact r (proj1 Hin) Hid).
  - exists a. split; [|now left].
    rewrite (fired_store_other rows p aid (names_none rows p aid Hex)).
    exact Hfind.
Qed.

End FiredStore.

(* ================================================================== *)
(** * [checkAlerts] in an arbitrary environment *)
(* ================================================================== *)

Section AnyEnvironment.

Variable E : env.

(** One firing row: the notifier is always called; then the UPDATE either
    runs or throws. *)
Lemma fire_row_any (r : alert_row) (p : Z) (w : world) :
  let o := bind (sendPriceAlert E r p)
                (fun _ => pool_query E (UpdateAlertTriggered (ar_id r))
                   (fun now d => (Sql.update_alert_triggered (ar_id r) now d, tt))) w in
  notified_ids (emitted o) = [ar_id r] /\
  evaluated_ids (emitted o) = [] /\
  clock (final o) = S (S (clock w)) /\
  ((db_down E (S (clock w)) = false /\ res o = Ok tt /\
    store (final o) = Sql.update_alert_triggered (ar_id r) (S (clock w)) (store w) /\
    deactivated_ids (emitted o) = [ar_id r])
   \/
   (db_down E (S (clock w)) = true /\ res o = Throw StoreFailure /\
    store (final o) = store w /\
    deactivated_ids (emitted o) = [])).
Proof.
  intros o.
  destruct (sendPriceAlert_run E r p w) as (Hr & Hf & Hn & Hd & He & _).
  destruct (bind_Ok _ (fun _ => pool_query E (UpdateAlertTriggered (ar_id r))
                   (fun now d => (Sql.update_alert_triggered (ar_id r) now d, tt)))
                    w tt Hr) as (Br & Bf & Be).
  subst o. rewrite Br, Bf, Be, Hf.
  rewrite notified_ids_app, deactivated_ids_app, evaluated_ids_app, Hn, Hd, He.
  destruct (db_down E (S (clock w))) eqn:Hdown.
  - rewrite pool_query_down by exact Hdown. simpl. auto 10.
  - rewrite pool_query_up by exact Hdown. simpl. auto 10.
Qed.

(** The loop processes a prefix of the rows; it stops early only at a firing
    row that was notified and whose UPDATE threw. *)
Lemma for_alerts_prefix (rows : list alert_row) (p : Z) :
  forall w,
    let o := for_alerts E rows p w in
    exists done rest,
      rows = done ++ rest /\
      store (final o) = fired_store done p (clock w) (store w) /\
      deactivated_ids (emitted o) = map ar_id (filter (firing p) done) /\
      evaluated_ids (emitted o) = [] /\
      ((rest = [] /\ res o = Ok tt /\
        notified_ids (emitted o) = map ar_id (filter (firing p) done))
       \/
       (exists r rest', rest = r :: rest' /\ firing p r = true /\
          res o = Throw StoreFailure /\
          notified_ids (emitted o)
          = map ar_id (filter (firing p) done) ++ [ar_id r])).
Proof.
  induction rows as [|r rows' IH]; intros w o.
  - exists [], []. subst o. simpl. auto 10.
  - subst o. cbn [for_alerts]. fold (firing p r).
    destruct (firing p r) eqn:Hfire.
    + destruct (fire_row_any r p w) as (Hn & He & Hc & [Hok | Hko]).
      * destruct Hok as (_ & Hr & Hs & Hd).
        destruct (bind_Ok _ (fun _ => for_alerts E rows' p) w tt Hr)
          as (Br & Bf & Be).
        rewrite Br, Bf, Be.
        destruct (IH (final (bind (sendPriceAlert E r p)
                (fun _ => pool_query E (UpdateAlertTriggered (ar_id r))
                   (fun now d => (Sql.update_alert_triggered (ar_id r) now d, tt))) w)))
          as (done & rest & Hrows & Hst & Hde & Hev & Hcases).
        rewrite Hc, Hs in Hst.
        exists (r :: done), rest.
        rewrite notified_ids_app, deactivated_ids_app, evaluated_ids_app,
          Hn, Hd, He, Hde, Hev.
        cbn [filter fired_store]. rewrite Hfire. cbn [map app].
        split; [now rewrite Hrows|]. split; [exact Hst|].
        split; [reflexivity|]. split; [reflexivity|].
        destruct Hcases as [(Hnil & Hres & Hno) | (r' & rest' & Hrest & Hf' & Hres & Hno)].
        -- left. rewrite Hno. auto.
        -- right. exists r', rest'. rewrite Hno. auto.
      * destruct Hko as (_ & Hr & Hs & Hd).
        destruct (bind_Throw _ (fun _ => for_alerts E rows' p) w _ Hr)
          as (Br & Bf & Be).
        rewrite Br, Bf, Be.
        exists [], (r :: rows'). simpl.
        repeat split; try assumption.
        right. exists r, rows'. auto.
    + destruct (bind_Ok (ret tt) (fun _ => for_alerts E rows' p) w tt eq_refl)
        as (Br & Bf & Be).
      rewrite Br, Bf, Be. cbn [ret final emitted app].
      destruct (IH w) as (done & rest & Hrows & Hst & Hde & Hev & Hcases).
      exists (r :: done), rest.
      cbn [filter fired_store]. rewrite Hfire.
      split; [now rewrite Hrows|]. auto.
Qed.

(** [checkAlerts] never throws. *)
Lemma checkAlerts_res (pid : nat) (p : Z) (w : world) :
  res (checkAlerts E pid p w) = Ok tt.
Proof.
  unfold checkAlerts, try_catch. cbv zeta.
  match goal with |- context [match res ?x with _ => _ end] =>
    destruct (res x) as [[]|e] eqn:Hres end.
  - exact Hres.
  - reflexivity.
Qed.

(** What an evaluation does, whatever fails: it deactivates the firing rows
    of a prefix of the loaded rows, and notifies no one else than firing
    rows. *)
Lemma checkAlerts_prefix (pid : nat) (p : Z) (w : world) :
  let o := checkAlerts E pid p w in
  let rows := Sql.select_active_alerts pid (store w) in
  evaluated_ids (emitted o) = [pid] /\
  exists done rest,
    rows = done ++ rest /\
    store (final o) = fired_store done p (S (clock w)) (store w) /\
    deactivated_ids (emitted o) = map ar_id (filter (firing p) done) /\
    incl (map ar_id (filter (firing p) done)) (notified_ids (emitted o)) /\
    incl (notified_ids (emitted o)) (map ar_id (filter (firing p) rows)).
Proof.
  intros o rows. subst o. unfold checkAlerts.
  set (body := bind (pool_query E (SelectActiveAlerts pid)
                       (fun _ d => (d, Sql.select_active_alerts pid d)))
                    (fun alerts => for_alerts E alerts p)).
  set (handler := fun error => console_error "Error checking alerts:" error).
  destruct (db_down E (clock w)) eqn:Hdown.
  - (* the SELECT throws *)
    assert (Hbody : body w = mkOutcome (Throw StoreFailure) (tick w)
                                       [Query (SelectActiveAlerts pid) false]).
    { unfold body, bind. rewrite pool_query_down by exact Hdown. reflexivity. }
    destruct (try_catch_Throw body handler w StoreFailure) as (_ & Tf & Te).
    { now rewrite Hbody. }
    rewrite Tf, Te, Hbody. simpl. split; [reflexivity|].
    exists [], rows. simpl. repeat split; try reflexivity;
      intros x Hx; contradiction.
  - (* the SELECT returns the rows *)
    pose (w1 := mkWorld (store w) (S (clock w))).
    assert (Hq : pool_query E (SelectActiveAlerts pid)
              (fun _ d => (d, Sql.select_active_alerts pid d)) w
            = mkOutcome (Ok rows) w1 [Query (SelectActiveAlerts pid) true]).
    { rewrite pool_query_up by exact Hdown. reflexivity. }
    destruct (bind_Ok (pool_query E (SelectActiveAlerts pid)
              (fun _ d => (d, Sql.select_active_alerts pid d)))
              (fun alerts => for_alerts E alerts p) w rows) as (Br & Bf & Be).
    { now rewrite Hq. }
    fold body in Br, Bf, Be.
    rewrite Hq in Br, Bf, Be. cbn [final emitted] in Br, Bf, Be.
    destruct (for_alerts_prefix rows p w1)
      as (done & rest & Hrows & Hst & Hde & Hev & Hcases).
    destruct Hcases as [(Hnil & Hres & Hno) | (r & rest' & Hrest & Hf & Hres & Hno)].
    + rewrite (try_catch_Ok body handler w tt) by (now rewrite Br).
      rewrite Bf, Be. rewrite evaluated_ids_app, deactivated_ids_app,
        notified_ids_app, Hev, Hde, Hno. simpl.
      split; [reflexivity|].
      exists done, rest. repeat split; try assumption.
      * apply incl_refl.
      * subst rest. rewrite app_nil_r in Hrows. rewrite <- Hrows. apply incl_refl.
    + destruct (try_catch_Throw body handler w StoreFailure) as (_ & Tf & Te).
      { now rewrite Br. }
      rewrite Tf, Te, Bf, Be.
      rewrite !evaluated_ids_app, !deactivated_ids_app, !notified_ids_app,
        Hev, Hde, Hno. simpl. rewrite !app_nil_r.
      split; [reflexivity|].
      exists done, rest. repeat split; try assumption.
      * apply incl_appl, incl_refl.
      * rewrite Hrows, Hrest, filter_app, map_app. cbn [filter]. rewrite Hf.
        cbn [map]. apply incl_app; [apply incl_appl, incl_refl|].
        apply incl_appr. intros x [<-|[]]. now left.
Qed.

End AnyEnvironment.

(* ================================================================== *)
(** * One evaluation of the alerts of a listing *)
(* ================================================================== *)

Section OneEvaluation.

Variable E : env.

Lemma checkAlerts_up (pid : nat) (p : Z) (w : world) :
  (forall t, db_down E t = false) ->
  let o := checkAlerts E pid p w in
  let rows := Sql.select_active_alerts pid (store w) in
  res o = Ok tt /\
  final o = mkWorld (fired_store rows p (S (clock w)) (store w))
                    (S (clock w) + 2 * List.length (filter (firing p) rows))%nat /\
  notified_ids (emitted o) = map ar_id (filter (firing p) rows) /\
  deactivated_ids (emitted o) = map ar_id (filter (firing p) rows) /\
  evaluated_ids (emitted o) = [pid].
Proof.
  intros Hup o rows. subst o. unfold checkAlerts.
  set (body := bind (pool_query E (SelectActiveAlerts pid)
                       (fun _ d => (d, Sql.select_active_alerts pid d)))
                    (fun alerts => for_alerts E alerts p)).
  pose (w1 := mkWorld (store w) (S (clock w))).
  assert (Hq : pool_query E (SelectActiveAlerts pid)
            (fun _ d => (d, Sql.select_active_alerts pid d)) w
          = mkOutcome (Ok rows) w1 [Query (SelectActiveAlerts pid) true]).
  { rewrite pool_query_up by apply Hup. reflexivity. }
  destruct (bind_Ok (pool_query E (SelectActiveAlerts pid)
            (fun _ d => (d, Sql.select_active_alerts pid d)))
            (fun alerts => for_alerts E alerts p) w rows) as (Br & Bf & Be).
  { now rewrite Hq. }
  fold body in Br, Bf, Be.
  rewrite Hq in Br, Bf, Be. cbn [final emitted] in Br, Bf, Be.
  destruct (for_alerts_up E rows p Hup w1) as (Hr & Hf & Hn & Hd & He).
  rewrite (try_catch_Ok body _ w tt) by (now rewrite Br).
  rewrite Br, Bf, Be, Hr, Hf, notified_ids_app, deactivated_ids_app,
    evaluated_ids_app, Hn, Hd, He.
  simpl. auto.
Qed.

(** A loaded row is the active row of the table with that id. *)
Lemma loaded_row (pid : nat) (d : db) (r : alert_row) :
  wf_db d ->
  In r (Sql.select_active_alerts pid d) ->
  find_alert (ar_id r) d = Some (ar_alert r) /\
  a_product_id (ar_alert r) = pid /\
  a_is_active (ar_alert r) = true.
Proof.
  intros (_ & Ha & _ & _) Hin.
  destruct (select_active_alerts_In pid d r Hin) as (Hal & Hp & Hact).
  split; [|auto].
  exact (find_key_In a_id (alerts d) (ar_alert r) Ha Hal).
Qed.

(** Every active alert of an existing listing is loaded. *)
Lemma select_active_alerts_complete (d : db) (a : alert) :
  In a (alerts d) ->
  a_is_active a = true ->
  find_product (a_product_id a) d <> None ->
  exists r, In r (Sql.select_active_alerts (a_product_id a) d) /\ ar_alert r = a.
Proof.
  intros Hin Hact Hprod.
  destruct (find_product (a_product_id a) d) as [pr|] eqn:Hf; [|congruence].
  apply find_key_Some in Hf. destruct Hf as [Hpin Hpid].
  exists (mkAlertRow a (p_title pr) (p_marketplace_url pr)). split; [|reflexivity].
  unfold Sql.select_active_alerts. apply in_flat_map. exists a. split.
  - apply filter_In. split; [assumption|].
    now rewrite Nat.eqb_refl, Hact.
  - apply in_map_iff. exists pr. split; [reflexivity|].
    apply filter_In. split; [assumption|]. apply Nat.eqb_eq. congruence.
Qed.

(** An inactive alert is never loaded: an evaluation neither notifies it nor
    touches its row, whatever the environment. *)
Lemma checkAlerts_inactive (pid : nat) (p : Z) (w : world) (aid : nat) (a : alert) :
  wf_db (store w) ->
  find_alert aid (store w) = Some a ->
  a_is_active a = false ->
  fires aid (emitted (checkAlerts E pid p w)) = false /\
  find_alert aid (store (final (checkAlerts E pid p w))) = Some a.
Proof.
  intros Hwf Hfind Hinact.
  assert (Hnot : forall r, In r (Sql.select_active_alerts pid (store w)) ->
                           ar_id r <> aid).
  { intros r Hin Heq.
    destruct (loaded_row pid (store w) r Hwf Hin) as (Hf & _ & Hact).
    rewrite Heq, Hfind in Hf. injection Hf as ->. congruence. }
  destruct (checkAlerts_prefix E pid p w)
    as (_ & done & rest & Hrows & Hst & _ & _ & Hsub).
  split.
  - destruct (fires aid (emitted (checkAlerts E pid p w))) eqn:Hfires;
      [|reflexivity].
    apply fires_In in Hfires. apply Hsub in Hfires.
    apply in_map_iff in Hfires. destruct Hfires as (r & Hid & Hin).
    apply filter_In in Hin. exfalso. exact (Hnot r (proj1 Hin) Hid).
  - rewrite Hst, fired_store_other; [exact Hfind|].
    intros r Hin _. apply Hnot. rewrite Hrows. apply in_or_app. now left.
Qed.

(** An evaluation respects the life of alerts, whatever the environment. *)
Lemma checkAlerts_lifecycle (pid : nat) (p : Z) (w : world) :
  wf_db (store w) ->
  wf_db (store (final (checkAlerts E pid p w))) /\
  lifecycle (store w) (emitted (checkAlerts E pid p w))
            (store (final (checkAlerts E pid p w))).
Proof.
  intros Hwf.
  destruct (checkAlerts_prefix E pid p w)
    as (_ & done & rest & Hrows & Hst & _ & Hsub & _).
  split.
  - rewrite Hst. now apply fired_store_wf.
  - split.
    + intros aid a Hfind. rewrite Hst.
      destruct (fired_store_lifecycle done p (S (clock w)) (store w) aid a Hfind)
        as (a' & Hf' & Hcases).
      * intros r Hin Heq.
        assert (Hin' : In r (Sql.select_active_alerts pid (store w))).
        { rewrite Hrows. apply in_or_app. now left. }
        destruct (loaded_row pid (store w) r Hwf Hin') as (Hf & _ & Hact).
        rewrite Heq, Hfind in Hf. injection Hf as ->. exact Hact.
      * exists a'. split; [exact Hf'|].
        destruct Hcases as [->|(Hact & Ht & Hin)]; [now left|].
        right. repeat split; try assumption.
        apply fires_In. now apply Hsub.
    + intros aid a' Hnone Hsome. exfalso.
      rewrite Hst in Hsome.
      apply find_key_Some in Hsome. destruct Hsome as [Hin Hid].
      apply (in_map a_id) in Hin.
      destruct (fired_store_frame done p (S (clock w)) (store w))
        as (_ & _ & _ & _ & _ & Hids).
      rewrite Hids, Hid in Hin.
      apply in_map_iff in Hin. destruct Hin as (a0 & Ha0 & Hin0).
      unfold find_alert in Hnone.
      apply (find_none _ _ Hnone) in Hin0.
      rewrite Ha0, Nat.eqb_refl in Hin0. discriminate.
Qed.

End OneEvaluation.

(* ================================================================== *)
(** * The firing rule *)
(* ================================================================== *)

(** C2. For an alert [a] with target price T of an existing listing, and an
    evaluation of that listing at the price p while the store is reachable:
    [a] fires (is handed to the notifier) if and only if p <= T and [a] was
    active before the evaluation, the inequality being non-strict; after
    firing the row of [a] is inactive with a triggered timestamp, that
    timestamp was written by exactly one UPDATE, and no later evaluation, at
    any price and in any environment, fires [a] or writes its row again.
    An alert that does not fire keeps its row. *)
Theorem alert_fires_iff (E : env) (w : world) (p : Z) (a : alert) :
  (forall t, db_down E t = false) ->
  wf_db (store w) ->
  In a (alerts (store w)) ->
  find_product (a_product_id a) (store w) <> None ->
  let o := checkAlerts E (a_product_id a) p w in
  (fires (a_id a) (emitted o) = true <->
   p <= a_target_price a /\ a_is_active a = true) /\
  (fires (a_id a) (emitted o) = true ->
   exists t a',
     (clock w < t)%nat /\
     find_alert (a_id a) (store (final o)) = Some a' /\
     a' = Sql.deactivate t a /\
     a_is_active a' = false /\
     a_triggered_at a' = Some t /\
     count_occ Nat.eq_dec (deactivated_ids (emitted o)) (a_id a) = 1%nat /\
     forall E' p',
       let o' := checkAlerts E' (a_product_id a) p' (final o) in
       fires (a_id a) (emitted o') = false /\
       find_alert (a_id a) (store (final o')) = Some a') /\
  (fires (a_id a) (emitted o) = false ->
   find_alert (a_id a) (store (final o)) = Some a).
Proof.
  intros Hup Hwf Hin Hprod o.
  set (pid := a_product_id a) in *.
  set (rows := Sql.select_active_alerts pid (store w)).
  destruct (checkAlerts_up E pid p w Hup) as (Hr & Hf & Hn & Hd & He).
  fold o in Hr, Hf, Hn, Hd, He. fold rows in Hf, Hn, Hd.
  assert (Hfind : find_alert (a_id a) (store w) = Some a).
  { destruct Hwf as (_ & Ha & _ & _).
    exact (find_key_In a_id (alerts (store w)) a Ha Hin). }
  assert (Hiff : fires (a_id a) (emitted o) = true <->
                 p <= a_target_price a /\ a_is_active a = true).
  { rewrite fires_In, Hn, in_map_iff. split.
    - intros (r & Hid & Hrin). apply filter_In in Hrin.
      destruct Hrin as [Hrin Hfire].
      destruct (loaded_row pid (store w) r Hwf Hrin) as (Hfr & _ & Hact).
      rewrite Hid, Hfind in Hfr. injection Hfr as Heq.
      unfold firing, ar_target_price in Hfire. rewrite <- Heq in Hfire, Hact.
      apply Z.leb_le in Hfire. auto.
    - intros (Hle & Hact).
      destruct (select_active_alerts_complete (store w) a Hin Hact Hprod)
        as (r & Hrin & Hra).
      exists r. split; [unfold ar_id; now rewrite Hra|].
      apply filter_In. split; [exact Hrin|].
      unfold firing, ar_target_price. rewrite Hra. now apply Z.leb_le. }
  split; [exact Hiff|]. split.
  - intros Hfires.
    assert (Hnames : existsb (names p (a_id a)) rows = true).
    { apply names_In. rewrite <- Hn. now apply fires_In. }
    destruct (fired_store_hit rows p (a_id a) Hnames (S (clock w)) (store w) a Hfind)
      as (t & Ht & Hhit).
    exists t, (Sql.deactivate t a).
    split; [lia|]. split; [now rewrite Hf|].
    split; [reflexivity|]. split; [reflexivity|]. split; [reflexivity|].
    split.
    + rewrite Hd.
      assert (Hnd : NoDup (map ar_id (filter (firing p) rows))).
      { apply NoDup_map_filter. now apply select_active_alerts_NoDup. }
      apply (proj1 (NoDup_count_occ' Nat.eq_dec _) Hnd).
      rewrite <- Hn. now apply fires_In.
    + intros E' p' o'.
      apply checkAlerts_inactive.
      * rewrite Hf. simpl. now apply fired_store_wf.
      * now rewrite Hf.
      * reflexivity.
  - intros Hno. rewrite Hf. simpl.
    rewrite fired_store_other; [exact Hfind|].
    apply names_none.
    destruct (existsb (names p (a_id a)) rows) eqn:Hex; [|reflexivity].
    apply names_In in Hex. rewrite <- Hn in Hex. apply fires_In in Hex.
    congruence.
Qed.

(** The alert of the scenario fires at its target price. *)
Lemma alert_fires_iff_witness :
  fires 1 (emitted (checkAlerts healthy 1 90 scenario)) = true <->
  90 <= 90 /\ true = true.
Proof.
  assert (Hwf : wf_db (store scenario)).
  { unfold wf_db. simpl. repeat split.
    - repeat constructor. simpl. tauto.
    - repeat constructor. simpl. tauto.
    - repeat constructor.
    - repeat constructor. }
  assert (Hin : In alert1 (alerts (store scenario))) by (simpl; now left).
  assert (Hprod : find_product (a_product_id alert1) (store scenario) <> None)
    by (vm_compute; discriminate).
  exact (proj1 (alert_fires_iff healthy scenario 90 alert1
                  (fun _ => eq_refl) Hwf Hin Hprod)).
Defined.

(* ================================================================== *)
(** * Delivery failures and store failures during an evaluation *)
(* ================================================================== *)

Section Failures.

Variable E : env.

Lemma fire_row_delivered (r : alert_row) (p : Z) (w : world) :
  delivered_ids
    (emitted (bind (sendPriceAlert E r p)
                (fun _ => pool_query E (UpdateAlertTriggered (ar_id r))
                   (fun now d => (Sql.update_alert_triggered (ar_id r) now d, tt))) w))
  = (if smtp_down E (clock w) then [] else [ar_id r]).
Proof.
  destruct (sendPriceAlert_run E r p w) as (Hr & Hf & _ & _ & _ & Hdel).
  destruct (bind_Ok _ (fun _ => pool_query E (UpdateAlertTriggered (ar_id r))
                   (fun now d => (Sql.update_alert_triggered (ar_id r) now d, tt)))
                    w tt Hr) as (_ & _ & Be).
  rewrite Be, delivered_ids_app, Hdel, Hf.
  unfold pool_query. destruct (db_down E (clock (tick w))); simpl;
    now rewrite app_nil_r.
Qed.

(** With the transport down throughout, nothing is delivered. *)
Lemma for_alerts_undelivered (rows : list alert_row) (p : Z) :
  (forall t, smtp_down E t = true) ->
  forall w, delivered_ids (emitted (for_alerts E rows p w)) = [].
Proof.
  intros Hsmtp. induction rows as [|r rest IH]; intros w; [reflexivity|].
  cbn [for_alerts]. fold (firing p r). destruct (firing p r).
  - pose proof (fire_row_delivered r p w) as Hdel. rewrite Hsmtp in Hdel.
    destruct (fire_row_any E r p w) as (_ & _ & _ & [Hok | Hko]).
    + destruct Hok as (_ & Hr & _ & _).
      destruct (bind_Ok _ (fun _ => for_alerts E rest p) w tt Hr) as (_ & _ & Be).
      now rewrite Be, delivered_ids_app, Hdel, IH.
    + destruct Hko as (_ & Hr & _ & _).
      destruct (bind_Throw _ (fun _ => for_alerts E rest p) w _ Hr) as (_ & _ & Be).
      now rewrite Be.
  - destruct (bind_Ok (ret tt) (fun _ => for_alerts E rest p) w tt eq_refl)
      as (_ & _ & Be).
    rewrite Be. simpl. apply IH.
Qed.

Lemma checkAlerts_undelivered (pid : nat) (p : Z) (w : world) :
  (forall t, smtp_down E t = true) ->
  delivered_ids (emitted (checkAlerts E pid p w)) = [].
Proof.
  intros Hsmtp. unfold checkAlerts.
  set (body := bind (pool_query E (SelectActiveAlerts pid)
                       (fun _ d => (d, Sql.select_active_alerts pid d)))
                    (fun alerts => for_alerts E alerts p)).
  set (handler := fun error => console_error "Error checking alerts:" error).
  assert (Hbody : delivered_ids (emitted (body w)) = []).
  { unfold body, bind, pool_query. destruct (db_down E (clock w)); simpl.
    - reflexivity.
    - apply for_alerts_undelivered. exact Hsmtp. }
  destruct (res (body w)) as [[]|e] eqn:Hres.
  - now rewrite (try_catch_Ok body handler w tt Hres).
  - destruct (try_catch_Throw body handler w e Hres) as (_ & _ & Te).
    rewrite Te, delivered_ids_app, Hbody. reflexivity.
Qed.

(** When the UPDATE of the first firing row throws, the loop stops there:
    that row was notified, no row is deactivated. *)
Lemma for_alerts_first_update_fails (rows : list alert_row) (p : Z) (r : alert_row) :
  find (firing p) rows = Some r ->
  forall w,
    db_down E (S (clock w)) = true ->
    let o := for_alerts E rows p w in
    res o = Throw StoreFailure /\
    store (final o) = store w /\
    notified_ids (emitted o) = [ar_id r] /\
    deactivated_ids (emitted o) = [].
Proof.
  induction rows as [|r0 rest IH]; intros Hfind w Hdown o; [discriminate|].
  subst o. cbn [for_alerts find] in *. fold (firing p r0).
  destruct (firing p r0) eqn:Hfire.
  - injection Hfind as <-.
    destruct (fire_row_any E r0 p w) as (Hn & _ & _ & [Hok | Hko]).
    + destruct Hok as (Hup & _). congruence.
    + destruct Hko as (_ & Hr & Hs & Hd).
      destruct (bind_Throw _ (fun _ => for_alerts E rest p) w _ Hr)
        as (Br & Bf & Be).
      rewrite Br, Bf, Be. auto.
  - destruct (bind_Ok (ret tt) (fun _ => for_alerts E rest p) w tt eq_refl)
      as (Br & Bf & Be).
    rewrite Br, Bf, Be. cbn [ret final emitted app].
    exact (IH Hfind w Hdown).
Qed.

Lemma checkAlerts_first_update_fails (pid : nat) (p : Z) (w : world) (r : alert_row) :
  db_down E (clock w) = false ->
  db_down E (S (S (clock w))) = true ->
  find (firing p) (Sql.select_active_alerts pid (store w)) = Some r ->
  let o := checkAlerts E pid p w in
  res o = Ok tt /\
  store (final o) = store w /\
  notified_ids (emitted o) = [ar_id r] /\
  deactivated_ids (emitted o) = [].
Proof.
  intros Hup Hdown Hfind o. subst o. unfold checkAlerts.
  set (rows := Sql.select_active_alerts pid (store w)) in *.
  set (body := bind (pool_query E (SelectActiveAlerts pid)
                       (fun _ d => (d, Sql.select_active_alerts pid d)))
                    (fun alerts => for_alerts E alerts p)).
  set (handler := fun error => console_error "Error checking alerts:" error).
  pose (w1 := mkWorld (store w) (S (clock w))).
  assert (Hq : pool_query E (SelectActiveAlerts pid)
            (fun _ d => (d, Sql.select_active_alerts pid d)) w
          = mkOutcome (Ok rows) w1 [Query (SelectActiveAlerts pid) true]).
  { rewrite pool_query_up by exact Hup. reflexivity. }
  destruct (bind_Ok (pool_query E (SelectActiveAlerts pid)
            (fun _ d => (d, Sql.select_active_alerts pid d)))
            (fun alerts => for_alerts E alerts p) w rows) as (Br & Bf & Be).
  { now rewrite Hq. }
  fold body in Br, Bf, Be.
  rewrite Hq in Br, Bf, Be. cbn [final emitted] in Br, Bf, Be.
  destruct (for_alerts_first_update_fails rows p r Hfind w1 Hdown)
    as (Hr & Hs & Hn & Hd).
  destruct (try_catch_Throw body handler w StoreFailure) as (Tr & Tf & Te).
  { now rewrite Br. }
  rewrite Tr, Tf, Te, Bf, Be.
  unfold handler, console_error. cbn [res final emitted].
  rewrite !notified_ids_app, !deactivated_ids_app, Hn, Hd, Hs. simpl. auto.
Qed.

End Failures.

(** C3. With the store reachable and every delivery failing, an active alert
    whose target the price has reached is handed to the notifier, nothing is
    delivered, and the alert is all the same marked inactive with its
    triggered timestamp set. *)
Theorem notify_failure_still_deactivates (E : env) (w : world) (p : Z) (a : alert) :
  (forall t, db_down E t = false) ->
  (forall t, smtp_down E t = true) ->
  wf_db (store w) ->
  In a (alerts (store w)) ->
  find_product (a_product_id a) (store w) <> None ->
  a_is_active a = true ->
  p <= a_target_price a ->
  let o := checkAlerts E (a_product_id a) p w in
  fires (a_id a) (emitted o) = true /\
  delivered_ids (emitted o) = [] /\
  exists t a',
    find_alert (a_id a) (store (final o)) = Some a' /\
    a' = Sql.deactivate t a /\
    a_is_active a' = false /\
    a_triggered_at a' = Some t.
Proof.
  intros Hup Hsmtp Hwf Hin Hprod Hact Hle o.
  set (rows := Sql.select_active_alerts (a_product_id a) (store w)).
  destruct (checkAlerts_up E (a_product_id a) p w Hup) as (_ & Hf & Hn & _ & _).
  fold o in Hf, Hn. fold rows in Hf, Hn.
  assert (Hloaded : In (a_id a) (map ar_id (filter (firing p) rows))).
  { destruct (select_active_alerts_complete (store w) a Hin Hact Hprod)
      as (r & Hrin & Hra).
    apply in_map_iff. exists r. split; [unfold ar_id; now rewrite Hra|].
    apply filter_In. split; [exact Hrin|].
    unfold firing, ar_target_price. rewrite Hra. now apply Z.leb_le. }
  split; [apply fires_In; now rewrite Hn|].
  split; [now apply checkAlerts_undelivered|].
  assert (Hfind : find_alert (a_id a) (store w) = Some a).
  { destruct Hwf as (_ & Ha & _ & _).
    exact (find_key_In a_id (alerts (store w)) a Ha Hin). }
  destruct (fired_store_hit rows p (a_id a) (proj2 (names_In rows p (a_id a)) Hloaded)
              (S (clock w)) (store w) a Hfind) as (t & _ & Hhit).
  exists t, (Sql.deactivate t a). rewrite Hf. auto.
Qed.

(** The scenario with the transport down: the alert of target 90 at price 90. *)
Lemma notify_failure_still_deactivates_witness :
  fires 1 (emitted (checkAlerts smtp_outage 1 90 scenario)) = true /\
  delivered_ids (emitted (checkAlerts smtp_outage 1 90 scenario)) = [] /\
  exists t a',
    find_alert 1 (store (final (checkAlerts smtp_outage 1 90 scenario))) = Some a' /\
    a' = Sql.deactivate t alert1 /\
    a_is_active a' = false /\
    a_triggered_at a' = Some t.
Proof.
  assert (Hwf : wf_db (store scenario)).
  { unfold wf_db. simpl. repeat split; repeat constructor; simpl; tauto. }
  assert (Hin : In alert1 (alerts (store scenario))) by (simpl; now left).
  assert (Hprod : find_product (a_product_id alert1) (store scenario) <> None)
    by (vm_compute; discriminate).
  assert (Hle : 90 <= a_target_price alert1) by (simpl; lia).
  exact (notify_failure_still_deactivates smtp_outage scenario 90 alert1
           (fun _ => eq_refl) (fun _ => eq_refl) Hwf Hin Hprod eq_refl Hle).
Defined.

(* ================================================================== *)
(** * What an evaluation returns, and failures between alerts *)
(* ================================================================== *)

(** C5, as the code has it. With the store reachable, an evaluation returns
    no value (its result is the unit value); the alerts that fired are the
    loaded rows that meet the firing rule, in the order loaded: each was
    handed to the notifier and then deactivated, and neither that list nor
    the final store depends on which deliveries succeeded. *)
Theorem evaluation_fired_alerts (E : env) (w : world) (pid : nat) (p : Z) :
  (forall t, db_down E t = false) ->
  let o := checkAlerts E pid p w in
  let rows := Sql.select_active_alerts pid (store w) in
  res o = Ok tt /\
  notified_ids (emitted o) = map ar_id (filter (firing p) rows) /\
  deactivated_ids (emitted o) = map ar_id (filter (firing p) rows) /\
  forall E',
    (forall t, db_down E' t = false) ->
    notified_ids (emitted (checkAlerts E' pid p w)) = notified_ids (emitted o) /\
    final (checkAlerts E' pid p w) = final o.
Proof.
  intros Hup o rows.
  destruct (checkAlerts_up E pid p w Hup) as (Hr & Hf & Hn & Hd & _).
  fold o in Hr, Hf, Hn, Hd. fold rows in Hf, Hn, Hd.
  repeat split; try assumption.
  - destruct (checkAlerts_up E' pid p w H) as (_ & _ & Hn' & _).
    now rewrite Hn, Hn'.
  - destruct (checkAlerts_up E' pid p w H) as (_ & Hf' & _).
    now rewrite Hf, Hf'.
Qed.

(** The scenario at the target price, the transport up or down. *)
Lemma evaluation_fired_alerts_witness :
  notified_ids (emitted (checkAlerts healthy 1 90 scenario)) = [1%nat] /\
  notified_ids (emitted (checkAlerts smtp_outage 1 90 scenario)) = [1%nat].
Proof.
  destruct (evaluation_fired_alerts healthy scenario 1 90 (fun _ => eq_refl))
    as (_ & Hn & _ & Hindep).
  destruct (Hindep smtp_outage (fun _ => eq_refl)) as (Hn' & _).
  split; [exact Hn | now rewrite Hn'].
Defined.

(** C5, counterexample. The value an evaluation returns does not carry the
    list of fired alerts: at the prices 90 and 95 the scenario returns the
    same value, while the alert fires at 90 and not at 95. *)
Lemma evaluation_returns_no_list :
  ~ exists decode : result unit -> list nat,
      decode (res (checkAlerts healthy 1 90 scenario))
      = notified_ids (emitted (checkAlerts healthy 1 90 scenario)) /\
      decode (res (checkAlerts healthy 1 95 scenario))
      = notified_ids (emitted (checkAlerts healthy 1 95 scenario)).
Proof.
  intros (decode & H90 & H95).
  assert (R90 : res (checkAlerts healthy 1 90 scenario) = Ok tt) by reflexivity.
  assert (R95 : res (checkAlerts healthy 1 95 scenario) = Ok tt) by reflexivity.
  assert (N90 : notified_ids (emitted (checkAlerts healthy 1 90 scenario)) = [1%nat])
    by reflexivity.
  assert (N95 : notified_ids (emitted (checkAlerts healthy 1 95 scenario)) = [])
    by reflexivity.
  rewrite R90, N90 in H90. rewrite R95, N95 in H95. congruence.
Qed.

(** ** A store failure at the UPDATE of any firing row *)

Section UpdateFails.

Variable E : env.

(** The loop on [done ++ r :: rest], the store reachable at the UPDATE of
    every firing row of [done] and down at the UPDATE of the firing row
    [r]: the firing rows of [done] are notified and deactivated, [r] is
    notified, and the loop is left there. *)
Lemma for_alerts_update_fails (p : Z) (done : list alert_row) (r : alert_row)
    (rest : list alert_row) :
  firing p r = true ->
  forall w,
    (forall j, (j < List.length (filter (firing p) done))%nat ->
               db_down E (clock w + 2 * j + 1)%nat = false) ->
    db_down E (clock w + 2 * List.length (filter (firing p) done) + 1)%nat = true ->
    let o := for_alerts E (done ++ r :: rest) p w in
    res o = Throw StoreFailure /\
    store (final o) = fired_store done p (clock w) (store w) /\
    notified_ids (emitted o) = map ar_id (filter (firing p) done) ++ [ar_id r] /\
    deactivated_ids (emitted o) = map ar_id (filter (firing p) done).
Proof.
  intros Hr. induction done as [|r0 done' IH]; intros w Hup Hdown o; subst o.
  - cbn [app filter List.length map fired_store] in *.
    replace (clock w + 2 * 0 + 1)%nat with (S (clock w)) in Hdown by lia.
    cbn [for_alerts]. fold (firing p r). rewrite Hr.
    destruct (fire_row_any E r p w) as (Hn & _ & _ & [Hok | Hko]).
    + destruct Hok as (Hok & _). congruence.
    + destruct Hko as (_ & Hres & Hs & Hd).
      destruct (bind_Throw _ (fun _ => for_alerts E rest p) w _ Hres)
        as (Br & Bf & Be).
      rewrite Br, Bf, Be. auto.
  - cbn [app for_alerts filter fired_store] in *. fold (firing p r0) in *.
    destruct (firing p r0) eqn:Hfire.
    + cbn [List.length map] in *.
      destruct (fire_row_any E r0 p w) as (Hn & _ & Hc & [Hok | Hko]).
      * destruct Hok as (_ & Hres & Hs & Hd).
        destruct (bind_Ok _ (fun _ => for_alerts E (done' ++ r :: rest) p) w tt Hres)
          as (Br & Bf & Be).
        rewrite Br, Bf, Be.
        match type of Hc with clock (final ?x) = _ => set (o0 := x) in * end.
        destruct (IH (final o0)) as (Ir & Is & In_ & Id).
        { intros j Hj. rewrite Hc.
          replace (S (S (clock w)) + 2 * j + 1)%nat
            with (clock w + 2 * S j + 1)%nat by lia.
          apply Hup. lia. }
        { rewrite Hc.
          replace (S (S (clock w)) + 2 * List.length (filter (firing p) done') + 1)%nat
            with (clock w + 2 * S (List.length (filter (firing p) done')) + 1)%nat
            by lia.
          exact Hdown. }
        rewrite Hc, Hs in Is.
        rewrite notified_ids_app, deactivated_ids_app, Hn, Hd, In_, Id.
        cbn [app]. auto.
      * destruct Hko as (Hko & _).
        assert (H0 : db_down E (clock w + 2 * 0 + 1)%nat = false)
          by (apply Hup; lia).
        replace (clock w + 2 * 0 + 1)%nat with (S (clock w)) in H0 by lia.
        congruence.
    + destruct (bind_Ok (ret tt) (fun _ => for_alerts E (done' ++ r :: rest) p)
                        w tt eq_refl) as (Br & Bf & Be).
      rewrite Br, Bf, Be. cbn [ret final emitted app].
      exact (IH w Hup Hdown).
Qed.

(** The same for the evaluation: the error is caught and logged by
    [checkAlerts]. *)
Lemma checkAlerts_update_fails (pid : nat) (p : Z) (w : world)
    (done : list alert_row) (r : alert_row) (rest : list alert_row) :
  db_down E (clock w) = false ->
  Sql.select_active_alerts pid (store w) = done ++ r :: rest ->
  firing p r = true ->
  (forall j, (j < List.length (filter (firing p) done))%nat ->
             db_down E (clock w + 2 * j + 2)%nat = false) ->
  db_down E (clock w + 2 * List.length (filter (firing p) done) + 2)%nat = true ->
  let o := checkAlerts E pid p w in
  res o = Ok tt /\
  store (final o) = fired_store done p (S (clock w)) (store w) /\
  notified_ids (emitted o) = map ar_id (filter (firing p) done) ++ [ar_id r] /\
  deactivated_ids (emitted o) = map ar_id (filter (firing p) done) /\
  exists evs,
    emitted o = evs ++ [ConsoleError "Error checking alerts:" StoreFailure].
Proof.
  intros Hsel Hrows Hr Hup Hdown o. subst o. unfold checkAlerts.
  set (body := bind (pool_query E (SelectActiveAlerts pid)
                       (fun _ d => (d, Sql.select_active_alerts pid d)))
                    (fun alerts => for_alerts E alerts p)).
  set (handler := fun error => console_error "Error checking alerts:" error).
  pose (w1 := mkWorld (store w) (S (clock w))).
  assert (Hq : pool_query E (SelectActiveAlerts pid)
            (fun _ d => (d, Sql.select_active_alerts pid d)) w
          = mkOutcome (Ok (done ++ r :: rest)) w1 [Query (SelectActiveAlerts pid) true]).
  { rewrite pool_query_up by exact Hsel. cbn [snd fst]. now rewrite Hrows. }
  destruct (bind_Ok (pool_query E (SelectActiveAlerts pid)
            (fun _ d => (d, Sql.select_active_alerts pid d)))
            (fun alerts => for_alerts E alerts p) w (done ++ r :: rest))
    as (Br & Bf & Be).
  { now rewrite Hq. }
  fold body in Br, Bf, Be.
  rewrite Hq in Br, Bf, Be. cbn [final emitted] in Br, Bf, Be.
  destruct (for_alerts_update_fails p done r rest Hr w1) as (Lr & Ls & Ln & Ld).
  { intros j Hj. cbn [w1 clock].
    replace (S (clock w) + 2 * j + 1)%nat with (clock w + 2 * j + 2)%nat by lia.
    now apply Hup. }
  { cbn [w1 clock].
    replace (S (clock w) + 2 * List.length (filter (firing p) done) + 1)%nat
      with (clock w + 2 * List.length (filter (firing p) done) + 2)%nat by lia.
    exact Hdown. }
  destruct (try_catch_Throw body handler w StoreFailure) as (Tr & Tf & Te).
  { now rewrite Br. }
  rewrite Tr, Tf, Te, Bf, Be.
  unfold handler, console_error. cbn [res final emitted].
  split; [reflexivity|]. split; [exact Ls|]. split; [|split].
  - rewrite !notified_ids_app, Ln. cbn. now rewrite app_nil_r.
  - rewrite !deactivated_ids_app, Ld. cbn. now rewrite app_nil_r.
  - eexists. reflexivity.
Qed.

End UpdateFails.

Lemma NoDup_app_disjoint {A} (l1 l2 : list A) (x : A) :
  NoDup (l1 ++ l2) -> In x l1 -> In x l2 -> False.
Proof.
  induction l1 as [|y l1 IH]; intros Hnd H1 H2; [contradiction|].
  cbn [app] in Hnd. inversion Hnd as [|? ? Hnotin Hnd']; subst.
  destruct H1 as [->|H1].
  - apply Hnotin. apply in_or_app. now right.
  - now apply IH.
Qed.

(** C6, as the code has it. A delivery failure does not stop the loop: with
    the store reachable, every loaded row that meets the firing rule is
    handed to the notifier and deactivated, whatever the transport does.
    A failure of the store does.  When the UPDATE of a firing row [r]
    throws, the rows loaded before [r] having been processed, the
    evaluation ends there and the error is logged: the firing rows before
    [r] are notified and deactivated, [r] is notified and stays active, and
    the rows after [r] are neither notified nor written and stay active.
    The case of the first firing row is stated apart: nothing is
    deactivated and only that row is notified. *)
Theorem failures_between_alerts (E : env) (w : world) (pid : nat) (p : Z) :
  wf_db (store w) ->
  let o := checkAlerts E pid p w in
  let rows := Sql.select_active_alerts pid (store w) in
  ((forall t, db_down E t = false) ->
   forall r, In r rows -> firing p r = true ->
     fires (ar_id r) (emitted o) = true /\
     exists t, find_alert (ar_id r) (store (final o))
               = Some (Sql.deactivate t (ar_alert r))) /\
  (db_down E (clock w) = false ->
   db_down E (S (S (clock w))) = true ->
   forall r, find (firing p) rows = Some r ->
     res o = Ok tt /\
     store (final o) = store w /\
     notified_ids (emitted o) = [ar_id r] /\
     deactivated_ids (emitted o) = []) /\
  (db_down E (clock w) = false ->
   forall done r rest,
     rows = done ++ r :: rest ->
     firing p r = true ->
     (forall j, (j < List.length (filter (firing p) done))%nat ->
                db_down E (clock w + 2 * j + 2)%nat = false) ->
     db_down E (clock w + 2 * List.length (filter (firing p) done) + 2)%nat = true ->
     res o = Ok tt /\
     (exists evs,
        emitted o = evs ++ [ConsoleError "Error checking alerts:" StoreFailure]) /\
     notified_ids (emitted o) = map ar_id (filter (firing p) done) ++ [ar_id r] /\
     deactivated_ids (emitted o) = map ar_id (filter (firing p) done) /\
     (forall r', In r' done -> firing p r' = true ->
        fires (ar_id r') (emitted o) = true /\
        exists t, find_alert (ar_id r') (store (final o))
                  = Some (Sql.deactivate t (ar_alert r'))) /\
     (fires (ar_id r) (emitted o) = true /\
      find_alert (ar_id r) (store (final o)) = Some (ar_alert r) /\
      a_is_active (ar_alert r) = true) /\
     (forall r', In r' rest ->
        fires (ar_id r') (emitted o) = false /\
        find_alert (ar_id r') (store (final o)) = Some (ar_alert r') /\
        a_is_active (ar_alert r') = true)).
Proof.
  intros Hwf o rows. split; [|split].
  - intros Hup r Hin Hfire.
    destruct (checkAlerts_up E pid p w Hup) as (_ & Hf & Hn & _ & _).
    fold o in Hf, Hn. fold rows in Hf, Hn.
    assert (Hloaded : In (ar_id r) (map ar_id (filter (firing p) rows))).
    { apply in_map. apply filter_In. auto. }
    split; [apply fires_In; now rewrite Hn|].
    destruct (loaded_row pid (store w) r Hwf Hin) as (Hfind & _ & _).
    destruct (fired_store_hit rows p (ar_id r)
                (proj2 (names_In rows p (ar_id r)) Hloaded)
                (S (clock w)) (store w) (ar_alert r) Hfind) as (t & _ & Hhit).
    exists t. now rewrite Hf.
  - intros Hup Hdown r Hfind.
    exact (checkAlerts_first_update_fails E pid p w r Hup Hdown Hfind).
  - intros Hsel done r rest Hrows Hr Hup Hdown.
    destruct (checkAlerts_update_fails E pid p w done r rest Hsel Hrows Hr Hup Hdown)
      as (Hres & Hs & Hn & Hd & Hlog).
    fold o in Hres, Hs, Hn, Hd, Hlog.
    pose proof (select_active_alerts_NoDup pid (store w) Hwf) as Hnd.
    fold rows in Hnd. rewrite Hrows, map_app in Hnd. cbn [map] in Hnd.
    assert (Hloaded : forall r', In r' (done ++ r :: rest) ->
              find_alert (ar_id r') (store w) = Some (ar_alert r') /\
              a_is_active (ar_alert r') = true).
    { intros r' Hin. rewrite <- Hrows in Hin.
      destruct (loaded_row pid (store w) r' Hwf Hin) as (Hf & _ & Hact). auto. }
    assert (Hkept : forall r', In r' (r :: rest) ->
              find_alert (ar_id r') (store (final o)) = Some (ar_alert r') /\
              a_is_active (ar_alert r') = true).
    { intros r' Hin.
      destruct (Hloaded r') as (Hf & Hact); [apply in_or_app; now right|].
      split; [|exact Hact]. rewrite Hs, fired_store_other; [exact Hf|].
      intros r0 Hin0 _ Heq.
      apply (NoDup_app_disjoint _ _ (ar_id r') Hnd).
      - rewrite <- Heq. now apply in_map.
      - change (ar_id r :: map ar_id rest) with (map ar_id (r :: rest)).
        now apply in_map. }
    split; [exact Hres|]. split; [exact Hlog|]. split; [exact Hn|].
    split; [exact Hd|]. split; [|split].
    + intros r' Hin Hfire.
      assert (Hfd : In (ar_id r') (map ar_id (filter (firing p) done))).
      { apply in_map. apply filter_In. auto. }
      split.
      * apply fires_In. rewrite Hn. apply in_or_app. now left.
      * destruct (Hloaded r') as (Hf & _); [apply in_or_app; now left|].
        destruct (fired_store_hit done p (ar_id r')
                    (proj2 (names_In done p (ar_id r')) Hfd)
                    (S (clock w)) (store w) (ar_alert r') Hf) as (t & _ & Hhit).
        exists t. now rewrite Hs.
    + split.
      * apply fires_In. rewrite Hn. apply in_or_app. right. now left.
      * apply Hkept. now left.
    + intros r' Hin. split; [|apply Hkept; now right].
      destruct (fires (ar_id r') (emitted o)) eqn:Hfires; [|reflexivity].
      exfalso. apply fires_In in Hfires. rewrite Hn in Hfires.
      pose proof (NoDup_remove_1 _ _ _ Hnd) as Hnd1.
      pose proof (NoDup_remove_2 _ _ _ Hnd) as Hnd2.
      apply in_app_or in Hfires. destruct Hfires as [Hfires|[Heq|[]]].
      * apply in_map_iff in Hfires. destruct Hfires as (r0 & Hid & Hin0).
        apply filter_In in Hin0. destruct Hin0 as [Hin0 _].
        apply (NoDup_app_disjoint _ _ (ar_id r') Hnd1).
        -- rewrite <- Hid. now apply in_map.
        -- now apply in_map.
      * apply Hnd2. apply in_or_app. right. rewrite Heq. now apply in_map.
Qed.

Lemma wf_two_alerts : wf_db (store two_alerts).
Proof.
  unfold wf_db. simpl. repeat split; repeat constructor; simpl; try tauto; lia.
Qed.

(** Two alerts at the price 90: the transport down, both fire; the store
    down at the first UPDATE, nothing is deactivated; the store down at the
    second UPDATE, the first alert is deactivated, the second is notified
    and stays active, and the error is logged. *)
Lemma failures_between_alerts_witness :
  fires 2 (emitted (checkAlerts smtp_outage 1 90 two_alerts)) = true /\
  store (final (checkAlerts (db_blip 2%nat) 1 90 two_alerts)) = store two_alerts /\
  (deactivated_ids (emitted (checkAlerts (db_blip 4%nat) 1 90 two_alerts)) = [1%nat] /\
   find_alert 2 (store (final (checkAlerts (db_blip 4%nat) 1 90 two_alerts)))
   = Some alert2).
Proof.
  split; [|split].
  - refine (proj1 (proj1 (failures_between_alerts smtp_outage two_alerts 1 90
                            wf_two_alerts)
                     (fun _ => eq_refl)
                     (mkAlertRow alert2 "Product from Marketplace" url1) _ _)).
    + simpl. right. now left.
    + reflexivity.
  - refine (proj1 (proj2 (proj1 (proj2 (failures_between_alerts (db_blip 2%nat)
                            two_alerts 1 90 wf_two_alerts))
                     eq_refl eq_refl
                     (mkAlertRow alert1 "Product from Marketplace" url1) _))).
    reflexivity.
  - assert (Hup : forall j, (j < List.length (filter (firing 90)
                      [mkAlertRow alert1 "Product from Marketplace" url1]))%nat ->
                    db_down (db_blip 4%nat) (clock two_alerts + 2 * j + 2)%nat = false).
    { intros j Hj. cbn in Hj. assert (j = 0%nat) as -> by lia. reflexivity. }
    destruct (proj2 (proj2 (failures_between_alerts (db_blip 4%nat) two_alerts 1 90
                              wf_two_alerts))
                eq_refl
                [mkAlertRow alert1 "Product from Marketplace" url1]
                (mkAlertRow alert2 "Product from Marketplace" url1) []
                eq_refl eq_refl Hup eq_refl)
      as (_ & _ & _ & Hd & _ & (_ & Hf & _) & _).
    split; [exact Hd | exact Hf].
Defined.

(** C6, counterexample. Both alerts of the listing meet the firing rule at
    the price 90 and both fire when nothing fails; when the store is down at
    the instant of the first alert's UPDATE, the second alert is neither
    notified nor deactivated. *)
Lemma store_failure_blocks_remaining_alerts :
  fires 2 (emitted (checkAlerts healthy 1 90 two_alerts)) = true /\
  firing 90 (mkAlertRow alert2 "Product from Marketplace" url1) = true /\
  fires 1 (emitted (checkAlerts (db_blip 2%nat) 1 90 two_alerts)) = true /\
  fires 2 (emitted (checkAlerts (db_blip 2%nat) 1 90 two_alerts)) = false /\
  find_alert 2 (store (final (checkAlerts (db_blip 2%nat) 1 90 two_alerts)))
  = Some alert2 /\
  a_is_active alert2 = true.
Proof. repeat split; reflexivity. Qed.

(* ================================================================== *)
(** * Computations that respect the life of alerts *)
(* ================================================================== *)

Section Respect.

Lemma lifecycle_refl (d : db) : lifecycle d [] d.
Proof.
  split.
  - intros aid a Hf. exists a. auto.
  - intros aid a' Hnone Hsome. congruence.
Qed.

Lemma lifecycle_same_alerts (d d' : db) (evs : list event) :
  alerts d' = alerts d -> lifecycle d evs d'.
Proof.
  intros Heq. unfold lifecycle, find_alert. rewrite Heq. split.
  - intros aid a Hf. exists a. auto.
  - intros aid a' Hnone Hsome. congruence.
Qed.

Lemma lifecycle_trans (d d1 d2 : db) (e1 e2 : list event) :
  lifecycle d e1 d1 -> lifecycle d1 e2 d2 -> lifecycle d (e1 ++ e2) d2.
Proof.
  intros [Hold1 Hnew1] [Hold2 Hnew2]. split.
  - intros aid a Hf.
    destruct (Hold1 aid a Hf) as (a1 & Hf1 & Hc1).
    destruct (Hold2 aid a1 Hf1) as (a2 & Hf2 & Hc2).
    exists a2. split; [exact Hf2|].
    rewrite fires_app.
    destruct Hc1 as [->|(Hact & (t & ->) & Hfire)].
    + destruct Hc2 as [->|(Hact & Ht & Hfire)]; [now left|].
      right. rewrite Hfire, orb_true_r. auto.
    + destruct Hc2 as [->|(Hact2 & _)]; [|discriminate].
      right. rewrite Hfire. repeat split; eauto.
  - intros aid a2 Hnone Hsome. rewrite fires_app.
    destruct (find_alert aid d1) as [a1|] eqn:Hf1.
    + destruct (Hold2 aid a1 Hf1) as (a2' & Hf2 & Hc2).
      rewrite Hsome in Hf2. injection Hf2 as <-.
      destruct (Hnew1 aid a1 Hnone Hf1) as [(Hact & Hnull)|(Hact & Ht & Hfire)].
      * destruct Hc2 as [->|(_ & (t & ->) & Hfire)]; [now left|].
        right. rewrite Hfire, orb_true_r. simpl. eauto.
      * destruct Hc2 as [->|(Hact2 & _)]; [|congruence].
        right. rewrite Hfire. auto.
    + destruct (Hnew2 aid a2 Hf1 Hsome) as [?|(Hact & Ht & Hfire)]; [now left|].
      right. rewrite Hfire, orb_true_r. auto.
Qed.

Lemma respects_ret {A} (a : A) : respects (ret a).
Proof. intros w Hwf. simpl. split; [assumption | apply lifecycle_refl]. Qed.

Lemma respects_throw {A} (e : error) : respects (@throw A e).
Proof. intros w Hwf. simpl. split; [assumption | apply lifecycle_refl]. Qed.

Lemma respects_console_log (msg : string) : respects (console_log msg).
Proof.
  intros w Hwf. simpl. split; [assumption|]. now apply lifecycle_same_alerts.
Qed.

Lemma respects_console_error (msg : string) (e : error) :
  respects (console_error msg e).
Proof.
  intros w Hwf. simpl. split; [assumption|]. now apply lifecycle_same_alerts.
Qed.

Lemma respects_delay (ms : nat) : respects (delay ms).
Proof.
  intros w Hwf. simpl. split; [assumption|]. now apply lifecycle_same_alerts.
Qed.

Lemma respects_bind {A B} (m : M A) (f : A -> M B) :
  respects m -> (forall a, respects (f a)) -> respects (bind m f).
Proof.
  intros Hm Hf w Hwf. destruct (Hm w Hwf) as [Hwf1 Hl1].
  destruct (res (m w)) as [a|e] eqn:Hres.
  - destruct (bind_Ok m f w a Hres) as (_ & Bf & Be). rewrite Bf, Be.
    destruct (Hf a (final (m w)) Hwf1) as [Hwf2 Hl2].
    split; [assumption|]. now apply lifecycle_trans with (d1 := store (final (m w))).
  - destruct (bind_Throw m f w e Hres) as (_ & Bf & Be). rewrite Bf, Be. auto.
Qed.

Lemma respects_try_catch {A} (m : M A) (h : error -> M A) :
  respects m -> (forall e, respects (h e)) -> respects (try_catch m h).
Proof.
  intros Hm Hh w Hwf. destruct (Hm w Hwf) as [Hwf1 Hl1].
  destruct (res (m w)) as [a|e] eqn:Hres.
  - rewrite (try_catch_Ok m h w a Hres). auto.
  - destruct (try_catch_Throw m h w e Hres) as (_ & Tf & Te). rewrite Tf, Te.
    destruct (Hh e (final (m w)) Hwf1) as [Hwf2 Hl2].
    split; [assumption|]. now apply lifecycle_trans with (d1 := store (final (m w))).
Qed.

Variable E : env.

Lemma respects_pool_query {A} (q : sql) (run : time -> db -> db * A) :
  keeps_alerts run -> respects (pool_query E q run).
Proof.
  intros Hkeep w Hwf. unfold pool_query.
  destruct (db_down E (clock w)); simpl.
  - split; [assumption|]. now apply lifecycle_same_alerts.
  - destruct (Hkeep (clock w) (store w)) as (Hal & _ & Hwf').
    split; [now apply Hwf'|]. now apply lifecycle_same_alerts.
Qed.

Lemma respects_checkAlerts (pid : nat) (p : Z) : respects (checkAlerts E pid p).
Proof. intros w Hwf. now apply checkAlerts_lifecycle. Qed.

End Respect.

(* ================================================================== *)
(** * The statements and the key constraints *)
(* ================================================================== *)

Create HintDb respect.

Section Statements.

Lemma keeps_select {A} (f : db -> A) : keeps_alerts (fun (_ : time) d => (d, f d)).
Proof. intros t d. simpl. auto. Qed.

Lemma wf_map_products (g : product -> product) (d : db) (hs : list history_entry)
    (nh : nat) :
  (forall p, p_id (g p) = p_id p) ->
  wf_db d ->
  wf_db (mkDb (map g (products d)) hs (alerts d)
              (next_product_id d) nh (next_alert_id d)).
Proof.
  intros Hg (Hp & Ha & Hpn & Han). unfold wf_db. simpl.
  rewrite map_map. rewrite (map_ext _ p_id Hg).
  repeat split; try assumption.
  apply Forall_forall. intros p Hin.
  apply in_map_iff in Hin. destruct Hin as (p0 & <- & Hin0).
  rewrite Forall_forall in Hpn. rewrite Hg. now apply Hpn.
Qed.

Lemma keeps_update_product_price (price : Z) (id : nat) :
  keeps_alerts (fun now d => (Sql.update_product_price price id now d, tt)).
Proof.
  intros t d. simpl. split; [reflexivity | split; [reflexivity|]].
  intros Hwf. unfold Sql.update_product_price.
  apply wf_map_products; [|assumption].
  intros p. now destruct (Nat.eqb (p_id p) id).
Qed.

Lemma keeps_update_product_tracked (price : Z) (id : nat) :
  keeps_alerts (fun now d => (Sql.update_product_tracked price id now d, tt)).
Proof.
  intros t d. simpl. split; [reflexivity | split; [reflexivity|]].
  intros Hwf. unfold Sql.update_product_tracked.
  apply wf_map_products; [|assumption].
  intros p. now destruct (Nat.eqb (p_id p) id).
Qed.

Lemma keeps_insert_price_history (pid : nat) (price : Z) :
  keeps_alerts (fun now d => (Sql.insert_price_history pid price now d, tt)).
Proof.
  intros t d. simpl. split; [reflexivity | split; [reflexivity|]].
  intros (Hp & Ha & Hpn & Han). unfold wf_db. simpl. auto.
Qed.

Lemma NoDup_snoc_fresh (l : list nat) (n : nat) :
  NoDup l -> Forall (fun k => (k < n)%nat) l -> NoDup (l ++ [n]).
Proof.
  intros Hnd Hlt. induction l as [|k l IH]; simpl.
  - repeat constructor. simpl. tauto.
  - inversion Hnd as [|? ? Hnotin Hnd']; subst.
    inversion Hlt as [|? ? Hk Hlt']; subst.
    constructor; [|auto].
    intro Hin. apply in_app_or in Hin. destruct Hin as [Hin|[Heq|[]]].
    + contradiction.
    + lia.
Qed.

Lemma keeps_insert_product (ld : listingData) (url : string) :
  keeps_alerts (fun (_ : time) d => Sql.insert_product ld url d).
Proof.
  intros t d. simpl. split; [reflexivity | split; [reflexivity|]].
  intros (Hp & Ha & Hpn & Han). unfold wf_db. simpl.
  rewrite map_app. simpl. repeat split; try assumption.
  - apply NoDup_snoc_fresh; [assumption|].
    apply Forall_forall. intros k Hin. apply in_map_iff in Hin.
    destruct Hin as (p & <- & Hin). rewrite Forall_forall in Hpn. now apply Hpn.
  - apply Forall_app. split.
    + eapply Forall_impl; [|exact Hpn]. simpl. intros; lia.
    + repeat constructor.
Qed.

Lemma find_app_None {A} (f : A -> bool) (l l' : list A) :
  find f l = None -> find f (l ++ l') = find f l'.
Proof.
  induction l as [|y l IH]; simpl; [reflexivity|].
  destruct (f y); [discriminate | exact IH].
Qed.

Variable E : env.

(** Creating an alert adds one active row with no triggered timestamp. *)
Lemma respects_insert_alert (pid : nat) (email : string) (target : Z) :
  respects (pool_query E (InsertAlert pid email target)
              (fun _ d => (Sql.insert_alert pid email target "price_drop" d, tt))).
Proof.
  intros w Hwf. unfold pool_query.
  destruct (db_down E (clock w)); simpl.
  - split; [assumption|]. now apply lifecycle_same_alerts.
  - split.
    + destruct Hwf as (Hp & Ha & Hpn & Han). unfold wf_db. simpl.
      rewrite map_app. simpl. repeat split; try assumption.
      * apply NoDup_snoc_fresh; [assumption|].
        apply Forall_forall. intros k Hin. apply in_map_iff in Hin.
        destruct Hin as (a & <- & Hin). rewrite Forall_forall in Han.
        now apply Han.
      * apply Forall_app. split.
        -- eapply Forall_impl; [|exact Han]. simpl. intros; lia.
        -- repeat constructor.
    + split.
      * intros aid a Hf. exists a. split; [|now left].
        unfold find_alert in *. simpl. now apply find_app_Some.
      * intros aid a' Hnone Hsome. left.
        unfold find_alert in *. simpl in Hsome.
        rewrite find_app_None in Hsome by exact Hnone.
        simpl in Hsome.
        destruct (Nat.eqb (next_alert_id (store w)) aid); [|discriminate].
        injection Hsome as <-. auto.
Qed.

Lemma respects_scrape_with (page : string -> Z) (url : string) :
  respects (scrape_with page url).
Proof.
  unfold scrape_with. apply respects_try_catch.
  - destruct (match_item url); [apply respects_ret | apply respects_throw].
  - intros e. apply respects_bind; [apply respects_console_error|].
    intros _. apply respects_throw.
Qed.

#[local] Hint Resolve respects_ret respects_throw respects_console_log
  respects_console_error respects_delay respects_checkAlerts
  respects_insert_alert keeps_select keeps_update_product_price
  keeps_update_product_tracked keeps_insert_price_history
  keeps_insert_product : respect.

Lemma respects_ingest (id : nat) (stored observed : Z) :
  respects (ingest E id stored observed).
Proof.
  unfold ingest. apply respects_bind.
  - apply respects_pool_query. auto with respect.
  - intros _. destruct (price_changed observed stored); [|auto with respect].
    apply respects_bind; [|auto with respect].
    apply respects_pool_query. auto with respect.
Qed.

Variable scrape : string -> M listingData.
Hypothesis respects_scrape : forall url, respects (scrape url).

Lemma respects_check_product (id : nat) : respects (check_product E scrape id).
Proof.
  unfold check_product. apply respects_try_catch.
  - apply respects_bind.
    + apply respects_pool_query. auto with respect.
    + intros [|row0 rows]; [auto with respect|].
      apply respects_bind; [apply respects_scrape|]. intros ld.
      apply respects_bind; [apply respects_ingest|]. auto with respect.
  - intros e. apply respects_bind; auto with respect.
Qed.

Lemma respects_add_product (req : add_request) :
  respects (add_product E scrape req).
Proof.
  unfold add_product. apply respects_try_catch.
  - destruct (negb (truthy_string (marketplace_url req))); [auto with respect|].
    apply respects_bind; [apply respects_scrape|]. intros ld.
    apply respects_bind; [apply respects_pool_query; auto with respect|].
    intros existing.
    apply respects_bind.
    { destruct existing as [|id0 ids].
      - apply respects_bind; [apply respects_pool_query; auto with respect|].
        auto with respect.
      - apply respects_bind; [apply respects_pool_query; auto with respect|].
        auto with respect. }
    intros productId.
    apply respects_bind; [apply respects_pool_query; auto with respect|].
    intros _.
    apply respects_bind.
    { destruct (truthy_string (user_email req) && truthy_number (target_price req))%bool;
        auto with respect. }
    intros _.
    apply respects_bind; [apply respects_pool_query; auto with respect|].
    auto with respect.
  - intros e. apply respects_bind; auto with respect.
Qed.

Lemma respects_for_products (rows : list product) :
  respects (for_products E scrape rows).
Proof.
  induction rows as [|pr rest IH]; simpl; [auto with respect|].
  apply respects_bind; [|intros _; exact IH].
  apply respects_try_catch; [|auto with respect].
  apply respects_bind; [apply respects_scrape|]. intros ld.
  apply respects_bind; [apply respects_ingest|]. auto with respect.
Qed.

Lemma respects_price_check : respects (price_check E scrape).
Proof.
  unfold price_check. apply respects_bind; [auto with respect|]. intros _.
  apply respects_try_catch; [|auto with respect].
  apply respects_bind; [apply respects_pool_query; auto with respect|].
  intros rows. apply respects_bind; [apply respects_for_products|].
  auto with respect.
Qed.

End Statements.

Lemma respects_run_op (E : env) (o : op) : respects (run_op E o).
Proof.
  destruct o as [page req|page id|page|pid p]; simpl.
  - apply respects_bind; [|intros; apply respects_ret].
    apply respects_add_product. apply respects_scrape_with.
  - apply respects_bind; [|intros; apply respects_ret].
    apply respects_check_product. apply respects_scrape_with.
  - apply respects_price_check. apply respects_scrape_with.
  - apply respects_checkAlerts.
Qed.

Lemma respects_run_ops (E : env) (os : list op) : respects (run_ops E os).
Proof.
  induction os as [|o rest IH]; simpl; [apply respects_ret|].
  apply respects_bind; [apply respects_run_op | intros _; exact IH].
Qed.

(* ================================================================== *)
(** * The manual refresh *)
(* ================================================================== *)

Section Refresh.

Variable E : env.

Lemma select_product_found (id : nat) (d : db) (L : product) :
  find_product id d = Some L -> exists tl, Sql.select_product id d = L :: tl.
Proof.
  unfold find_product, Sql.select_product.
  induction (products d) as [|q l IH]; simpl; [discriminate|].
  destruct (Nat.eqb (p_id q) id).
  - intros [= ->]. eauto.
  - exact IH.
Qed.

Lemma find_product_update (price : Z) (id : nat) (t : time) (d : db) (L : product) :
  find_product id d = Some L ->
  find_product id (Sql.update_product_price price id t d)
  = Some (Sql.set_price price t L).
Proof.
  intros Hfind. unfold find_product, Sql.update_product_price. simpl.
  rewrite (find_map_same_key p_id).
  - unfold find_product in Hfind. rewrite Hfind. simpl.
    apply find_key_Some in Hfind. destruct Hfind as [_ Hid].
    apply Nat.eqb_eq in Hid. now rewrite Hid.
  - intros q. now destruct (Nat.eqb (p_id q) id).
Qed.

Lemma scrape_with_valid (page : string -> Z) (url lid : string) (w : world) :
  match_item url = Some lid ->
  scrape_with page url w
  = mkOutcome (Ok (mkListing "Product from Marketplace" "Tracked item" (page url)
                             "" "Location TBD" "Seller TBD" lid url)) w [].
Proof. intros H. unfold scrape_with, try_catch. rewrite H. reflexivity. Qed.

(** The scraper of the source is the one whose page always shows 0. *)
Lemma scrapeFacebookListing_observes_0 : scrapeFacebookListing = observing 0.
Proof. reflexivity. Qed.

Lemma scrape_with_invalid (page : string -> Z) (url : string) (w : world) :
  match_item url = None ->
  scrape_with page url w
  = mkOutcome (Throw InvalidUrl) w [ConsoleError "Scraping error:" InvalidUrl].
Proof. intros H. unfold scrape_with, try_catch. rewrite H. reflexivity. Qed.

(** An evaluation touches only the [alerts] table. *)
Lemma checkAlerts_frame (pid : nat) (p : Z) (w : world) :
  products (store (final (checkAlerts E pid p w))) = products (store w) /\
  price_history (store (final (checkAlerts E pid p w))) = price_history (store w).
Proof.
  destruct (checkAlerts_prefix E pid p w) as (_ & done & rest & _ & Hst & _).
  rewrite Hst.
  destruct (fired_store_frame done p (S (clock w)) (store w)) as (H1 & H2 & _).
  auto.
Qed.

(** [ingest] at an unchanged price is the UPDATE of the product alone. *)
Lemma ingest_unchanged (id : nat) (c p : Z) (w : world) :
  price_changed p c = false ->
  ingest E id c p w
  = if db_down E (clock w)
    then mkOutcome (Throw StoreFailure) (tick w)
                   [Query (UpdateProductPrice p id) false]
    else mkOutcome (Ok tt)
                   (mkWorld (Sql.update_product_price p id (clock w) (store w))
                            (S (clock w)))
                   [Query (UpdateProductPrice p id) true].
Proof.
  intros Hsame. unfold ingest, bind, pool_query. rewrite Hsame.
  destruct (db_down E (clock w)); reflexivity.
Qed.

(** [ingest] at a changed price, the UPDATE and the INSERT succeeding: the
    rest is the evaluation of the alerts, which cannot make it fail. *)
Lemma ingest_changed (id : nat) (c p : Z) (w : world) :
  price_changed p c = true ->
  db_down E (clock w) = false ->
  db_down E (S (clock w)) = false ->
  let w2 := mkWorld (Sql.insert_price_history id p (S (clock w))
                       (Sql.update_product_price p id (clock w) (store w)))
                    (S (S (clock w))) in
  res (ingest E id c p w) = Ok tt /\
  final (ingest E id c p w) = final (checkAlerts E id p w2) /\
  emitted (ingest E id c p w)
  = Query (UpdateProductPrice p id) true :: Query (InsertHistory id p) true
    :: emitted (checkAlerts E id p w2).
Proof.
  intros Hchg Hup1 Hup2 w2. unfold ingest, bind. rewrite Hchg.
  rewrite !pool_query_up by exact Hup1. cbn [res final emitted snd fst store clock].
  rewrite !pool_query_up by exact Hup2. cbn [res final emitted snd fst store clock].
  fold w2. rewrite (checkAlerts_res E id p w2). auto.
Qed.

(** The handler once the product is found and its URL matches: what is left
    is [ingest]. *)
Lemma check_product_run (p : Z) (id : nat) (w : world) (L : product) (lid : string) :
  db_down E (clock w) = false ->
  find_product id (store w) = Some L ->
  match_item (p_marketplace_url L) = Some lid ->
  let oi := ingest E id (p_current_price L) p (mkWorld (store w) (S (clock w))) in
  let o := check_product E (observing p) id w in
  final o = final oi /\
  res o = Ok (match res oi with
              | Ok _ => mkResponse 200 (BUpdated p)
              | Throw _ => mkResponse 500 (BError "Failed to check product")
              end) /\
  emitted o = Query (SelectProduct id) true :: emitted oi ++
              match res oi with
              | Ok _ => []
              | Throw e => [ConsoleError "Error checking product:" e]
              end.
Proof.
  intros Hup Hfind Hurl oi o.
  destruct (select_product_found id (store w) L Hfind) as (tl & Hsel).
  subst o. unfold check_product, try_catch, bind.
  rewrite !pool_query_up by exact Hup. cbn [res final emitted snd fst].
  rewrite !Hsel. unfold observing.
  rewrite !(scrape_with_valid _ _ lid) by exact Hurl.
  cbn [res final emitted ld_price]. fold oi.
  destruct (res oi) as [[]|e]; cbn; auto.
Qed.

(** The manual refresh with the store reachable. *)
Lemma check_product_up (p : Z) (id : nat) (w : world) (L : product) (lid : string) :
  (forall t, db_down E t = false) ->
  find_product id (store w) = Some L ->
  match_item (p_marketplace_url L) = Some lid ->
  let o := check_product E (observing p) id w in
  res o = Ok (mkResponse 200 (BUpdated p)) /\
  find_product id (store (final o)) = Some (Sql.set_price p (S (clock w)) L) /\
  (price_changed p (p_current_price L) = false ->
   price_history (store (final o)) = price_history (store w) /\
   alerts (store (final o)) = alerts (store w) /\
   evaluated_ids (emitted o) = [] /\
   notified_ids (emitted o) = []) /\
  (price_changed p (p_current_price L) = true ->
   price_history (store (final o))
   = price_history (store w)
     ++ [mkHistory (next_history_id (store w)) id p (S (S (clock w)))] /\
   evaluated_ids (emitted o) = [id]).
Proof.
  intros Hup Hfind Hurl o.
  destruct (check_product_run p id w L lid (Hup _) Hfind Hurl) as (Hf & Hr & He).
  fold o in Hf, Hr, He.
  set (w1 := mkWorld (store w) (S (clock w))) in *.
  destruct (price_changed p (p_current_price L)) eqn:Hchg.
  - destruct (ingest_changed id (p_current_price L) p w1 Hchg (Hup _) (Hup _))
      as (Ir & If & Ie).
    cbn [store clock w1] in If, Ie.
    set (w2 := mkWorld (Sql.insert_price_history id p (S (S (clock w)))
                         (Sql.update_product_price p id (S (clock w)) (store w)))
                       (S (S (S (clock w))))) in *.
    destruct (checkAlerts_frame id p w2) as (Fp & Fh).
    destruct (checkAlerts_prefix E id p w2) as (Hev & _).
    rewrite Ir in Hr, He. rewrite Hr, Hf, He, If, Ie.
    split; [reflexivity|]. split.
    + unfold find_product. rewrite Fp.
      exact (find_product_update p id (S (clock w)) (store w) L Hfind).
    + split; [discriminate|]. intros _. rewrite Fh. split; [reflexivity|].
      rewrite app_nil_r. cbn [evaluated_ids flat_map app]. exact Hev.
  - rewrite (ingest_unchanged id (p_current_price L) p w1 Hchg) in Hf, Hr, He.
    rewrite (Hup (clock w1)) in Hf, Hr, He. cbn in Hf, Hr, He.
    rewrite Hr, Hf, He. cbn [store].
    split; [reflexivity|]. split.
    + exact (find_product_update p id (S (clock w)) (store w) L Hfind).
    + split; [|discriminate]. intros _. repeat split; reflexivity.
Qed.

(** [ingest] with the store reachable. *)
Lemma ingest_up (id : nat) (c p : Z) (w : world) :
  (forall t, db_down E t = false) ->
  let o := ingest E id c p w in
  res o = Ok tt /\
  products (store (final o))
  = products (Sql.update_product_price p id (clock w) (store w)) /\
  (price_changed p c = false ->
   price_history (store (final o)) = price_history (store w) /\
   evaluated_ids (emitted o) = []) /\
  (price_changed p c = true ->
   price_history (store (final o))
   = price_history (store w)
     ++ [mkHistory (next_history_id (store w)) id p (S (clock w))] /\
   evaluated_ids (emitted o) = [id]).
Proof.
  intros Hup o. subst o.
  destruct (price_changed p c) eqn:Hchg.
  - destruct (ingest_changed id c p w Hchg (Hup _) (Hup _)) as (Ir & If & Ie).
    set (w2 := mkWorld (Sql.insert_price_history id p (S (clock w))
                         (Sql.update_product_price p id (clock w) (store w)))
                       (S (S (clock w)))) in *.
    destruct (checkAlerts_frame id p w2) as (Fp & Fh).
    destruct (checkAlerts_prefix E id p w2) as (Hev & _).
    rewrite Ir, If, Ie, Fp, Fh.
    split; [reflexivity|]. split; [reflexivity|].
    split; [discriminate|]. intros _. split; [reflexivity|].
    cbn [evaluated_ids flat_map app]. exact Hev.
  - rewrite (ingest_unchanged id c p w Hchg), (Hup (clock w)). cbn.
    repeat split; try reflexivity; discriminate.
Qed.

(** One iteration of the hourly job on a row whose URL matches, when
    [ingest] returns: the iteration is [ingest], then the two-second
    delay. *)
Lemma for_products_single (p : Z) (L : product) (lid : string) (w : world) :
  match_item (p_marketplace_url L) = Some lid ->
  res (ingest E (p_id L) (p_current_price L) p w) = Ok tt ->
  let o := for_products E (observing p) [L] w in
  res o = Ok tt /\
  store (final o) = store (final (ingest E (p_id L) (p_current_price L) p w)) /\
  emitted o = emitted (ingest E (p_id L) (p_current_price L) p w).
Proof.
  intros Hurl Hing o. subst o.
  set (oi := ingest E (p_id L) (p_current_price L) p w) in *.
  assert (Hbody :
    try_catch
      (bind (observing p (p_marketplace_url L))
         (fun listingData =>
            bind (ingest E (p_id L) (p_current_price L) (ld_price listingData))
                 (fun _ => delay 2000)))
      (fun error =>
         console_error
           ("Error checking product " ++ string_of_nat (p_id L) ++ ":")%string
           error) w
    = mkOutcome (Ok tt) (mkWorld (store (final oi)) (clock (final oi) + 2000)%nat)
                (emitted oi)).
  { apply try_catch_run.
    replace (emitted oi) with ([] ++ emitted oi ++ []) by now rewrite app_nil_r.
    eapply bind_run.
    - unfold observing. apply (scrape_with_valid _ _ lid). exact Hurl.
    - cbn [ld_price]. eapply bind_run.
      + fold oi. rewrite (outcome_eta oi), Hing. reflexivity.
      + reflexivity. }
  assert (Hall : for_products E (observing p) [L] w
                 = mkOutcome (Ok tt)
                     (mkWorld (store (final oi)) (clock (final oi) + 2000)%nat)
                     (emitted oi ++ [])).
  { cbn [for_products]. eapply bind_run; [exact Hbody | reflexivity]. }
  rewrite Hall. cbn. rewrite app_nil_r. auto.
Qed.

End Refresh.

(** C1. A manual refresh of an existing listing L observing the price p,
    with the store reachable, answers 'Product updated' and always stores p
    and the time of the check in the listing.  When p equals the stored
    current price, the test [!==] that decides "changed" is false, no
    price-history row is appended and the alerts are not evaluated; when p
    differs, the test is true, exactly one row, of price p, is appended to
    the history, and the alerts of the listing are evaluated.  An iteration
    of the hourly job on the row L does the same. *)
Theorem ingest_records_change (E : env) (w : world) (id : nat) (p : Z)
    (L : product) (lid : string) :
  (forall t, db_down E t = false) ->
  find_product id (store w) = Some L ->
  match_item (p_marketplace_url L) = Some lid ->
  let o := check_product E (observing p) id w in
  let o' := for_products E (observing p) [L] w in
  res o = Ok (mkResponse 200 (BUpdated p)) /\
  find_product id (store (final o)) = Some (Sql.set_price p (S (clock w)) L) /\
  (p = p_current_price L ->
   price_changed p (p_current_price L) = false /\
   price_history (store (final o)) = price_history (store w) /\
   evaluated_ids (emitted o) = [] /\
   price_history (store (final o')) = price_history (store w) /\
   evaluated_ids (emitted o') = []) /\
  (p <> p_current_price L ->
   price_changed p (p_current_price L) = true /\
   price_history (store (final o))
   = price_history (store w)
     ++ [mkHistory (next_history_id (store w)) id p (S (S (clock w)))] /\
   evaluated_ids (emitted o) = [id] /\
   price_history (store (final o'))
   = price_history (store w)
     ++ [mkHistory (next_history_id (store w)) id p (S (clock w))] /\
   evaluated_ids (emitted o') = [id]).
Proof.
  intros Hup Hfind Hurl o o'.
  destruct (check_product_up E p id w L lid Hup Hfind Hurl)
    as (Hr & Hf & Hsame & Hchg).
  fold o in Hr, Hf, Hsame, Hchg.
  assert (Hid : p_id L = id).
  { now apply find_key_Some in Hfind. }
  destruct (ingest_up E (p_id L) (p_current_price L) p w Hup)
    as (Ir & _ & Isame & Ichg).
  destruct (for_products_single E p L lid w Hurl Ir) as (_ & Hs' & He').
  fold o' in Hs', He'. rewrite <- Hs', <- He' in Isame, Ichg.
  rewrite Hid in Ichg.
  split; [exact Hr|]. split; [exact Hf|]. split.
  - intros Heq.
    assert (Hpc : price_changed p (p_current_price L) = false).
    { unfold price_changed. rewrite (proj2 (Z.eqb_eq _ _) Heq). reflexivity. }
    destruct (Hsame Hpc) as (Hh & _ & Hev & _).
    destruct (Isame Hpc) as (Hh' & Hev'). auto 10.
  - intros Hneq.
    assert (Hpc : price_changed p (p_current_price L) = true).
    { unfold price_changed. rewrite (proj2 (Z.eqb_neq _ _) Hneq). reflexivity. }
    destruct (Hchg Hpc) as (Hh & Hev).
    destruct (Ichg Hpc) as (Hh' & Hev'). auto 10.
Qed.

(** The listing of the scenario, whose stored price is 100, observed at 90. *)
Lemma ingest_records_change_witness :
  price_history (store (final (check_product healthy (observing 90) 1 scenario)))
  = price_history (store scenario) ++ [mkHistory 1 1 90 2%nat].
Proof.
  refine (proj1 (proj2 (proj2 (proj2 (proj2
    (ingest_records_change healthy scenario 1 90 (listing1 100) "1234567"
       (fun _ => eq_refl) eq_refl eq_refl))) _))).
  simpl. lia.
Defined.

(** C7, as the code has it. No check is made on the observed price: with
    the store reachable, a negative price observed for an existing listing
    is answered with 'Product updated', is stored as the current price of
    the listing, and, when it differs from the stored price, is appended to
    the history and handed to the evaluation of the alerts. *)
Theorem negative_price_is_ingested (E : env) (w : world) (id : nat) (p : Z)
    (L : product) (lid : string) :
  (forall t, db_down E t = false) ->
  find_product id (store w) = Some L ->
  match_item (p_marketplace_url L) = Some lid ->
  p < 0 ->
  let o := check_product E (observing p) id w in
  res o = Ok (mkResponse 200 (BUpdated p)) /\
  stored_price id (store (final o)) = Some p /\
  (p <> p_current_price L ->
   price_history (store (final o))
   = price_history (store w)
     ++ [mkHistory (next_history_id (store w)) id p (S (S (clock w)))] /\
   evaluated_ids (emitted o) = [id]).
Proof.
  intros Hup Hfind Hurl Hneg o.
  destruct (check_product_up E p id w L lid Hup Hfind Hurl)
    as (Hr & Hf & _ & Hchg).
  fold o in Hr, Hf, Hchg.
  split; [exact Hr|]. split.
  - unfold stored_price. rewrite Hf. reflexivity.
  - intros Hneq. apply Hchg.
    unfold price_changed. rewrite (proj2 (Z.eqb_neq _ _) Hneq). reflexivity.
Qed.

(** The listing of the scenario observed at the price -5. *)
Lemma negative_price_is_ingested_witness :
  res (check_product healthy (observing (-5)) 1 scenario)
  = Ok (mkResponse 200 (BUpdated (-5))) /\
  stored_price 1 (store (final (check_product healthy (observing (-5)) 1 scenario)))
  = Some (-5).
Proof.
  assert (Hneg : -5 < 0) by lia.
  destruct (negative_price_is_ingested healthy scenario 1 (-5) (listing1 100)
              "1234567" (fun _ => eq_refl) eq_refl eq_refl Hneg) as (Hr & Hs & _).
  split; [exact Hr | exact Hs].
Defined.

(** C7, counterexample. The listing of the scenario observed at the price
    -5: [ingest] returns normally and stores -5; the request is not
    rejected, the handler answers 200, the listing now has the current price
    -5, and -5 is in its history. *)
Lemma negative_price_not_rejected :
  res (ingest healthy 1 100 (-5) scenario) = Ok tt /\
  stored_price 1 (store (final (ingest healthy 1 100 (-5) scenario))) = Some (-5) /\
  res (check_product healthy (observing (-5)) 1 scenario)
  = Ok (mkResponse 200 (BUpdated (-5))) /\
  stored_price 1 (store (final (check_product healthy (observing (-5)) 1 scenario)))
  = Some (-5) /\
  price_history (store (final (check_product healthy (observing (-5)) 1 scenario)))
  = [mkHistory 1 1 (-5) 2%nat] /\
  evaluated_ids (emitted (check_product healthy (observing (-5)) 1 scenario))
  = [1%nat].
Proof. repeat split; reflexivity. Qed.

(** C4, as the code has it. From the listing at 100 with one active alert
    of target 90: the refresh observing 95 appends the history row 95 (the
    price changed) and fires nothing; the refresh observing 90 appends the
    row 90, the alert fires and becomes inactive; the refresh observing 85
    appends the row 85, loads no alert, fires nothing and leaves the alert
    as it was. *)
Theorem scenario_100_95_90_85 :
  let o1 := check_product healthy (observing 95) 1 scenario in
  let o2 := check_product healthy (observing 90) 1 (final o1) in
  let o3 := check_product healthy (observing 85) 1 (final o2) in
  (map ph_price (price_history (store (final o1))) = [95] /\
   notified_ids (emitted o1) = [] /\
   find_alert 1 (store (final o1)) = Some alert1) /\
  (map ph_price (price_history (store (final o2))) = [95; 90] /\
   notified_ids (emitted o2) = [1%nat] /\
   find_alert 1 (store (final o2)) = Some (Sql.deactivate 9%nat alert1)) /\
  (map ph_price (price_history (store (final o3))) = [95; 90; 85] /\
   Sql.select_active_alerts 1 (store (final o2)) = [] /\
   evaluated_ids (emitted o3) = [1%nat] /\
   notified_ids (emitted o3) = [] /\
   find_alert 1 (store (final o3)) = Some (Sql.deactivate 9%nat alert1)).
Proof. vm_compute. repeat split; reflexivity. Qed.

(** C4, counterexample. The first step of the scenario: the history of the
    listing is empty before the refresh observing 95 and holds the row 95
    after it. *)
Lemma scenario_95_appends_history :
  price_history (store scenario) = [] /\
  price_history (store (final (check_product healthy (observing 95) 1 scenario)))
  = [mkHistory 1 1 95 2%nat].
Proof. split; reflexivity. Qed.

(* ================================================================== *)
(** * Refreshing at an unchanged price *)
(* ================================================================== *)

Section Unchanged.

Variable E : env.

(** The handler always answers: its [catch] returns a response. *)
Lemma check_product_answers (scrape : string -> M listingData) (id : nat) (w : world) :
  exists r, res (check_product E scrape id w) = Ok r.
Proof.
  unfold check_product, try_catch. cbv zeta.
  match goal with |- context [match res ?x with _ => _ end] =>
    destruct (res x) as [r|e] eqn:Hres end.
  - exists r. exact Hres.
  - eexists. reflexivity.
Qed.

Lemma stored_price_update (p : Z) (id : nat) (t : time) (d : db) (L : product) :
  find_product id d = Some L ->
  stored_price id (Sql.update_product_price p id t d) = Some p.
Proof.
  intros Hfind. unfold stored_price.
  now rewrite (find_product_update p id t d L Hfind).
Qed.

(** One refresh observing the stored price, whatever fails. *)
Lemma check_product_same_price (p : Z) (id : nat) (w : world) :
  stored_price id (store w) = Some p ->
  let o := check_product E (observing p) id w in
  price_history (store (final o)) = price_history (store w) /\
  alerts (store (final o)) = alerts (store w) /\
  evaluated_ids (emitted o) = [] /\
  notified_ids (emitted o) = [] /\
  stored_price id (store (final o)) = Some p.
Proof.
  intros Hstored o.
  unfold stored_price in Hstored.
  destruct (find_product id (store w)) as [L|] eqn:Hfind; [|discriminate].
  injection Hstored as Hprice.
  destruct (db_down E (clock w)) eqn:Hdown.
  - subst o. unfold check_product, try_catch, bind.
    rewrite !pool_query_down by exact Hdown. cbn.
    unfold stored_price. rewrite Hfind. simpl. rewrite Hprice. auto.
  - destruct (match_item (p_marketplace_url L)) as [lid|] eqn:Hurl.
    + destruct (check_product_run E p id w L lid Hdown Hfind Hurl) as (Hf & _ & He).
      fold o in Hf, He. rewrite Hprice in Hf, He.
      assert (Hsame : price_changed p p = false).
      { unfold price_changed. now rewrite Z.eqb_refl. }
      rewrite (ingest_unchanged E id p p _ Hsame) in Hf, He.
      cbn [clock] in Hf, He.
      destruct (db_down E (S (clock w))); cbn in Hf, He; rewrite Hf, He; cbn.
      * unfold stored_price. rewrite Hfind. simpl. rewrite Hprice. auto.
      * rewrite (stored_price_update p id (S (clock w)) (store w) L Hfind). auto.
    + destruct (select_product_found id (store w) L Hfind) as (tl & Hsel).
      subst o. unfold check_product, try_catch, bind.
      rewrite !pool_query_up by exact Hdown. cbn [res final emitted snd fst].
      rewrite !Hsel. unfold observing.
      rewrite !scrape_with_invalid by exact Hurl. cbn.
      unfold stored_price. rewrite Hfind. simpl. rewrite Hprice. auto.
Qed.

End Unchanged.

(** C8. Refreshing a listing any number of times in succession, each time
    observing the price the listing has stored, never appends a history row,
    never evaluates the alerts and notifies no one: the history and every
    alert row are as before, and the stored price is still that price. This
    holds whatever the store and the transport do. *)
Theorem refresh_unchanged_idempotent (E : env) (id : nat) (p : Z) (n : nat) (w : world) :
  stored_price id (store w) = Some p ->
  let o := refresh_times E (observing p) n id w in
  price_history (store (final o)) = price_history (store w) /\
  List.length (price_history (store (final o)))
  = List.length (price_history (store w)) /\
  alerts (store (final o)) = alerts (store w) /\
  evaluated_ids (emitted o) = [] /\
  notified_ids (emitted o) = [] /\
  stored_price id (store (final o)) = Some p.
Proof.
  revert w. induction n as [|k IH]; intros w Hstored o.
  - subst o. simpl. auto 10.
  - subst o. cbn [refresh_times].
    destruct (check_product_answers E (observing p) id w) as (r & Hres).
    destruct (bind_Ok _ (fun _ => refresh_times E (observing p) k id) w r Hres)
      as (_ & Bf & Be).
    destruct (check_product_same_price E p id w Hstored)
      as (Hh & Ha & Hev & Hn & Hs).
    destruct (IH _ Hs) as (Ih & Il & Ia & Iev & In_ & Is).
    rewrite Bf, Be, evaluated_ids_app, notified_ids_app, Hev, Hn, Iev, In_.
    rewrite Ih, Ia, Hh, Ha. auto 10.
Qed.

(** Three refreshes of the scenario observing its stored price 100. *)
Lemma refresh_unchanged_idempotent_witness :
  price_history (store (final (refresh_times healthy (observing 100) 3 1 scenario)))
  = price_history (store scenario) /\
  alerts (store (final (refresh_times healthy (observing 100) 3 1 scenario)))
  = alerts (store scenario).
Proof.
  destruct (refresh_unchanged_idempotent healthy 1 100 3 scenario eq_refl)
    as (Hh & _ & Ha & _).
  split; [exact Hh | exact Ha].
Defined.

(* ================================================================== *)
(** * Errors during the evaluation of alerts *)
(* ================================================================== *)

Section Swallowed.

Variable E : env.



End Swallowed.


Lemma wf_scenario : wf_db (store scenario).
Proof.
  unfold wf_db. simpl. repeat split; repeat constructor; simpl; try tauto; lia.
Qed.


(* ================================================================== *)
(** * The life of an alert *)
(* ================================================================== *)

Section Creation.

Variable E : env.

(** Tracking a product with an e-mail address and a target price, the store
    reachable: one alert row is added, active and never triggered. *)
(** One statement that succeeds, then the rest. *)
Ltac query_then Hup :=
  eapply bind_run;
  [ apply pool_query_up; apply Hup
  | cbn [store clock fst snd Sql.insert_product p_id Sql.new_product] ].

Lemma add_product_creates_alert (page : string -> Z) (w : world)
    (url lid email : string) (target : Z) :
  (forall t, db_down E t = false) ->
  match_item url = Some lid ->
  email <> EmptyString ->
  target <> 0 ->
  let o := add_product E (scrape_with page)
             (mkAddRequest (Some url) (Some email) (Some target)) w in
  exists pid,
    alerts (store (final o))
    = alerts (store w)
      ++ [mkAlert (next_alert_id (store w)) pid email target "price_drop" true None].
Proof.
  intros Hup Hurl Hemail Htarget o. subst o.
  assert (Hu : truthy_string (Some url) = true).
  { destruct url; [discriminate Hurl | reflexivity]. }
  assert (He : truthy_string (Some email) = true).
  { destruct email; [congruence | reflexivity]. }
  assert (Ht : truthy_number (Some target) = true).
  { simpl. now rewrite (proj2 (Z.eqb_neq _ _) Htarget). }
  assert (Hrun : exists pid r wf evs,
            add_product E (scrape_with page)
              (mkAddRequest (Some url) (Some email) (Some target)) w
            = mkOutcome (Ok r) wf evs /\
            alerts (store wf)
            = alerts (store w)
              ++ [mkAlert (next_alert_id (store w)) pid email target
                          "price_drop" true None]).
  { unfold add_product.
    cbn [marketplace_url user_email target_price string_or_empty number_or_zero].
    rewrite Hu, He, Ht. cbn [negb andb].
    destruct (Sql.select_by_listing lid (store w)) as [|id0 ids] eqn:Hsel.
    - eexists _, _, _, _. split.
      + apply try_catch_run.
        eapply bind_run; [apply (scrape_with_valid _ _ lid); exact Hurl|].
        cbn [ld_price ld_listing_id].
        query_then Hup. rewrite Hsel.
        eapply bind_run.
        { query_then Hup. reflexivity. }
        query_then Hup. query_then Hup. query_then Hup.
        reflexivity.
      + reflexivity.
    - eexists _, _, _, _. split.
      + apply try_catch_run.
        eapply bind_run; [apply (scrape_with_valid _ _ lid); exact Hurl|].
        cbn [ld_price ld_listing_id].
        query_then Hup. rewrite Hsel.
        eapply bind_run.
        { query_then Hup. reflexivity. }
        query_then Hup. query_then Hup. query_then Hup.
        reflexivity.
      + reflexivity. }
  destruct Hrun as (pid & r & wf & evs & Hrun & Halerts).
  exists pid. now rewrite Hrun.
Qed.

End Creation.

Lemma wf_empty_db : wf_db empty_db.
Proof. unfold wf_db. simpl. repeat split; constructor. Qed.



(* ================================================================== *)
(** * The URL pattern *)
(* ================================================================== *)

Section Pattern.

Local Open Scope string_scope.

Lemma append_assoc_string (a b c : string) : (a ++ b) ++ c = a ++ (b ++ c).
Proof. induction a as [|x a IH]; simpl; [reflexivity | now rewrite IH]. Qed.

Lemma strip_prefix_Some (pre s r : string) :
  strip_prefix pre s = Some r -> s = pre ++ r.
Proof.
  revert s. induction pre as [|a pre IH]; intros s H; simpl in *.
  - now injection H as ->.
  - destruct s as [|b s]; [discriminate|].
    destruct (Ascii.eqb a b) eqn:Hab; [|discriminate].
    apply Ascii.eqb_eq in Hab. subst b. f_equal. now apply IH.
Qed.

Lemma strip_prefix_append (pre r : string) : strip_prefix pre (pre ++ r) = Some r.
Proof.
  induction pre as [|a pre IH]; simpl; [reflexivity|].
  now rewrite Ascii.eqb_refl.
Qed.

Lemma take_drop_digits (s : string) : take_digits s ++ drop_digits s = s.
Proof.
  induction s as [|c s IH]; simpl; [reflexivity|].
  destruct (is_digit c); simpl; [now rewrite IH | reflexivity].
Qed.

Lemma take_digits_all_digits (s : string) : all_digits (take_digits s) = true.
Proof.
  induction s as [|c s IH]; simpl; [reflexivity|].
  destruct (is_digit c) eqn:Hc; simpl; [now rewrite Hc | reflexivity].
Qed.

Lemma drop_digits_no_digit (s : string) : starts_with_digit (drop_digits s) = false.
Proof.
  induction s as [|c s IH]; simpl; [reflexivity|].
  destruct (is_digit c) eqn:Hc; simpl; [exact IH | exact Hc].
Qed.

Lemma match_here_Some (s d : string) :
  match_here s = Some d ->
  exists rest,
    s = item_marker ++ d ++ rest /\
    d <> EmptyString /\
    all_digits d = true /\
    starts_with_digit rest = false.
Proof.
  unfold match_here. intros H.
  destruct (strip_prefix "/marketplace/item/" s) as [r|] eqn:Hs; [|discriminate].
  apply strip_prefix_Some in Hs.
  assert (Hd : take_digits r = d /\ d <> EmptyString).
  { destruct (take_digits r); [discriminate|]. injection H as <-.
    split; [reflexivity | discriminate]. }
  destruct Hd as [Hd Hne]. exists (drop_digits r).
  split; [|split; [exact Hne|split]].
  - rewrite <- Hd, take_drop_digits. exact Hs.
  - rewrite <- Hd. apply take_digits_all_digits.
  - apply drop_digits_no_digit.
Qed.

Lemma match_here_digit (c : ascii) (rest : string) :
  is_digit c = true ->
  match_here (item_marker ++ String c rest) <> None.
Proof.
  intros Hc. unfold match_here.
  change "/marketplace/item/" with item_marker.
  rewrite strip_prefix_append. cbn [take_digits]. rewrite Hc. discriminate.
Qed.

End Pattern.

(** X1. When the pattern of the scraper matches a URL, the URL reads
    [pre ++ "/marketplace/item/" ++ d ++ rest] where the captured listing id
    [d] is a non-empty string of decimal digits and is the whole run of
    digits (what follows does not start with a digit). *)
Theorem match_item_captures_digits (url d : string) :
  match_item url = Some d ->
  exists pre rest,
    url = (pre ++ item_marker ++ d ++ rest)%string /\
    d <> EmptyString /\
    all_digits d = true /\
    starts_with_digit rest = false.
Proof.
  induction url as [|c url IH]; intros H.
  - discriminate H.
  - cbn [match_item] in H.
    destruct (match_here (String c url)) as [d'|] eqn:Hhere.
    + injection H as ->.
      destruct (match_here_Some _ _ Hhere) as (rest & Hs & Hne & Hd & Hr).
      exists EmptyString, rest. auto.
    + destruct (IH H) as (pre & rest & Hs & Hne & Hd & Hr).
      exists (String c pre), rest. simpl. rewrite Hs. auto.
Qed.

Lemma match_item_captures_digits_witness :
  exists pre rest,
    url1 = (pre ++ item_marker ++ "1234567" ++ rest)%string /\
    "1234567"%string <> EmptyString /\
    all_digits "1234567" = true /\
    starts_with_digit rest = false.
Proof. exact (match_item_captures_digits url1 "1234567" eq_refl). Defined.

(** X2. The scraper accepts a URL exactly when it contains
    [/marketplace/item/] followed by at least one decimal digit: it then
    returns the mock listing, of price 0, with the URL it was given; on
    every other URL [scrapeFacebookListing] logs and rethrows 'Invalid
    Facebook Marketplace URL'.  It never touches the store or the clock. *)
Theorem scrape_accepts_iff (url : string) (w : world) :
  ((exists ld, res (scrapeFacebookListing url w) = Ok ld /\
               ld_price ld = 0 /\
               ld_marketplace_url ld = url /\
               emitted (scrapeFacebookListing url w) = [])
   <-> has_item_id url) /\
  (~ has_item_id url ->
   res (scrapeFacebookListing url w) = Throw InvalidUrl /\
   emitted (scrapeFacebookListing url w)
   = [ConsoleError "Scraping error:" InvalidUrl]) /\
  final (scrapeFacebookListing url w) = w.
Proof.
  assert (Hcomplete : forall pre c rest,
             is_digit c = true ->
             match_item (pre ++ item_marker ++ String c rest)%string <> None).
  { induction pre as [|a pre IH]; intros c rest Hc.
    - cbn [append]. pose proof (match_here_digit c rest Hc) as Hh.
      destruct (item_marker ++ String c rest)%string eqn:Hs; [discriminate Hs|].
      cbn [match_item]. destruct (match_here (String a s)); [discriminate | congruence].
    - cbn [append match_item].
      destruct (match_here _); [discriminate | now apply IH]. }
  assert (Hsound : forall d, match_item url = Some d -> has_item_id url).
  { intros d Hm.
    destruct (match_item_captures_digits url d Hm) as (pre & rest & Hs & Hne & Hd & _).
    destruct d as [|c d']; [congruence|].
    exists pre, c, (d' ++ rest)%string. split.
    - simpl in Hd. now apply andb_true_iff in Hd.
    - exact Hs. }
  unfold scrapeFacebookListing, try_catch, bind, throw, ret, console_error.
  destruct (match_item url) as [d|] eqn:Hm;
    cbn [res final emitted app ld_listing_id ld_price ld_marketplace_url].
  - split; [|split; [|reflexivity]].
    + split; [intros _; now apply (Hsound d) | intros _; eauto 10].
    + intros Hno. exfalso. apply Hno. now apply (Hsound d).
  - split; [|split; [auto|reflexivity]].
    split.
    + intros (ld & Hr & _). discriminate Hr.
    + intros (pre & c & rest & Hc & Hs). exfalso.
      apply (Hcomplete pre c rest Hc). now rewrite <- Hs.
Qed.

(** The URL of the scenario is accepted. *)
Lemma scrape_accepts_iff_witness :
  exists ld, res (scrapeFacebookListing url1 scenario) = Ok ld /\
             ld_price ld = 0 /\
             ld_marketplace_url ld = url1 /\
             emitted (scrapeFacebookListing url1 scenario) = [].
Proof.
  apply (proj2 (proj1 (scrape_accepts_iff url1 scenario))).
  exists "https://www.facebook.com"%string, "1"%char, "234567/"%string.
  split; reflexivity.
Defined.


(* ================================================================== *)
(** * Composing relations along a computation *)
(* ================================================================== *)

Section Composition.

Variable R : step_rel.
Hypothesis HR : composes R.

Lemma composes_refl (w : world) : R w [] w.
Proof. rewrite (world_eta w) at 2. apply (composes_wait R HR). Qed.

Lemma obeys_ret {A} (a : A) : obeys R (ret a).
Proof. intros w. apply composes_refl. Qed.

Lemma obeys_throw {A} (e : error) : obeys R (@throw A e).
Proof. intros w. apply composes_refl. Qed.

Lemma obeys_console_log (msg : string) : obeys R (console_log msg).
Proof.
  intros w. cbn. rewrite (world_eta w) at 2.
  now apply (composes_idle R HR).
Qed.

Lemma obeys_console_error (msg : string) (e : error) : obeys R (console_error msg e).
Proof.
  intros w. cbn. rewrite (world_eta w) at 2.
  now apply (composes_idle R HR).
Qed.

Lemma obeys_delay (ms : nat) : obeys R (delay ms).
Proof. intros w. cbn. apply (composes_wait R HR). Qed.

(** Sequencing, the continuation being run only on the values the first
    computation can return. *)
Lemma obeys_bind_on {A B} (P : A -> Prop) (m : M A) (f : A -> M B) :
  obeys R m ->
  (forall w a, res (m w) = Ok a -> P a) ->
  (forall a, P a -> obeys R (f a)) ->
  obeys R (bind m f).
Proof.
  intros Hm HP Hf w. destruct (res (m w)) as [a|e] eqn:Hres.
  - destruct (bind_Ok m f w a Hres) as (_ & Bf & Be). rewrite Bf, Be.
    apply (composes_trans R HR) with (w2 := final (m w)); [apply Hm|].
    apply Hf. now apply (HP w).
  - destruct (bind_Throw m f w e Hres) as (_ & Bf & Be). rewrite Bf, Be.
    apply Hm.
Qed.

Lemma obeys_bind {A B} (m : M A) (f : A -> M B) :
  obeys R m -> (forall a, obeys R (f a)) -> obeys R (bind m f).
Proof.
  intros Hm Hf. apply (obeys_bind_on (fun _ => True)); auto.
Qed.

Lemma obeys_try_catch {A} (m : M A) (h : error -> M A) :
  obeys R m -> (forall e, obeys R (h e)) -> obeys R (try_catch m h).
Proof.
  intros Hm Hh w. destruct (res (m w)) as [a|e] eqn:Hres.
  - rewrite (try_catch_Ok m h w a Hres). apply Hm.
  - destruct (try_catch_Throw m h w e Hres) as (_ & Tf & Te). rewrite Tf, Te.
    apply (composes_trans R HR) with (w2 := final (m w)); [apply Hm | apply Hh].
Qed.

(** A statement with a quiet label: what has to be shown is the step of the
    statement when it runs. *)
Lemma obeys_pool_query {A} (E : env) (q : sql) (run : time -> db -> db * A) :
  quiet_sql q = true ->
  (forall w, R w [Query q true]
               (mkWorld (fst (run (clock w) (store w))) (S (clock w)))) ->
  obeys R (pool_query E q run).
Proof.
  intros Hq Hrun w. unfold pool_query.
  destruct (db_down E (clock w)); cbn; [|apply Hrun].
  now apply (composes_idle R HR).
Qed.

Lemma obeys_scrape_with (page : string -> Z) (url : string) :
  obeys R (scrape_with page url).
Proof.
  unfold scrape_with. apply obeys_try_catch.
  - destruct (match_item url); [apply obeys_ret | apply obeys_throw].
  - intros e. apply obeys_bind; [apply obeys_console_error|].
    intros _. apply obeys_throw.
Qed.

End Composition.

Lemma composes_same_alerts : composes same_alerts.
Proof.
  constructor; unfold same_alerts.
  - intros w1 e1 w2 e2 w3 H1 H2. congruence.
  - reflexivity.
  - reflexivity.
Qed.

Lemma composes_silent : composes silent.
Proof.
  constructor; unfold silent.
  - intros w1 e1 w2 e2 w3 (A1 & B1 & C1) (A2 & B2 & C2).
    rewrite evaluated_ids_app, notified_ids_app, deactivated_ids_app,
      A1, B1, C1, A2, B2, C2. auto.
  - auto.
  - intros w e c He. destruct e as [q ok| | |]; try discriminate He; cbn; auto.
    destruct q; try discriminate He; destruct ok; auto.
Qed.

(* ================================================================== *)
(** * Tracking a product *)
(* ================================================================== *)

Lemma bind_run_Throw {A B} (m : M A) (f : A -> M B) (w w1 : world) (e : error)
    (e1 : list event) :
  m w = mkOutcome (Throw e) w1 e1 ->
  bind m f w = mkOutcome (Throw e) w1 e1.
Proof. intros Hm. unfold bind. now rewrite Hm. Qed.

Lemma try_catch_run_Throw {A} (m : M A) (h : error -> M A) (w w1 w2 : world)
    (e : error) (r : result A) (e1 e2 : list event) :
  m w = mkOutcome (Throw e) w1 e1 ->
  h e w1 = mkOutcome r w2 e2 ->
  try_catch m h w = mkOutcome r w2 (e1 ++ e2).
Proof. intros Hm Hh. unfold try_catch. rewrite Hm. cbn. now rewrite Hh. Qed.

(** Every statement of the handler but the INSERT of the alert leaves the
    [alerts] table alone. *)
Lemma add_product_without_alert (E : env) (page : string -> Z) (req : add_request) :
  (truthy_string (user_email req) && truthy_number (target_price req))%bool = false ->
  obeys same_alerts (add_product E (scrape_with page) req).
Proof.
  intros Hno. pose proof composes_same_alerts as HR.
  unfold add_product. rewrite Hno.
  apply obeys_try_catch; [exact HR| |].
  - destruct (negb (truthy_string (marketplace_url req))); [now apply obeys_ret|].
    apply obeys_bind; [exact HR | now apply obeys_scrape_with |]. intros ld.
    apply obeys_bind; [exact HR | now apply obeys_pool_query |]. intros existing.
    apply obeys_bind; [exact HR | |].
    { destruct existing as [|id0 ids].
      - apply obeys_bind; [exact HR | now apply obeys_pool_query |].
        intros; now apply obeys_ret.
      - apply obeys_bind; [exact HR | now apply obeys_pool_query |].
        intros; now apply obeys_ret. }
    intros productId.
    apply obeys_bind; [exact HR | now apply obeys_pool_query |]. intros _.
    apply obeys_bind; [exact HR | now apply obeys_ret |]. intros _.
    apply obeys_bind; [exact HR | now apply obeys_pool_query |]. intros product.
    now apply obeys_ret.
  - intros e. apply obeys_bind; [exact HR | now apply obeys_console_error |].
    intros; now apply obeys_ret.
Qed.

Lemma add_product_silent (E : env) (page : string -> Z) (req : add_request) :
  obeys silent (add_product E (scrape_with page) req).
Proof.
  pose proof composes_silent as HR.
  assert (Hq : forall A q (run : time -> db -> db * A),
             quiet_sql q = true -> obeys silent (pool_query E q run)).
  { intros A q run Hq. apply obeys_pool_query; [exact HR | exact Hq |].
    intros w. unfold silent. destruct q; try discriminate Hq; cbn; auto. }
  unfold add_product.
  apply obeys_try_catch; [exact HR| |].
  - destruct (negb (truthy_string (marketplace_url req))); [now apply obeys_ret|].
    apply obeys_bind; [exact HR | now apply obeys_scrape_with |]. intros ld.
    apply obeys_bind; [exact HR | now apply Hq |]. intros existing.
    apply obeys_bind; [exact HR | |].
    { destruct existing as [|id0 ids].
      - apply obeys_bind; [exact HR | now apply Hq |].
        intros; now apply obeys_ret.
      - apply obeys_bind; [exact HR | now apply Hq |].
        intros; now apply obeys_ret. }
    intros productId.
    apply obeys_bind; [exact HR | now apply Hq |]. intros _.
    apply obeys_bind; [exact HR | |].
    { destruct (truthy_string (user_email req) && truthy_number (target_price req))%bool;
        [now apply Hq | now apply obeys_ret]. }
    intros _.
    apply obeys_bind; [exact HR | now apply Hq |]. intros product.
    now apply obeys_ret.
  - intros e. apply obeys_bind; [exact HR | now apply obeys_console_error |].
    intros; now apply obeys_ret.
Qed.

(** The handler always answers: its [catch] returns a response. *)
Lemma add_product_answers (E : env) (scrape : string -> M listingData)
    (req : add_request) (w : world) :
  exists r, res (add_product E scrape req w) = Ok r.
Proof.
  unfold add_product, try_catch. cbv zeta.
  match goal with |- context [match res ?x with _ => _ end] =>
    destruct (res x) as [r|e] eqn:Hres end.
  - exists r. exact Hres.
  - eexists. reflexivity.
Qed.

(** X3. A request to track a product whose [marketplace_url] is missing or
    empty is answered 400 'Marketplace URL is required' before anything
    else happens: no statement is sent, nothing is logged, and the world is
    as before, in every environment and with any scraper. *)
Theorem add_product_requires_url (E : env) (scrape : string -> M listingData)
    (req : add_request) (w : world) :
  marketplace_url req = None \/ marketplace_url req = Some EmptyString ->
  add_product E scrape req w
  = mkOutcome (Ok (mkResponse 400 (BError "Marketplace URL is required"))) w [].
Proof.
  intros Hurl.
  assert (Hfalsy : truthy_string (marketplace_url req) = false).
  { destruct Hurl as [-> | ->]; reflexivity. }
  unfold add_product, try_catch. rewrite Hfalsy. reflexivity.
Qed.

Lemma add_product_requires_url_witness :
  add_product healthy scrapeFacebookListing
    (mkAddRequest None (Some "ann@example.com"%string) (Some 90)) scenario
  = mkOutcome (Ok (mkResponse 400 (BError "Marketplace URL is required")))
              scenario [].
Proof.
  apply (add_product_requires_url healthy scrapeFacebookListing
           (mkAddRequest None (Some "ann@example.com"%string) (Some 90)) scenario).
  left. reflexivity.
Defined.

(** X4. A request whose URL the scraper rejects is answered 500 with the
    message of the error, 'Invalid Facebook Marketplace URL'; the error is
    logged twice (by the scraper and by the handler), no statement reaches
    the store and the world is as before, in every environment. *)
Theorem add_product_invalid_url (E : env) (page : string -> Z) (req : add_request)
    (url : string) (w : world) :
  marketplace_url req = Some url ->
  url <> EmptyString ->
  match_item url = None ->
  add_product E (scrape_with page) req w
  = mkOutcome (Ok (mkResponse 500 (BError "Invalid Facebook Marketplace URL"))) w
              [ConsoleError "Scraping error:" InvalidUrl;
               ConsoleError "Error adding product:" InvalidUrl].
Proof.
  intros Hreq Hne Hurl.
  assert (Htruthy : truthy_string (marketplace_url req) = true).
  { rewrite Hreq. destruct url; [congruence | reflexivity]. }
  unfold add_product. rewrite Htruthy, Hreq. cbn [negb string_or_empty].
  eapply (try_catch_run_Throw _ _ w w w InvalidUrl _
            [ConsoleError "Scraping error:" InvalidUrl]
            [ConsoleError "Error adding product:" InvalidUrl]).
  - apply bind_run_Throw. now apply scrape_with_invalid.
  - reflexivity.
Qed.

Lemma add_product_invalid_url_witness :
  add_product healthy scrapeFacebookListing
    (mkAddRequest (Some "https://example.com/item/12"%string) None None) scenario
  = mkOutcome (Ok (mkResponse 500 (BError "Invalid Facebook Marketplace URL")))
              scenario
              [ConsoleError "Scraping error:" InvalidUrl;
               ConsoleError "Error adding product:" InvalidUrl].
Proof.
  apply (add_product_invalid_url healthy (fun _ => 0)
           (mkAddRequest (Some "https://example.com/item/12"%string) None None)
           "https://example.com/item/12" scenario eq_refl).
  - discriminate.
  - reflexivity.
Defined.

(** X5. The alert of a tracking request is created only when both
    [user_email] and [target_price] are truthy: without an e-mail address,
    with an empty one, without a target price or with the target price 0,
    the [alerts] table is left as it was, in every environment. *)
Theorem add_product_no_alert (E : env) (page : string -> Z) (req : add_request)
    (w : world) :
  user_email req = None \/ user_email req = Some EmptyString \/
  target_price req = None \/ target_price req = Some 0 ->
  alerts (store (final (add_product E (scrape_with page) req w)))
  = alerts (store w).
Proof.
  intros Hfalsy. apply (add_product_without_alert E page req).
  destruct Hfalsy as [-> | [-> | [-> | ->]]]; cbn;
    try reflexivity; apply andb_false_r.
Qed.

Lemma add_product_no_alert_witness :
  alerts (store (final (add_product healthy scrapeFacebookListing
            (mkAddRequest (Some url1) (Some "ann@example.com"%string) (Some 0))
            scenario)))
  = alerts (store scenario).
Proof.
  apply (add_product_no_alert healthy (fun _ => 0)
           (mkAddRequest (Some url1) (Some "ann@example.com"%string) (Some 0))
           scenario).
  right. right. right. reflexivity.
Defined.

(** X6. Tracking a product never evaluates alerts: whatever the request,
    the page and the environment, the handler loads no alert, hands none to
    the notifier and deactivates none, so an alert whose target the price
    already meets when it is created is not fired by its creation. *)
Theorem add_product_fires_nothing (E : env) (page : string -> Z)
    (req : add_request) (w : world) :
  let o := add_product E (scrape_with page) req w in
  (exists r, res o = Ok r) /\
  evaluated_ids (emitted o) = [] /\
  notified_ids (emitted o) = [] /\
  deactivated_ids (emitted o) = [].
Proof.
  intros o. split; [apply add_product_answers|].
  exact (add_product_silent E page req w).
Qed.


(* ================================================================== *)
(** * Tracking a product, statement by statement *)
(* ================================================================== *)

(** One statement that runs, then the rest. *)
Ltac statement_runs Hup :=
  eapply bind_run;
  [ apply pool_query_up; apply Hup
  | cbn [store clock fst snd Sql.insert_product p_id Sql.new_product] ].

Lemma hd_error_filter {A} (f : A -> bool) (l : list A) :
  hd_error (filter f l) = find f l.
Proof.
  induction l as [|x l IH]; simpl; [reflexivity|].
  destruct (f x); [reflexivity | exact IH].
Qed.

Lemma find_product_fresh (d : db) (new : product) :
  wf_db d ->
  p_id new = next_product_id d ->
  find (fun p => Nat.eqb (p_id p) (next_product_id d)) (products d ++ [new])
  = Some new.
Proof.
  intros (_ & _ & Hlt & _) Hid.
  rewrite find_app_None.
  - simpl. now rewrite Hid, Nat.eqb_refl.
  - induction (products d) as [|q l IH]; simpl; [reflexivity|].
    inversion Hlt as [|? ? Hq Hl]; subst.
    destruct (Nat.eqb (p_id q) (next_product_id d)) eqn:Heq.
    + apply Nat.eqb_eq in Heq. lia.
    + now apply IH.
Qed.



(** X7. Tracking a listing that is not yet in the store, the store
    reachable: one product row is appended, with a fresh id, the status
    'active', the scraped price and the URL of the request; one history row
    of that price is appended for it; the answer is 200 with the new row.
    This holds with or without an alert in the request. *)
Theorem add_product_new_listing (E : env) (page : string -> Z) (w : world)
    (url lid : string) (email : option string) (target : option Z) :
  (forall t, db_down E t = false) ->
  wf_db (store w) ->
  match_item url = Some lid ->
  Sql.select_by_listing lid (store w) = [] ->
  let o := add_product E (scrape_with page) (mkAddRequest (Some url) email target) w in
  let new := mkProduct (next_product_id (store w)) "Product from Marketplace"
               "Tracked item" (page url) "" "Location TBD" "Seller TBD" lid url
               "active" None in
  res o = Ok (mkResponse 200 (BProduct (Some new))) /\
  products (store (final o)) = products (store w) ++ [new] /\
  price_history (store (final o))
  = price_history (store w)
    ++ [mkHistory (next_history_id (store w)) (next_product_id (store w))
                  (page url) (S (S (clock w)))].
Proof.
  intros Hup Hwf Hurl Hsel o new. subst o.
  assert (Hu : truthy_string (Some url) = true).
  { destruct url; [discriminate Hurl | reflexivity]. }
  assert (Hrun : exists r wf evs,
            add_product E (scrape_with page) (mkAddRequest (Some url) email target) w
            = mkOutcome (Ok r) wf evs /\
            r = mkResponse 200
                  (BProduct (hd_error (Sql.select_product
                                         (next_product_id (store w)) (store wf)))) /\
            products (store wf) = products (store w) ++ [new] /\
            price_history (store wf)
            = price_history (store w)
              ++ [mkHistory (next_history_id (store w)) (next_product_id (store w))
                            (page url) (S (S (clock w)))]).
  { unfold add_product.
    cbn [marketplace_url user_email target_price string_or_empty number_or_zero].
    rewrite Hu. cbn [negb].
    destruct (truthy_string email && truthy_number target)%bool.
    - eexists _, _, _. split; [|split; [|split]].
      + apply try_catch_run.
        eapply bind_run; [apply (scrape_with_valid _ _ lid); exact Hurl|].
        cbn [ld_price ld_listing_id].
        statement_runs Hup. rewrite Hsel.
        eapply bind_run.
        { statement_runs Hup. reflexivity. }
        statement_runs Hup. statement_runs Hup. statement_runs Hup.
        reflexivity.
      + reflexivity.
      + reflexivity.
      + reflexivity.
    - eexists _, _, _. split; [|split; [|split]].
      + apply try_catch_run.
        eapply bind_run; [apply (scrape_with_valid _ _ lid); exact Hurl|].
        cbn [ld_price ld_listing_id].
        statement_runs Hup. rewrite Hsel.
        eapply bind_run.
        { statement_runs Hup. reflexivity. }
        statement_runs Hup.
        eapply bind_run; [reflexivity|].
        statement_runs Hup.
        reflexivity.
      + reflexivity.
      + reflexivity.
      + reflexivity. }
  destruct Hrun as (r & wf & evs & Hrun & -> & Hp & Hh).
  rewrite Hrun. cbn [res final]. split; [|auto].
  unfold Sql.select_product. rewrite hd_error_filter, Hp.
  now rewrite (find_product_fresh (store w) new Hwf eq_refl).
Qed.

(** Tracking the listing of the scenario from the empty store. *)
Lemma add_product_new_listing_witness :
  products (store (final (add_product healthy scrapeFacebookListing track_request
                            (mkWorld empty_db 0%nat))))
  = [mkProduct 1 "Product from Marketplace" "Tracked item" 0 "" "Location TBD"
               "Seller TBD" "1234567" url1 "active" None].
Proof.
  assert (Hwf : wf_db (store (mkWorld empty_db 0%nat))).
  { unfold wf_db. simpl. repeat split; constructor. }
  exact (proj1 (proj2 (add_product_new_listing healthy (fun _ => 0)
                         (mkWorld empty_db 0%nat) url1 "1234567"
                         (Some "ann@example.com"%string) (Some 90)
                         (fun _ => eq_refl) Hwf eq_refl eq_refl))).
Defined.



(** X9. The statements of the handler are not one transaction: when the
    store fails at the INSERT into the history, after the product row was
    inserted, the request is answered 500 and the error is logged, but the
    new product row stays in the store, without any history row. *)
Theorem add_product_not_atomic (E : env) (page : string -> Z) (w : world)
    (url lid : string) (email : option string) (target : option Z) :
  db_down E (clock w) = false ->
  db_down E (S (clock w)) = false ->
  db_down E (S (S (clock w))) = true ->
  match_item url = Some lid ->
  Sql.select_by_listing lid (store w) = [] ->
  let o := add_product E (scrape_with page) (mkAddRequest (Some url) email target) w in
  (exists r, res o = Ok r /\ status r = 500%nat) /\
  In (ConsoleError "Error adding product:" StoreFailure) (emitted o) /\
  products (store (final o))
  = products (store w)
    ++ [mkProduct (next_product_id (store w)) "Product from Marketplace"
          "Tracked item" (page url) "" "Location TBD" "Seller TBD" lid url
          "active" None] /\
  price_history (store (final o)) = price_history (store w) /\
  alerts (store (final o)) = alerts (store w).
Proof.
  intros Hup0 Hup1 Hdown Hurl Hsel o. subst o.
  assert (Hu : truthy_string (Some url) = true).
  { destruct url; [discriminate Hurl | reflexivity]. }
  assert (Hrun : exists r wf evs,
            add_product E (scrape_with page) (mkAddRequest (Some url) email target) w
            = mkOutcome (Ok r) wf
                (evs ++ [ConsoleError "Error adding product:" StoreFailure]) /\
            status r = 500%nat /\
            store wf = fst (Sql.insert_product
                              (mkListing "Product from Marketplace" "Tracked item"
                                 (page url) "" "Location TBD" "Seller TBD" lid url)
                              url (store w))).
  { unfold add_product.
    cbn [marketplace_url user_email target_price string_or_empty number_or_zero].
    rewrite Hu. cbn [negb].
    eexists _, _, _. split; [|split].
    - eapply try_catch_run_Throw.
      + eapply bind_run; [apply (scrape_with_valid _ _ lid); exact Hurl|].
        cbn [ld_price ld_listing_id].
        eapply bind_run; [apply pool_query_up; exact Hup0|].
        cbn [store clock fst snd]. rewrite Hsel.
        eapply bind_run.
        { eapply bind_run; [apply pool_query_up; exact Hup1|].
          cbn [store clock fst snd]. reflexivity. }
        apply bind_run_Throw. apply pool_query_down. exact Hdown.
      + reflexivity.
    - reflexivity.
    - reflexivity. }
  destruct Hrun as (r & wf & evs & Hrun & Hst & Hstore).
  rewrite Hrun. cbn [res final emitted]. rewrite Hstore.
  split; [now exists r|]. split; [|cbn; auto].
  apply in_or_app. right. now left.
Qed.

(** Tracking the listing of the scenario from the empty store, the store
    down at the instant of the INSERT into the history. *)
Lemma add_product_not_atomic_witness :
  products (store (final (add_product (db_blip 2%nat) scrapeFacebookListing
                            track_request (mkWorld empty_db 0%nat))))
  = [mkProduct 1 "Product from Marketplace" "Tracked item" 0 "" "Location TBD"
               "Seller TBD" "1234567" url1 "active" None] /\
  price_history (store (final (add_product (db_blip 2%nat) scrapeFacebookListing
                                 track_request (mkWorld empty_db 0%nat))))
  = [].
Proof.
  destruct (add_product_not_atomic (db_blip 2%nat) (fun _ => 0)
              (mkWorld empty_db 0%nat) url1 "1234567"
              (Some "ann@example.com"%string) (Some 90)
              eq_refl eq_refl eq_refl eq_refl eq_refl) as (_ & _ & Hp & Hh & _).
  split; [exact Hp | exact Hh].
Defined.


(* ================================================================== *)
(** * The answers of the manual refresh *)
(* ================================================================== *)

Lemma select_product_none (id : nat) (d : db) :
  find_product id d = None -> Sql.select_product id d = [].
Proof.
  unfold find_product, Sql.select_product.
  induction (products d) as [|q l IH]; simpl; [reflexivity|].
  destruct (Nat.eqb (p_id q) id); [discriminate | exact IH].
Qed.

(** X10. The manual refresh always answers, and what it answers is decided
    in this order.  The store down at the first SELECT: 500, the world
    untouched but for the clock.  No product row with the id: 404 'Product
    not found', a single SELECT sent, nothing written.  A product whose URL
    the scraper rejects: 500 'Failed to check product', both errors logged,
    nothing written.  Otherwise, the store reachable: 200 'Product updated'
    with the observed price. *)
Theorem refresh_answers (E : env) (p : Z) (id : nat) (w : world) :
  let o := check_product E (observing p) id w in
  (exists r, res o = Ok r) /\
  (db_down E (clock w) = true ->
   res o = Ok (mkResponse 500 (BError "Failed to check product")) /\
   store (final o) = store w) /\
  (db_down E (clock w) = false ->
   find_product id (store w) = None ->
   res o = Ok (mkResponse 404 (BError "Product not found")) /\
   store (final o) = store w /\
   emitted o = [Query (SelectProduct id) true]) /\
  (db_down E (clock w) = false ->
   forall L,
     find_product id (store w) = Some L ->
     match_item (p_marketplace_url L) = None ->
     res o = Ok (mkResponse 500 (BError "Failed to check product")) /\
     store (final o) = store w /\
     emitted o = [Query (SelectProduct id) true;
                  ConsoleError "Scraping error:" InvalidUrl;
                  ConsoleError "Error checking product:" InvalidUrl]) /\
  ((forall t, db_down E t = false) ->
   forall L lid,
     find_product id (store w) = Some L ->
     match_item (p_marketplace_url L) = Some lid ->
     res o = Ok (mkResponse 200 (BUpdated p))).
Proof.
  intros o. split; [apply check_product_answers|]. split; [|split; [|split]].
  - intros Hdown. subst o. unfold check_product, try_catch, bind.
    rewrite !pool_query_down by exact Hdown. cbn. auto.
  - intros Hup Hnone. subst o. unfold check_product, try_catch, bind.
    rewrite !pool_query_up by exact Hup. cbn [res final emitted snd fst].
    rewrite !(select_product_none id (store w) Hnone). cbn. auto.
  - intros Hup L Hfind Hurl.
    destruct (select_product_found id (store w) L Hfind) as (tl & Hsel).
    subst o. unfold check_product, try_catch, bind.
    rewrite !pool_query_up by exact Hup. cbn [res final emitted snd fst].
    rewrite !Hsel. unfold observing.
    rewrite !scrape_with_invalid by exact Hurl. cbn. auto.
  - intros Hup L lid Hfind Hurl.
    now destruct (check_product_up E p id w L lid Hup Hfind Hurl) as (Hr & _).
Qed.

(** A refresh of a product that is not in the store of the scenario. *)
Lemma refresh_answers_witness :
  res (check_product healthy (observing 90) 7 scenario)
  = Ok (mkResponse 404 (BError "Product not found")) /\
  store (final (check_product healthy (observing 90) 7 scenario)) = store scenario.
Proof.
  destruct (proj1 (proj2 (proj2 (refresh_answers healthy 90 7 scenario)))
              eq_refl eq_refl) as (Hr & Hs & _).
  split; [exact Hr | exact Hs].
Defined.

(** Refreshing any number of times at the stored price, whatever fails. *)
Lemma refresh_times_same_price (E : env) (id : nat) (p : Z) (n : nat) :
  forall w,
    stored_price id (store w) = Some p ->
    let o := refresh_times E (observing p) n id w in
    price_history (store (final o)) = price_history (store w) /\
    alerts (store (final o)) = alerts (store w) /\
    evaluated_ids (emitted o) = [] /\
    notified_ids (emitted o) = [] /\
    stored_price id (store (final o)) = Some p.
Proof.
  induction n as [|k IH]; intros w Hstored o.
  - subst o. simpl. auto 10.
  - subst o. cbn [refresh_times].
    destruct (check_product_answers E (observing p) id w) as (r & Hres).
    destruct (bind_Ok _ (fun _ => refresh_times E (observing p) k id) w r Hres)
      as (_ & Bf & Be).
    destruct (check_product_same_price E p id w Hstored)
      as (Hh & Ha & Hev & Hn & Hs).
    destruct (IH _ Hs) as (Ih & Ia & Iev & In_ & Is).
    rewrite Bf, Be, evaluated_ids_app, notified_ids_app, Hev, Hn, Iev, In_.
    rewrite Ih, Ia, Hh, Ha. auto 10.
Qed.

(** X11. The refresh is not one transaction either.  When the observed
    price differs from the stored one and the store fails at the INSERT
    into the history, after the UPDATE of the product, the request is
    answered 500, the listing already carries the new price, no history row
    was written and the alerts were not evaluated.  From then on that price
    is the stored one: however often the refresh observes it again, in any
    environment, it is never recorded in the history and the alerts are
    never evaluated for it. *)
Theorem refresh_loses_the_change (E : env) (p : Z) (id : nat) (w : world)
    (L : product) (lid : string) :
  find_product id (store w) = Some L ->
  match_item (p_marketplace_url L) = Some lid ->
  p <> p_current_price L ->
  db_down E (clock w) = false ->
  db_down E (S (clock w)) = false ->
  db_down E (S (S (clock w))) = true ->
  let o := check_product E (observing p) id w in
  res o = Ok (mkResponse 500 (BError "Failed to check product")) /\
  stored_price id (store (final o)) = Some p /\
  price_history (store (final o)) = price_history (store w) /\
  alerts (store (final o)) = alerts (store w) /\
  evaluated_ids (emitted o) = [] /\
  forall E' n,
    let o' := refresh_times E' (observing p) n id (final o) in
    price_history (store (final o')) = price_history (store w) /\
    alerts (store (final o')) = alerts (store w) /\
    evaluated_ids (emitted o') = [] /\
    notified_ids (emitted o') = [].
Proof.
  intros Hfind Hurl Hneq Hup0 Hup1 Hdown o.
  destruct (check_product_run E p id w L lid Hup0 Hfind Hurl) as (Hf & Hr & He).
  fold o in Hf, Hr, He.
  set (w1 := mkWorld (store w) (S (clock w))) in *.
  assert (Hchg : price_changed p (p_current_price L) = true).
  { unfold price_changed. rewrite (proj2 (Z.eqb_neq _ _) Hneq). reflexivity. }
  assert (Hing : ingest E id (p_current_price L) p w1
                 = mkOutcome (Throw StoreFailure)
                     (mkWorld (Sql.update_product_price p id (S (clock w)) (store w))
                              (S (S (S (clock w)))))
                     [Query (UpdateProductPrice p id) true;
                      Query (InsertHistory id p) false]).
  { unfold ingest. rewrite Hchg.
    eapply (bind_run _ _ w1 _ _ tt (Throw StoreFailure)
              [Query (UpdateProductPrice p id) true]
              [Query (InsertHistory id p) false]).
    - apply pool_query_up. exact Hup1.
    - cbn [store clock fst snd w1].
      apply bind_run_Throw. apply pool_query_down. exact Hdown. }
  rewrite Hing in Hf, Hr, He. cbn [res final emitted] in Hf, Hr, He.
  assert (Hstored : stored_price id (store (final o)) = Some p).
  { rewrite Hf. cbn [store].
    exact (stored_price_update p id (S (clock w)) (store w) L Hfind). }
  assert (Hh : price_history (store (final o)) = price_history (store w))
    by now rewrite Hf.
  assert (Ha : alerts (store (final o)) = alerts (store w)) by now rewrite Hf.
  split; [exact Hr|]. split; [exact Hstored|]. split; [exact Hh|].
  split; [exact Ha|]. split; [now rewrite He|].
  intros E' n o'.
  destruct (refresh_times_same_price E' id p n (final o) Hstored)
    as (Ih & Ia & Iev & In_ & _).
  fold o' in Ih, Ia, Iev, In_. rewrite Ih, Ia, Hh, Ha. auto.
Qed.

(** The listing of the scenario observed at 90, the store down at the
    instant of the INSERT into the history; then two refreshes at 90. *)
Lemma refresh_loses_the_change_witness :
  stored_price 1 (store (final (check_product (db_blip 2%nat) (observing 90) 1 scenario)))
  = Some 90 /\
  price_history
    (store (final (refresh_times healthy (observing 90) 2 1
                     (final (check_product (db_blip 2%nat) (observing 90) 1 scenario)))))
  = price_history (store scenario).
Proof.
  assert (Hneq : 90 <> p_current_price (listing1 100)) by (simpl; lia).
  destruct (refresh_loses_the_change (db_blip 2%nat) 90 1 scenario (listing1 100)
              "1234567" eq_refl eq_refl Hneq eq_refl eq_refl eq_refl)
    as (_ & Hs & _ & _ & _ & Hlater).
  split; [exact Hs|].
  exact (proj1 (Hlater healthy 2%nat)).
Defined.


(* ================================================================== *)
(** * The hourly job *)
(* ================================================================== *)

Lemma composes_skips (id : nat) : composes (skips id).
Proof.
  constructor; unfold skips.
  - intros w1 e1 w2 e2 w3 (A1 & B1) (A2 & B2). split; [congruence|].
    rewrite evaluated_ids_app. intro Hin. apply in_app_or in Hin. tauto.
  - intros w c. simpl. auto.
  - intros w e c He. split; [reflexivity|].
    destruct e as [q ok| | |]; try discriminate He; cbn; auto.
    destruct q; try discriminate He; cbn; auto.
Qed.

Lemma find_product_update_other (price : Z) (id id' : nat) (t : time) (d : db) :
  id' <> id ->
  find_product id (Sql.update_product_price price id' t d) = find_product id d.
Proof.
  intros Hneq. unfold find_product, Sql.update_product_price. simpl.
  induction (products d) as [|q l IH]; simpl; [reflexivity|].
  destruct (Nat.eqb (p_id q) id') eqn:Hq; simpl.
  - apply Nat.eqb_eq in Hq.
    destruct (Nat.eqb (p_id q) id) eqn:Hq'; [|exact IH].
    apply Nat.eqb_eq in Hq'. congruence.
  - destruct (Nat.eqb (p_id q) id); [reflexivity | exact IH].
Qed.

(** [ingest] of another product skips the product [id]. *)
Lemma ingest_skips (E : env) (id id' : nat) (stored observed : Z) :
  id' <> id -> obeys (skips id) (ingest E id' stored observed).
Proof.
  intros Hneq. pose proof (composes_skips id) as HR.
  unfold ingest. apply obeys_bind; [exact HR| |].
  - apply obeys_pool_query; [exact HR | reflexivity |].
    intros w. split; [|cbn; auto]. cbn [store fst].
    now apply find_product_update_other.
  - intros _. destruct (price_changed observed stored); [|now apply obeys_ret].
    apply obeys_bind; [exact HR| |].
    + apply obeys_pool_query; [exact HR | reflexivity |].
      intros w. split; [reflexivity | cbn; auto].
    + intros _ w. split.
      * unfold find_product.
        now rewrite (proj1 (checkAlerts_frame E id' observed w)).
      * rewrite (proj1 (checkAlerts_prefix E id' observed w)).
        intros [Heq|[]]. congruence.
Qed.

Lemma for_products_skips (E : env) (page : string -> Z) (id : nat)
    (rows : list product) :
  Forall (fun r => p_id r <> id) rows ->
  obeys (skips id) (for_products E (scrape_with page) rows).
Proof.
  pose proof (composes_skips id) as HR.
  induction rows as [|r rest IH]; intros Hrows; cbn [for_products].
  - now apply obeys_ret.
  - inversion Hrows as [|? ? Hr Hrest]; subst.
    apply obeys_bind; [exact HR| |intros _; now apply IH].
    apply obeys_try_catch; [exact HR| |intros e; now apply obeys_console_error].
    apply obeys_bind; [exact HR | now apply obeys_scrape_with |]. intros ld.
    apply obeys_bind; [exact HR | now apply ingest_skips |]. intros _.
    now apply obeys_delay.
Qed.

(** The loop always returns: each iteration has its own [catch]. *)
Lemma for_products_returns (E : env) (scrape : string -> M listingData)
    (rows : list product) :
  forall w, res (for_products E scrape rows w) = Ok tt.
Proof.
  induction rows as [|r rest IH]; intros w; cbn [for_products]; [reflexivity|].
  match goal with |- res (bind ?m ?f w) = _ =>
    assert (Hm : res (m w) = Ok tt) end.
  { unfold try_catch. cbv zeta.
    match goal with |- context [match res ?x with _ => _ end] =>
      destruct (res x) as [[]|e] eqn:Hres end; [exact Hres | reflexivity]. }
  match goal with |- res (bind ?m ?f w) = _ =>
    destruct (bind_Ok m f w tt Hm) as (Br & _) end.
  rewrite Br. apply IH.
Qed.

Lemma price_check_returns (E : env) (scrape : string -> M listingData) (w : world) :
  res (price_check E scrape w) = Ok tt.
Proof.
  unfold price_check.
  match goal with |- res (bind ?m ?f w) = _ =>
    destruct (bind_Ok m f w tt eq_refl) as (Br & _) end.
  rewrite Br. unfold try_catch. cbv zeta.
  match goal with |- context [match res ?x with _ => _ end] =>
    destruct (res x) as [[]|e] eqn:Hres end; [exact Hres | reflexivity].
Qed.

Lemma select_active_products_In (d : db) (r : product) :
  In r (Sql.select_active_products d) ->
  In r (products d) /\ p_status r = "active"%string.
Proof.
  unfold Sql.select_active_products. intros Hin.
  apply filter_In in Hin. destruct Hin as [Hin Hst].
  apply String.eqb_eq in Hst. auto.
Qed.

(** Sequencing and catching at one world. *)
Lemma rel_bind_at {A B} (R : step_rel) (m : M A) (f : A -> M B) (w : world) :
  composes R ->
  R w (emitted (m w)) (final (m w)) ->
  (forall a, res (m w) = Ok a ->
             R (final (m w)) (emitted (f a (final (m w))))
               (final (f a (final (m w))))) ->
  R w (emitted (bind m f w)) (final (bind m f w)).
Proof.
  intros HR Hm Hf. destruct (res (m w)) as [a|e] eqn:Hres.
  - destruct (bind_Ok m f w a Hres) as (_ & Bf & Be). rewrite Bf, Be.
    apply (composes_trans R HR) with (w2 := final (m w)); auto.
  - destruct (bind_Throw m f w e Hres) as (_ & Bf & Be). now rewrite Bf, Be.
Qed.

Lemma rel_try_catch_at {A} (R : step_rel) (m : M A) (h : error -> M A) (w : world) :
  composes R ->
  R w (emitted (m w)) (final (m w)) ->
  (forall e, obeys R (h e)) ->
  R w (emitted (try_catch m h w)) (final (try_catch m h w)).
Proof.
  intros HR Hm Hh. destruct (res (m w)) as [a|e] eqn:Hres.
  - now rewrite (try_catch_Ok m h w a Hres).
  - destruct (try_catch_Throw m h w e Hres) as (_ & Tf & Te). rewrite Tf, Te.
    apply (composes_trans R HR) with (w2 := final (m w)); [exact Hm | apply Hh].
Qed.

(** The job as a whole, given what its loop does on the rows it loads. *)
Lemma price_check_rel (R : step_rel) (E : env) (scrape : string -> M listingData)
    (w : world) :
  composes R ->
  (forall w', store w' = store w -> R w' [Query SelectActiveProducts true]
                                       (mkWorld (store w') (S (clock w')))) ->
  (forall w', store w' = store w ->
              R w' (emitted (for_products E scrape
                               (Sql.select_active_products (store w)) w'))
                   (final (for_products E scrape
                               (Sql.select_active_products (store w)) w'))) ->
  R w (emitted (price_check E scrape w)) (final (price_check E scrape w)).
Proof.
  intros HR Hsel Hloop. unfold price_check.
  apply rel_bind_at; [exact HR | now apply obeys_console_log |].
  intros _ _. cbn [console_log final].
  apply rel_try_catch_at;
    [exact HR | | intros e; now apply obeys_console_error].
  apply rel_bind_at; [exact HR | |].
  - unfold pool_query. destruct (db_down E (clock w)); cbn.
    + now apply (composes_idle R HR).
    + now apply Hsel.
  - intros rows Hrows.
    assert (Hup : db_down E (clock w) = false).
    { unfold pool_query in Hrows. destruct (db_down E (clock w));
        [discriminate Hrows | reflexivity]. }
    rewrite pool_query_up in Hrows |- * by exact Hup.
    cbn [res final snd fst] in Hrows |- *. injection Hrows as <-.
    apply rel_bind_at; [exact HR | now apply Hloop |].
    intros _ _. now apply obeys_console_log.
Qed.

(** X12. The hourly job never throws, and it only processes the products
    whose status is 'active': when the ids of the products are distinct, a
    product with any other status keeps its row and its alerts are not
    evaluated, whatever the pages show and whatever fails. *)
Theorem hourly_job_skips_inactive (E : env) (page : string -> Z) (w : world)
    (id : nat) (L : product) :
  NoDup (map p_id (products (store w))) ->
  find_product id (store w) = Some L ->
  p_status L <> "active"%string ->
  let o := price_check E (scrape_with page) w in
  res o = Ok tt /\
  find_product id (store (final o)) = Some L /\
  ~ In id (evaluated_ids (emitted o)).
Proof.
  intros Hnd Hfind Hstatus o. split; [apply price_check_returns|].
  pose proof (composes_skips id) as HR.
  assert (Hrows : Forall (fun r => p_id r <> id)
                         (Sql.select_active_products (store w))).
  { apply Forall_forall. intros r Hin Heq.
    apply select_active_products_In in Hin. destruct Hin as [Hin Hact].
    pose proof (find_key_In p_id (products (store w)) r Hnd Hin) as Hr.
    rewrite Heq in Hr. unfold find_product in Hfind. congruence. }
  assert (Hskips : skips id w (emitted o) (final o)).
  { subst o. apply price_check_rel; [exact HR | |].
    - intros w' _. split; [reflexivity | cbn; auto].
    - intros w' _. now apply for_products_skips. }
  destruct Hskips as (Hsame & Hnot). rewrite Hsame. auto.
Qed.

(** The scenario with a second, paused, listing. *)
Lemma hourly_job_skips_inactive_witness :
  find_product 2
    (store (final (price_check healthy (scrape_with (fun _ => 10))
                     (mkWorld (mkDb [listing1 100; paused_listing] [] [alert1] 3 1 2)
                              0%nat))))
  = Some paused_listing.
Proof.
  assert (Hnd : NoDup (map p_id (products (store
             (mkWorld (mkDb [listing1 100; paused_listing] [] [alert1] 3 1 2) 0%nat))))).
  { simpl. repeat constructor; simpl; intuition discriminate. }
  assert (Hst : p_status paused_listing <> "active"%string) by discriminate.
  exact (proj1 (proj2 (hourly_job_skips_inactive healthy (fun _ => 10) _ 2
                         paused_listing Hnd eq_refl Hst))).
Defined.

(** X13. A listing that fails in the loop of the hourly job does not stop
    it.  When the scraper rejects the URL of a row, or when the store is
    down at the UPDATE of a row, the error is logged with the id of the
    product and the loop goes on with the remaining rows exactly as if it
    had started with them (one instant later in the second case). *)
Theorem hourly_job_isolates_failures (E : env) (page : string -> Z)
    (bad : product) (rest : list product) (w : world) :
  (match_item (p_marketplace_url bad) = None ->
   let o := for_products E (scrape_with page) rest w in
   for_products E (scrape_with page) (bad :: rest) w
   = mkOutcome (res o) (final o)
       ([ConsoleError "Scraping error:" InvalidUrl;
         ConsoleError ("Error checking product " ++ string_of_nat (p_id bad) ++ ":")
                      InvalidUrl] ++ emitted o)) /\
  (forall lid,
     match_item (p_marketplace_url bad) = Some lid ->
     db_down E (clock w) = true ->
     let o := for_products E (scrape_with page) rest (tick w) in
     for_products E (scrape_with page) (bad :: rest) w
     = mkOutcome (res o) (final o)
         ([Query (UpdateProductPrice (page (p_marketplace_url bad)) (p_id bad)) false;
           ConsoleError ("Error checking product " ++ string_of_nat (p_id bad) ++ ":")
                        StoreFailure] ++ emitted o)).
Proof.
  split.
  - intros Hurl o. cbn [for_products].
    eapply bind_run; [|subst o; apply outcome_eta].
    eapply (try_catch_run_Throw _ _ w w w InvalidUrl _
              [ConsoleError "Scraping error:" InvalidUrl]
              [ConsoleError _ InvalidUrl]).
    + apply bind_run_Throw. now apply scrape_with_invalid.
    + reflexivity.
  - intros lid Hurl Hdown o. cbn [for_products].
    eapply bind_run; [|subst o; apply outcome_eta].
    eapply (try_catch_run_Throw _ _ w (tick w) (tick w) StoreFailure _
              [Query _ false] [ConsoleError _ StoreFailure]).
    + eapply (bind_run _ _ w w (tick w) _ (Throw StoreFailure) [] [Query _ false]).
      * now apply (scrape_with_valid _ _ lid).
      * cbn [ld_price]. apply bind_run_Throw. unfold ingest.
        apply bind_run_Throw. apply pool_query_down. exact Hdown.
    + reflexivity.
Qed.

(** A row with a URL the scraper rejects, in front of the listing of the
    scenario. *)
Lemma hourly_job_isolates_failures_witness :
  final (for_products healthy (scrape_with (fun _ => 90))
           [mkProduct 2 "t" "d" 5 "" "" "" "x" "https://example.com/" "active" None;
            listing1 100] scenario)
  = final (for_products healthy (scrape_with (fun _ => 90)) [listing1 100] scenario).
Proof.
  exact (f_equal final
           (proj1 (hourly_job_isolates_failures healthy (fun _ => 90)
                     (mkProduct 2 "t" "d" 5 "" "" "" "x" "https://example.com/"
                                "active" None)
                     [listing1 100] scenario) eq_refl)).
Defined.


(* ================================================================== *)
(** * What the notifier is given *)
(* ================================================================== *)

Lemma mails_app (e1 e2 : list event) : mails (e1 ++ e2) = mails e1 ++ mails e2.
Proof. apply flat_map_app. Qed.

Lemma fire_row_mails (E : env) (r : alert_row) (p : Z) (w : world) :
  mails (emitted (bind (sendPriceAlert E r p)
                    (fun _ => pool_query E (UpdateAlertTriggered (ar_id r))
                       (fun now d => (Sql.update_alert_triggered (ar_id r) now d, tt))) w))
  = [mailOptions E r p].
Proof.
  unfold bind, sendPriceAlert, try_catch, bind, sendMail, console_log,
    console_error, pool_query.
  destruct (smtp_down E (clock w)); cbn;
    match goal with |- context [db_down E ?t] => destruct (db_down E t) end;
    reflexivity.
Qed.

(** The loop hands the transport the message of a firing row, and nothing
    else. *)
Lemma for_alerts_mails (E : env) (rows : list alert_row) (p : Z) :
  forall w,
    incl (mails (emitted (for_alerts E rows p w)))
         (map (fun r => mailOptions E r p) (filter (firing p) rows)).
Proof.
  induction rows as [|r rest IH]; intros w; cbn [for_alerts].
  - intros m [].
  - fold (firing p r). cbn [filter]. destruct (firing p r).
    + pose proof (fire_row_mails E r p w) as Hm.
      destruct (fire_row_any E r p w) as (_ & _ & _ & [Hok | Hko]).
      * destruct Hok as (_ & Hr & _ & _).
        destruct (bind_Ok _ (fun _ => for_alerts E rest p) w tt Hr) as (_ & _ & Be).
        rewrite Be, mails_app, Hm. cbn [map app].
        intros m [<-|Hin]; [now left | right; eapply IH; exact Hin].
      * destruct Hko as (_ & Hr & _ & _).
        destruct (bind_Throw _ (fun _ => for_alerts E rest p) w _ Hr) as (_ & _ & Be).
        rewrite Be, Hm. intros m [<-|[]]. now left.
    + destruct (bind_Ok (ret tt) (fun _ => for_alerts E rest p) w tt eq_refl)
        as (_ & _ & Be).
      rewrite Be. cbn [ret emitted app]. apply IH.
Qed.

Lemma checkAlerts_mails (E : env) (pid : nat) (p : Z) (w : world) :
  incl (mails (emitted (checkAlerts E pid p w)))
       (map (fun r => mailOptions E r p)
            (filter (firing p) (Sql.select_active_alerts pid (store w)))).
Proof.
  unfold checkAlerts.
  set (body := bind (pool_query E (SelectActiveAlerts pid)
                       (fun _ d => (d, Sql.select_active_alerts pid d)))
                    (fun alerts => for_alerts E alerts p)).
  set (handler := fun error => console_error "Error checking alerts:" error).
  assert (Hbody : incl (mails (emitted (body w)))
                       (map (fun r => mailOptions E r p)
                          (filter (firing p) (Sql.select_active_alerts pid (store w))))).
  { destruct (db_down E (clock w)) eqn:Hdown.
    - destruct (bind_Throw (pool_query E (SelectActiveAlerts pid)
                  (fun _ d => (d, Sql.select_active_alerts pid d)))
                  (fun alerts => for_alerts E alerts p) w StoreFailure)
        as (_ & _ & Be).
      { now rewrite pool_query_down. }
      fold body in Be. rewrite Be, pool_query_down by exact Hdown.
      intros m [].
    - destruct (bind_Ok (pool_query E (SelectActiveAlerts pid)
                  (fun _ d => (d, Sql.select_active_alerts pid d)))
                  (fun alerts => for_alerts E alerts p) w
                  (Sql.select_active_alerts pid (store w)))
        as (_ & _ & Be).
      { now rewrite pool_query_up. }
      fold body in Be. rewrite Be, mails_app, pool_query_up by exact Hdown.
      cbn [emitted mails flat_map app final]. apply for_alerts_mails. }
  destruct (res (body w)) as [[]|e] eqn:Hres.
  - now rewrite (try_catch_Ok body handler w tt Hres).
  - destruct (try_catch_Throw body handler w e Hres) as (_ & _ & Te).
    rewrite Te, mails_app. cbn. now rewrite app_nil_r.
Qed.

(** X14. Every message an evaluation hands to the transport is the message
    of a loaded row: it is addressed to the e-mail address of an active
    alert of the evaluated product, carries the price of the evaluation and
    the target of that alert, and the price it carries is at most the
    target; it is sent from [EMAIL_USER]. *)
Theorem notifications_are_price_drops (E : env) (pid : nat) (p : Z) (w : world)
    (m : mail) :
  In m (mails (emitted (checkAlerts E pid p w))) ->
  m_current_price m = p /\
  m_current_price m <= m_target_price m /\
  m_from m = EMAIL_USER E /\
  exists a title url,
    In (mkAlertRow a title url) (Sql.select_active_alerts pid (store w)) /\
    In a (alerts (store w)) /\
    a_product_id a = pid /\
    a_is_active a = true /\
    m_to m = a_user_email a /\
    m_target_price m = a_target_price a /\
    m_title m = title /\
    m_link m = url.
Proof.
  intros Hin. apply checkAlerts_mails in Hin.
  apply in_map_iff in Hin. destruct Hin as (r & <- & Hr).
  apply filter_In in Hr. destruct Hr as [Hr Hfire].
  destruct (select_active_alerts_In pid (store w) r Hr) as (Ha & Hp & Hact).
  unfold firing in Hfire. apply Z.leb_le in Hfire.
  cbn. split; [reflexivity|]. split; [exact Hfire|]. split; [reflexivity|].
  exists (ar_alert r), (ar_title r), (ar_marketplace_url r).
  destruct r as [a title url]. cbn in *. auto 10.
Qed.

Lemma notifications_are_price_drops_witness :
  m_current_price (mailOptions healthy
                     (mkAlertRow alert1 "Product from Marketplace" url1) 85) = 85 /\
  m_current_price (mailOptions healthy
                     (mkAlertRow alert1 "Product from Marketplace" url1) 85)
  <= m_target_price (mailOptions healthy
                       (mkAlertRow alert1 "Product from Marketplace" url1) 85).
Proof.
  assert (Hin : In (mailOptions healthy
                      (mkAlertRow alert1 "Product from Marketplace" url1) 85)
                   (mails (emitted (checkAlerts healthy 1 85 scenario)))).
  { now left. }
  destruct (notifications_are_price_drops healthy 1 85 scenario _ Hin)
    as (H1 & H2 & _).
  split; [exact H1 | exact H2].
Defined.

(* ================================================================== *)
(** * Evaluations and the rows they leave alone *)
(* ================================================================== *)

(** X15. An alert can be notified more than once.  When the UPDATE that
    deactivates the first firing alert throws, the alert has been handed to
    the notifier and is still active; the next evaluation of the listing at
    a price that meets its target, the store reachable again, hands it to
    the notifier a second time. *)
Theorem failed_deactivation_notifies_again (E E' : env) (pid : nat) (p q : Z)
    (w : world) (r : alert_row) :
  db_down E (clock w) = false ->
  db_down E (S (S (clock w))) = true ->
  find (firing p) (Sql.select_active_alerts pid (store w)) = Some r ->
  (forall t, db_down E' t = false) ->
  q <= ar_target_price r ->
  let o := checkAlerts E pid p w in
  let o' := checkAlerts E' pid q (final o) in
  notified_ids (emitted o) = [ar_id r] /\
  deactivated_ids (emitted o) = [] /\
  In (ar_id r) (notified_ids (emitted o')) /\
  In (ar_id r) (deactivated_ids (emitted o')).
Proof.
  intros Hup Hdown Hfind Hup' Hle o o'.
  destruct (checkAlerts_first_update_fails E pid p w r Hup Hdown Hfind)
    as (_ & Hs & Hn & Hd).
  fold o in Hs, Hn, Hd.
  destruct (checkAlerts_up E' pid q (final o) Hup') as (_ & _ & Hn' & Hd' & _).
  fold o' in Hn', Hd'. rewrite Hs in Hn', Hd'.
  assert (Hloaded : In (ar_id r)
            (map ar_id (filter (firing q) (Sql.select_active_alerts pid (store w))))).
  { apply in_map. apply filter_In. split.
    - now apply find_some in Hfind.
    - unfold firing. now apply Z.leb_le. }
  rewrite Hn', Hd'. auto.
Qed.

(** The scenario at 90, the store down at the deactivating UPDATE; then an
    evaluation at 85. *)
Lemma failed_deactivation_notifies_again_witness :
  notified_ids (emitted (checkAlerts (db_blip 2%nat) 1 90 scenario)) = [1%nat] /\
  In 1%nat (notified_ids (emitted (checkAlerts healthy 1 85
               (final (checkAlerts (db_blip 2%nat) 1 90 scenario))))).
Proof.
  assert (Hle : 85 <= ar_target_price
                        (mkAlertRow alert1 "Product from Marketplace" url1))
    by (cbn; lia).
  destruct (failed_deactivation_notifies_again (db_blip 2%nat) healthy 1 90 85
              scenario (mkAlertRow alert1 "Product from Marketplace" url1)
              eq_refl eq_refl eq_refl (fun _ => eq_refl) Hle)
    as (H1 & _ & H2 & _).
  split; [exact H1 | exact H2].
Defined.

(** X16. An evaluation concerns one listing.  In every environment it
    leaves the products and the price history as they are, and an alert of
    any other product is neither handed to the notifier nor written. *)
Theorem evaluation_is_per_listing (E : env) (pid : nat) (p : Z) (w : world)
    (a : alert) :
  wf_db (store w) ->
  In a (alerts (store w)) ->
  a_product_id a <> pid ->
  let o := checkAlerts E pid p w in
  products (store (final o)) = products (store w) /\
  price_history (store (final o)) = price_history (store w) /\
  fires (a_id a) (emitted o) = false /\
  find_alert (a_id a) (store (final o)) = Some a.
Proof.
  intros Hwf Hin Hother o.
  destruct (checkAlerts_frame E pid p w) as (Hp & Hh).
  split; [exact Hp|]. split; [exact Hh|].
  assert (Hfind : find_alert (a_id a) (store w) = Some a).
  { destruct Hwf as (_ & Ha & _ & _).
    exact (find_key_In a_id (alerts (store w)) a Ha Hin). }
  assert (Hnot : forall r, In r (Sql.select_active_alerts pid (store w)) ->
                           ar_id r <> a_id a).
  { intros r Hr Heq.
    destruct (loaded_row pid (store w) r Hwf Hr) as (Hf & Hpid & _).
    rewrite Heq, Hfind in Hf. injection Hf as Hf. rewrite <- Hf in Hpid.
    contradiction. }
  destruct (checkAlerts_prefix E pid p w)
    as (_ & done & rest & Hrows & Hst & _ & _ & Hsub).
  subst o. split.
  - destruct (fires (a_id a) (emitted (checkAlerts E pid p w))) eqn:Hfires;
      [|reflexivity].
    apply fires_In in Hfires. apply Hsub in Hfires.
    apply in_map_iff in Hfires. destruct Hfires as (r & Hid & Hr).
    apply filter_In in Hr. exfalso. exact (Hnot r (proj1 Hr) Hid).
  - rewrite Hst, fired_store_other; [exact Hfind|].
    intros r Hr _. apply Hnot. rewrite Hrows. apply in_or_app. now left.
Qed.

(** The alerts of the scenario during an evaluation of another product. *)
Lemma evaluation_is_per_listing_witness :
  fires 1 (emitted (checkAlerts healthy 2 10 two_alerts)) = false /\
  find_alert 1 (store (final (checkAlerts healthy 2 10 two_alerts))) = Some alert1.
Proof.
  assert (Hin : In alert1 (alerts (store two_alerts))) by now left.
  assert (Hother : a_product_id alert1 <> 2%nat) by discriminate.
  destruct (evaluation_is_per_listing healthy 2 10 two_alerts alert1
              wf_two_alerts Hin Hother) as (_ & _ & H1 & H2).
  split; [exact H1 | exact H2].
Defined.


(* ================================================================== *)
(** * The history a product is shown with *)
(* ================================================================== *)

Section History.

Lemma insert_newest_perm (h : history_entry) (l : list history_entry) :
  Permutation (insert_newest h l) (h :: l).
Proof.
  induction l as [|x r IH]; simpl; [reflexivity|].
  destruct (Nat.leb (ph_checked_at x) (ph_checked_at h)); [reflexivity|].
  rewrite IH. apply perm_swap.
Qed.

Lemma newest_first_perm (l : list history_entry) : Permutation (newest_first l) l.
Proof.
  induction l as [|h l IH]; simpl; [reflexivity|].
  rewrite insert_newest_perm. now constructor.
Qed.

Lemma insert_newest_sorted (h : history_entry) (l : list history_entry) :
  StronglySorted not_older l -> StronglySorted not_older (insert_newest h l).
Proof.
  induction l as [|x r IH]; intros Hs; simpl.
  - repeat constructor.
  - inversion Hs as [|? ? Hr Hx]; subst.
    destruct (Nat.leb (ph_checked_at x) (ph_checked_at h)) eqn:Hle.
    + apply Nat.leb_le in Hle. constructor; [exact Hs|].
      constructor; [exact Hle|].
      eapply Forall_impl; [|exact Hx]. unfold not_older. intros; lia.
    + apply Nat.leb_gt in Hle. constructor; [now apply IH|].
      apply Forall_forall. intros y Hy.
      apply (Permutation_in _ (insert_newest_perm h r)) in Hy.
      destruct Hy as [<-|Hy].
      * unfold not_older. lia.
      * rewrite Forall_forall in Hx. now apply Hx.
Qed.

Lemma newest_first_sorted (l : list history_entry) :
  StronglySorted not_older (newest_first l).
Proof.
  induction l as [|h l IH]; simpl; [constructor | now apply insert_newest_sorted].
Qed.

Lemma In_firstn {A} (n : nat) (l : list A) (x : A) :
  In x (firstn n l) -> In x l.
Proof.
  intros Hin. rewrite <- (firstn_skipn n l). apply in_or_app. now left.
Qed.

Lemma firstn_sorted {A} (R : A -> A -> Prop) (n : nat) (l : list A) :
  StronglySorted R l -> StronglySorted R (firstn n l).
Proof.
  revert l. induction n as [|n IH]; intros l Hs; simpl; [constructor|].
  destruct l as [|x l]; [constructor|].
  inversion Hs as [|? ? Hl Hx]; subst. constructor; [now apply IH|].
  apply Forall_forall. intros y Hy. rewrite Forall_forall in Hx.
  apply Hx. eapply In_firstn. exact Hy.
Qed.

Lemma select_history_spec (id : nat) (d : db) :
  (List.length (select_history id d) <= 90)%nat /\
  StronglySorted not_older (select_history id d) /\
  (forall h, In h (select_history id d) ->
             In h (price_history d) /\ ph_product_id h = id) /\
  ((List.length (filter (fun h => Nat.eqb (ph_product_id h) id) (price_history d))
    <= 90)%nat ->
   Permutation (select_history id d)
     (filter (fun h => Nat.eqb (ph_product_id h) id) (price_history d))).
Proof.
  unfold select_history.
  set (mine := filter (fun h => Nat.eqb (ph_product_id h) id) (price_history d)).
  split; [apply firstn_le_length|].
  split; [apply firstn_sorted, newest_first_sorted|].
  split.
  - intros h Hin. apply In_firstn in Hin.
    apply (Permutation_in _ (newest_first_perm mine)) in Hin.
    apply filter_In in Hin. destruct Hin as [Hin Hid].
    apply Nat.eqb_eq in Hid. auto.
  - intros Hlen. rewrite firstn_all2; [apply newest_first_perm|].
    now rewrite (Permutation_length (newest_first_perm mine)).
Qed.

End History.

Lemma pool_query_untraced_up {A} (E : env) (run : time -> db -> db * A) (w : world) :
  db_down E (clock w) = false ->
  pool_query_untraced E run w
  = mkOutcome (Ok (snd (run (clock w) (store w))))
              (mkWorld (fst (run (clock w) (store w))) (S (clock w))) [].
Proof. intros H. unfold pool_query_untraced. now rewrite H. Qed.

Lemma pool_query_untraced_down {A} (E : env) (run : time -> db -> db * A) (w : world) :
  db_down E (clock w) = true ->
  pool_query_untraced E run w = mkOutcome (Throw StoreFailure) (tick w) [].
Proof. intros H. unfold pool_query_untraced. now rewrite H. Qed.

(** The read handler, case by case. *)
Lemma get_product_down (E : env) (id : nat) (w : world) :
  db_down E (clock w) = true ->
  get_product E id w
  = mkOutcome (Ok (mkReply 500 (RError "Failed to fetch product"))) (tick w)
      [Query (SelectProduct id) false;
       ConsoleError "Error fetching product:" StoreFailure].
Proof.
  intros Hdown. unfold get_product.
  eapply (try_catch_run_Throw _ _ w (tick w) (tick w) StoreFailure _
            [Query (SelectProduct id) false]
            [ConsoleError "Error fetching product:" StoreFailure]).
  - apply bind_run_Throw. now apply pool_query_down.
  - reflexivity.
Qed.

Lemma get_product_missing (E : env) (id : nat) (w : world) :
  db_down E (clock w) = false ->
  find_product id (store w) = None ->
  get_product E id w
  = mkOutcome (Ok (mkReply 404 (RError "Product not found")))
      (mkWorld (store w) (S (clock w))) [Query (SelectProduct id) true].
Proof.
  intros Hup Hfind. unfold get_product. apply try_catch_run.
  eapply (bind_run _ _ w _ _ _ _ [Query (SelectProduct id) true] []).
  - now apply pool_query_up.
  - cbn [store clock fst snd].
    rewrite (select_product_none id (store w) Hfind). reflexivity.
Qed.

Lemma get_product_found (E : env) (id : nat) (w : world) (L : product) :
  db_down E (clock w) = false ->
  find_product id (store w) = Some L ->
  get_product E id w
  = if db_down E (S (clock w))
    then mkOutcome (Ok (mkReply 500 (RError "Failed to fetch product")))
           (mkWorld (store w) (S (S (clock w))))
           [Query (SelectProduct id) true;
            ConsoleError "Error fetching product:" StoreFailure]
    else mkOutcome (Ok (mkReply 200 (RProduct L (select_history id (store w)))))
           (mkWorld (store w) (S (S (clock w))))
           [Query (SelectProduct id) true].
Proof.
  intros Hup Hfind.
  destruct (select_product_found id (store w) L Hfind) as (tl & Hsel).
  unfold get_product. destruct (db_down E (S (clock w))) eqn:Hdown1.
  - eapply (try_catch_run_Throw _ _ w _ _ StoreFailure _
              [Query (SelectProduct id) true]
              [ConsoleError "Error fetching product:" StoreFailure]).
    + eapply (bind_run _ _ w _ _ _ _ [Query (SelectProduct id) true] []).
      * now apply pool_query_up.
      * cbn [store clock fst snd]. rewrite Hsel.
        apply bind_run_Throw. now apply pool_query_untraced_down.
    + reflexivity.
  - apply try_catch_run.
    eapply (bind_run _ _ w _ _ _ _ [Query (SelectProduct id) true] []).
    + now apply pool_query_up.
    + cbn [store clock fst snd]. rewrite Hsel.
      eapply (bind_run _ _ _ _ _ _ _ [] []).
      * now apply pool_query_untraced_up.
      * reflexivity.
Qed.

(** X17. Reading a product never writes: in every environment the store is
    as before and the handler answers.  The store down at the first SELECT,
    the answer is 500.  With the store reachable, an unknown id is answered
    404 'Product not found'; a known one is answered 200 with its row and a
    history that holds only price-history rows of that product, at most 90
    of them, newest first, and all of them when the product has at most
    90. *)
Theorem get_product_answers (E : env) (id : nat) (w : world) :
  let o := get_product E id w in
  store (final o) = store w /\
  (exists r, res o = Ok r) /\
  (db_down E (clock w) = true ->
   res o = Ok (mkReply 500 (RError "Failed to fetch product"))) /\
  (db_down E (clock w) = false ->
   find_product id (store w) = None ->
   res o = Ok (mkReply 404 (RError "Product not found"))) /\
  (db_down E (clock w) = false ->
   db_down E (S (clock w)) = false ->
   forall L,
     find_product id (store w) = Some L ->
     exists history,
       res o = Ok (mkReply 200 (RProduct L history)) /\
       (List.length history <= 90)%nat /\
       StronglySorted not_older history /\
       (forall h, In h history ->
                  In h (price_history (store w)) /\ ph_product_id h = id) /\
       ((List.length (filter (fun h => Nat.eqb (ph_product_id h) id)
                        (price_history (store w))) <= 90)%nat ->
        Permutation history
          (filter (fun h => Nat.eqb (ph_product_id h) id)
                  (price_history (store w))))).
Proof.
  intros o. subst o.
  destruct (db_down E (clock w)) eqn:Hdown0.
  - rewrite (get_product_down E id w Hdown0). cbn [res final store tick].
    split; [reflexivity|]. split; [eauto|]. split; [auto|].
    split; intros; discriminate.
  - destruct (find_product id (store w)) as [L|] eqn:Hfind.
    + rewrite (get_product_found E id w L Hdown0 Hfind).
      destruct (db_down E (S (clock w))); cbn [res final store].
      * split; [reflexivity|]. split; [eauto|]. split; [discriminate|].
        split; [discriminate|]. intros _ Habs. discriminate Habs.
      * split; [reflexivity|]. split; [eauto|]. split; [discriminate|].
        split; [discriminate|]. intros _ _ L' [= <-].
        exists (select_history id (store w)). split; [reflexivity|].
        apply select_history_spec.
    + rewrite (get_product_missing E id w Hdown0 Hfind). cbn [res final store].
      split; [reflexivity|]. split; [eauto|]. split; [discriminate|].
      split; [reflexivity|]. intros _ _ L Habs. discriminate Habs.
Qed.

(** Reading the listing of the scenario. *)
Lemma get_product_answers_witness :
  exists history,
    res (get_product healthy 1 scenario)
    = Ok (mkReply 200 (RProduct (listing1 100) history)) /\
    (List.length history <= 90)%nat.
Proof.
  destruct (proj2 (proj2 (proj2 (proj2 (get_product_answers healthy 1 scenario))))
              eq_refl eq_refl (listing1 100) eq_refl)
    as (history & Hr & Hlen & _).
  exists history. split; [exact Hr | exact Hlen].
Defined.

(* ================================================================== *)
(** * Deleting a product *)
(* ================================================================== *)

Lemma existsb_find_product (id : nat) (d : db) :
  existsb (fun p => Nat.eqb (p_id p) id) (products d) = false <->
  find_product id d = None.
Proof.
  unfold find_product. induction (products d) as [|q l IH]; simpl; [tauto|].
  destruct (Nat.eqb (p_id q) id); simpl; [split; discriminate | exact IH].
Qed.

Lemma delete_product_rows_spec (id : nat) (d : db) :
  find_product id (delete_product_rows id d) = None /\
  (find_product id d = None -> delete_product_rows id d = d) /\
  (forall id', id' <> id ->
     find_product id' (delete_product_rows id d) = find_product id' d).
Proof.
  unfold delete_product_rows.
  destruct (existsb (fun p => Nat.eqb (p_id p) id) (products d)) eqn:Hex.
  - split; [|split].
    + unfold find_product. simpl. clear Hex.
      induction (products d) as [|q l IH]; simpl; [reflexivity|].
      destruct (Nat.eqb (p_id q) id) eqn:Hq; simpl; [exact IH|].
      rewrite Hq. exact IH.
    + intros Hnone. apply existsb_find_product in Hnone. congruence.
    + intros id' Hneq. unfold find_product. simpl. clear Hex.
      induction (products d) as [|q l IH]; simpl; [reflexivity|].
      destruct (Nat.eqb (p_id q) id) eqn:Hq; simpl.
      * destruct (Nat.eqb (p_id q) id') eqn:Hq'; [|exact IH].
        apply Nat.eqb_eq in Hq, Hq'. congruence.
      * destruct (Nat.eqb (p_id q) id'); [reflexivity | exact IH].
  - split; [now apply existsb_find_product | auto].
Qed.

Lemma check_product_missing (E : env) (scrape : string -> M listingData)
    (id : nat) (w : world) :
  db_down E (clock w) = false ->
  find_product id (store w) = None ->
  check_product E scrape id w
  = mkOutcome (Ok (mkResponse 404 (BError "Product not found")))
      (mkWorld (store w) (S (clock w))) [Query (SelectProduct id) true].
Proof.
  intros Hup Hfind. unfold check_product. apply try_catch_run.
  eapply (bind_run _ _ w _ _ _ _ [Query (SelectProduct id) true] []).
  - now apply pool_query_up.
  - cbn [store clock fst snd].
    rewrite (select_product_none id (store w) Hfind). reflexivity.
Qed.

(** X18. Deleting a product always answers; the store reachable, the
    answer is 'Product deleted successfully' whether or not a product has
    that id (there is no 404), and a request for an unknown id changes
    nothing.  After the deletion no product has the id, the other products
    are as before, and a refresh or a read of that id, the store reachable,
    is answered 404.  The store down, the answer is 500 and nothing is
    deleted. *)
Theorem delete_product_answers (E : env) (id : nat) (w : world) :
  let o := delete_product E id w in
  (exists r, res o = Ok r) /\
  (db_down E (clock w) = true ->
   res o = Ok (mkReply 500 (RError "Failed to delete product")) /\
   store (final o) = store w) /\
  (db_down E (clock w) = false ->
   res o = Ok (mkReply 200 (RMessage "Product deleted successfully")) /\
   (find_product id (store w) = None -> store (final o) = store w) /\
   find_product id (store (final o)) = None /\
   (forall id', id' <> id ->
      find_product id' (store (final o)) = find_product id' (store w)) /\
   forall E' scrape,
     db_down E' (clock (final o)) = false ->
     res (check_product E' scrape id (final o))
     = Ok (mkResponse 404 (BError "Product not found")) /\
     res (get_product E' id (final o))
     = Ok (mkReply 404 (RError "Product not found"))).
Proof.
  intros o. subst o.
  destruct (db_down E (clock w)) eqn:Hdown.
  - assert (Hrun : delete_product E id w
                   = mkOutcome (Ok (mkReply 500 (RError "Failed to delete product")))
                       (tick w)
                       ([] ++ [ConsoleError "Error deleting product:" StoreFailure])).
    { unfold delete_product. eapply try_catch_run_Throw.
      - apply bind_run_Throw. now apply pool_query_untraced_down.
      - reflexivity. }
    rewrite Hrun. cbn [res final store tick].
    split; [eauto|]. split; [auto|]. discriminate.
  - assert (Hrun : delete_product E id w
                   = mkOutcome (Ok (mkReply 200 (RMessage "Product deleted successfully")))
                       (mkWorld (delete_product_rows id (store w)) (S (clock w)))
                       ([] ++ [])).
    { unfold delete_product. apply try_catch_run.
      eapply bind_run; [now apply pool_query_untraced_up | reflexivity]. }
    rewrite Hrun. cbn [res final store].
    destruct (delete_product_rows_spec id (store w)) as (Hgone & Hnone & Hothers).
    split; [eauto|]. split; [discriminate|]. intros _.
    split; [reflexivity|]. split; [exact Hnone|]. split; [exact Hgone|].
    split; [exact Hothers|]. intros E' scrape Hup'.
    rewrite (check_product_missing E' scrape id _ Hup' Hgone).
    rewrite (get_product_missing E' id _ Hup' Hgone). auto.
Qed.

(** Deleting the listing of the scenario, then refreshing it. *)
Lemma delete_product_answers_witness :
  res (check_product healthy scrapeFacebookListing 1
         (final (delete_product healthy 1 scenario)))
  = Ok (mkResponse 404 (BError "Product not found")).
Proof.
  destruct (proj2 (proj2 (delete_product_answers healthy 1 scenario)) eq_refl)
    as (_ & _ & _ & _ & Hafter).
  exact (proj1 (Hafter healthy scrapeFacebookListing eq_refl)).
Defined.


(* ================================================================== *)
(** * The server of the source never fires an alert *)
(* ================================================================== *)

Lemma Forall_known_alerts (d : db) :
  Forall (fun a => In a (alerts d) \/ untriggered a) (alerts d).
Proof. apply Forall_forall. auto. Qed.

Lemma composes_shipped : composes shipped.
Proof.
  constructor; unfold shipped.
  - intros w1 e1 w2 e2 w3 H1 H2 Hz.
    destruct (H1 Hz) as (Hz2 & A1 & B1 & C1 & F1).
    destruct (H2 Hz2) as (Hz3 & A2 & B2 & C2 & F2).
    rewrite evaluated_ids_app, notified_ids_app, deactivated_ids_app,
      A1, B1, C1, A2, B2, C2.
    repeat split; try assumption.
    apply Forall_forall. intros a Ha.
    rewrite Forall_forall in F1, F2.
    destruct (F2 a Ha) as [Hin|Hnew]; [now apply F1 | now right].
  - intros w c Hz. cbn. repeat split; try assumption.
    apply Forall_known_alerts.
  - intros w e c He Hz. cbn [store].
    destruct (composes_silent) as [_ _ Hidle].
    destruct (Hidle w e c He) as (A & B & C).
    repeat split; try assumption. apply Forall_known_alerts.
Qed.

(** A statement with a quiet label that keeps the prices at 0 and the alert
    rows as they are or adds a row as created. *)
Lemma shipped_statement {A} (E : env) (q : sql) (run : time -> db -> db * A) :
  quiet_sql q = true ->
  (forall t d, all_zero d -> all_zero (fst (run t d))) ->
  (forall t d, Forall (fun a => In a (alerts d) \/ untriggered a)
                      (alerts (fst (run t d)))) ->
  obeys shipped (pool_query E q run).
Proof.
  intros Hq Hzero Halerts.
  apply obeys_pool_query; [apply composes_shipped | exact Hq |].
  intros w Hz. cbn [store].
  assert (Hs : silent w [Query q true] w).
  { destruct composes_silent as [_ _ Hidle].
    rewrite (world_eta w) at 2. now apply Hidle. }
  destruct Hs as (A1 & B1 & C1). auto 10.
Qed.

Lemma obeys_pool_query_untraced {A} (R : step_rel) (E : env)
    (run : time -> db -> db * A) :
  composes R ->
  (forall w, R w [] (mkWorld (fst (run (clock w) (store w))) (S (clock w)))) ->
  obeys R (pool_query_untraced E run).
Proof.
  intros HR Hrun w. unfold pool_query_untraced.
  destruct (db_down E (clock w)); cbn; [|apply Hrun].
  apply (composes_wait R HR).
Qed.

Lemma all_zero_map (g : product -> product) (d : db) (hs : list history_entry)
    (al : list alert) (n1 n2 n3 : nat) :
  (forall p, p_current_price p = 0 -> p_current_price (g p) = 0) ->
  all_zero d ->
  all_zero (mkDb (map g (products d)) hs al n1 n2 n3).
Proof.
  intros Hg Hz. unfold all_zero in *. simpl.
  apply Forall_forall. intros p Hin. apply in_map_iff in Hin.
  destruct Hin as (p0 & <- & Hin0). rewrite Forall_forall in Hz. auto.
Qed.

Lemma scrapeFacebookListing_price (url : string) (w : world) (ld : listingData) :
  res (scrapeFacebookListing url w) = Ok ld -> ld_price ld = 0.
Proof.
  unfold scrapeFacebookListing, try_catch, bind, throw, ret, console_error.
  destruct (match_item url); cbn; [|discriminate].
  now intros [= <-].
Qed.

Section Shipped.

Variable E : env.

Let HR := composes_shipped.

Lemma select_shipped {A} (q : sql) (f : db -> A) :
  quiet_sql q = true ->
  obeys shipped (pool_query E q (fun _ d => (d, f d))).
Proof.
  intros Hq. apply shipped_statement; [exact Hq | auto |].
  intros t d. simpl. apply Forall_known_alerts.
Qed.

Lemma update_price_shipped (id : nat) :
  obeys shipped (pool_query E (UpdateProductPrice 0 id)
                   (fun now d => (Sql.update_product_price 0 id now d, tt))).
Proof.
  apply shipped_statement; [reflexivity| |].
  - intros t d Hz. cbn [fst]. unfold Sql.update_product_price.
    apply all_zero_map; [|exact Hz].
    intros p Hp. now destruct (Nat.eqb (p_id p) id).
  - intros t d. simpl. apply Forall_known_alerts.
Qed.

Lemma insert_history_shipped (pid : nat) (price : Z) :
  obeys shipped (pool_query E (InsertHistory pid price)
                   (fun now d => (Sql.insert_price_history pid price now d, tt))).
Proof.
  apply shipped_statement; [reflexivity| |].
  - intros t d Hz. exact Hz.
  - intros t d. simpl. apply Forall_known_alerts.
Qed.

(** [ingest] of the price 0 over the stored price 0. *)
Lemma ingest_shipped (id : nat) : obeys shipped (ingest E id 0 0).
Proof.
  unfold ingest. cbn [price_changed Z.eqb negb].
  apply obeys_bind; [exact HR | apply update_price_shipped |].
  intros _. now apply obeys_ret.
Qed.

Lemma refresh_rows_shipped (id : nat) (rows : list product) :
  Forall (fun r => p_current_price r = 0) rows ->
  obeys shipped
    (match rows with
     | [] => ret (mkResponse 404 (BError "Product not found"))
     | row0 :: _ =>
         bind (scrapeFacebookListing (p_marketplace_url row0))
           (fun listingData =>
              bind (ingest E id (p_current_price row0) (ld_price listingData))
                (fun _ => ret (mkResponse 200 (BUpdated (ld_price listingData)))))
     end).
Proof.
  intros Hrows. destruct rows as [|row0 rows]; [now apply obeys_ret|].
  inversion Hrows as [|? ? Hrow0 _]; subst.
  apply (obeys_bind_on shipped HR (fun ld => ld_price ld = 0)).
  - apply (obeys_scrape_with shipped HR (fun _ => 0)).
  - intros w ld. apply scrapeFacebookListing_price.
  - intros ld Hld. rewrite Hrow0, Hld.
    apply obeys_bind; [exact HR | apply ingest_shipped |].
    intros _. now apply obeys_ret.
Qed.

Lemma select_product_zero (id : nat) (d : db) :
  all_zero d -> Forall (fun r => p_current_price r = 0) (Sql.select_product id d).
Proof.
  unfold all_zero, Sql.select_product. intros Hz.
  apply Forall_forall. intros r Hin. apply filter_In in Hin.
  rewrite Forall_forall in Hz. now apply Hz.
Qed.

Lemma check_product_shipped (id : nat) :
  obeys shipped (check_product E scrapeFacebookListing id).
Proof.
  intros w. unfold check_product.
  apply rel_try_catch_at; [exact HR| |].
  - apply rel_bind_at; [exact HR | apply select_shipped; reflexivity |].
    intros rows Hrows Hz.
    assert (Hup : db_down E (clock w) = false).
    { unfold pool_query in Hrows. destruct (db_down E (clock w));
        [discriminate Hrows | reflexivity]. }
    rewrite pool_query_up in Hrows, Hz |- * by exact Hup.
    cbn [res final snd fst store] in Hrows, Hz |- *. injection Hrows as <-.
    apply (refresh_rows_shipped id (Sql.select_product id (store w))
             (select_product_zero id (store w) Hz)
             (mkWorld (store w) (S (clock w))) Hz).
  - intros e. apply obeys_bind; [exact HR | now apply obeys_console_error |].
    intros _. now apply obeys_ret.
Qed.

Lemma for_products_shipped (rows : list product) :
  Forall (fun r => p_current_price r = 0) rows ->
  obeys shipped (for_products E scrapeFacebookListing rows).
Proof.
  induction rows as [|r rest IH]; intros Hrows; cbn [for_products].
  - now apply obeys_ret.
  - inversion Hrows as [|? ? Hr Hrest]; subst.
    apply obeys_bind; [exact HR| |intros _; now apply IH].
    apply obeys_try_catch; [exact HR| |intros e; now apply obeys_console_error].
    apply (obeys_bind_on shipped HR (fun ld => ld_price ld = 0)).
    + apply (obeys_scrape_with shipped HR (fun _ => 0)).
    + intros w ld. apply scrapeFacebookListing_price.
    + intros ld Hld. rewrite Hr, Hld.
      apply obeys_bind; [exact HR | apply ingest_shipped |].
      intros _. now apply obeys_delay.
Qed.

Lemma price_check_shipped : obeys shipped (price_check E scrapeFacebookListing).
Proof.
  intros w. apply price_check_rel; [exact HR | |].
  - intros w' _. now apply (composes_idle shipped HR).
  - intros w' Hsame Hz. apply for_products_shipped; [|exact Hz].
    rewrite <- Hsame. unfold all_zero, Sql.select_active_products in *.
    apply Forall_forall. intros r Hin. apply filter_In in Hin.
    rewrite Forall_forall in Hz. now apply Hz.
Qed.

Lemma add_product_shipped (req : add_request) :
  obeys shipped (add_product E scrapeFacebookListing req).
Proof.
  unfold add_product. apply obeys_try_catch; [exact HR| |].
  - destruct (negb (truthy_string (marketplace_url req))); [now apply obeys_ret|].
    apply (obeys_bind_on shipped HR (fun ld => ld_price ld = 0)).
    + apply (obeys_scrape_with shipped HR (fun _ => 0)).
    + intros w ld. apply scrapeFacebookListing_price.
    + intros ld Hld. rewrite Hld.
      apply obeys_bind; [exact HR | apply select_shipped; reflexivity |].
      intros existing. apply obeys_bind; [exact HR| |].
      { destruct existing as [|id0 ids].
        - apply obeys_bind; [exact HR| |intros; now apply obeys_ret].
          apply shipped_statement; [reflexivity| |].
          + intros t d Hz. unfold all_zero in *. cbn.
            apply Forall_app. split; [exact Hz|]. repeat constructor. exact Hld.
          + intros t d. simpl. apply Forall_known_alerts.
        - apply obeys_bind; [exact HR| |intros; now apply obeys_ret].
          apply shipped_statement; [reflexivity| |].
          + intros t d Hz. cbn [fst]. unfold Sql.update_product_tracked.
            apply all_zero_map; [|exact Hz].
            intros p Hp. now destruct (Nat.eqb (p_id p) id0).
          + intros t d. simpl. apply Forall_known_alerts. }
      intros productId.
      apply obeys_bind; [exact HR | apply insert_history_shipped |]. intros _.
      apply obeys_bind; [exact HR| |].
      { destruct (truthy_string (user_email req) && truthy_number (target_price req))%bool;
          [|now apply obeys_ret].
        apply shipped_statement; [reflexivity| |].
        - intros t d Hz. exact Hz.
        - intros t d. cbn. apply Forall_app. split.
          + apply Forall_known_alerts.
          + constructor; [right; split; reflexivity | constructor]. }
      intros _.
      apply obeys_bind; [exact HR | apply select_shipped; reflexivity |].
      intros product. now apply obeys_ret.
  - intros e. apply obeys_bind; [exact HR | now apply obeys_console_error |].
    intros _. now apply obeys_ret.
Qed.

Lemma get_product_shipped (id : nat) : obeys shipped (get_product E id).
Proof.
  unfold get_product. apply obeys_try_catch; [exact HR| |].
  - apply obeys_bind; [exact HR | apply select_shipped; reflexivity |].
    intros [|row0 rows]; [now apply obeys_ret|].
    apply obeys_bind; [exact HR| |intros; now apply obeys_ret].
    apply obeys_pool_query_untraced; [exact HR|].
    intros w. cbn [fst]. apply (composes_wait shipped HR).
  - intros e. apply obeys_bind; [exact HR | now apply obeys_console_error |].
    intros _. now apply obeys_ret.
Qed.

Lemma delete_product_shipped (id : nat) : obeys shipped (delete_product E id).
Proof.
  unfold delete_product. apply obeys_try_catch; [exact HR| |].
  - apply obeys_bind; [exact HR| |intros; now apply obeys_ret].
    apply obeys_pool_query_untraced; [exact HR|].
    intros w Hz. cbn [fst store]. unfold delete_product_rows.
    destruct (existsb (fun p => Nat.eqb (p_id p) id) (products (store w))).
    + repeat split; try reflexivity.
      * unfold all_zero in *. cbn. apply Forall_forall. intros p Hin.
        apply filter_In in Hin. rewrite Forall_forall in Hz. now apply Hz.
      * cbn. apply Forall_forall. intros a Hin.
        apply filter_In in Hin. left. tauto.
    + repeat split; try reflexivity; [exact Hz | apply Forall_known_alerts].
  - intros e. apply obeys_bind; [exact HR | now apply obeys_console_error |].
    intros _. now apply obeys_ret.
Qed.

Lemma serve_shipped (r : request) : obeys shipped (serve E r).
Proof.
  destruct r as [req|id|id|id|]; cbn [serve].
  - apply obeys_bind; [exact HR | apply add_product_shipped |].
    intros; now apply obeys_ret.
  - apply obeys_bind; [exact HR | apply check_product_shipped |].
    intros; now apply obeys_ret.
  - apply obeys_bind; [exact HR | apply get_product_shipped |].
    intros; now apply obeys_ret.
  - apply obeys_bind; [exact HR | apply delete_product_shipped |].
    intros; now apply obeys_ret.
  - apply price_check_shipped.
Qed.

Lemma serve_all_shipped (rs : list request) : obeys shipped (serve_all E rs).
Proof.
  induction rs as [|r rest IH]; cbn [serve_all]; [now apply obeys_ret|].
  apply obeys_bind; [exact HR | apply serve_shipped | intros _; exact IH].
Qed.

End Shipped.

(** X19. The server as the source has it, whose scraper reports the price 0
    for every listing, can never fire an alert.  From a store in which every
    product has the price 0 (the empty store is one), after any sequence of
    tracking requests, refreshes, reads, deletions and runs of the hourly
    job, in every environment: every product still has the price 0, no
    alert was ever loaded for evaluation, handed to the notifier or
    deactivated, and every alert in the store is a row of the initial store
    or a row as it was created, active with no triggered timestamp. *)
Theorem shipped_server_never_fires (E : env) (rs : list request) (w : world) :
  all_zero (store w) ->
  let o := serve_all E rs w in
  all_zero (store (final o)) /\
  evaluated_ids (emitted o) = [] /\
  notified_ids (emitted o) = [] /\
  deactivated_ids (emitted o) = [] /\
  Forall (fun a => In a (alerts (store w)) \/
                   (a_is_active a = true /\ a_triggered_at a = None))
         (alerts (store (final o))).
Proof.
  intros Hz o. exact (serve_all_shipped E rs w Hz).
Qed.

Lemma shipped_server_never_fires_witness :
  notified_ids (emitted (serve_all healthy a_day_of_requests
                           (mkWorld empty_db 0%nat))) = [] /\
  Forall (fun a => In a (alerts empty_db) \/
                   (a_is_active a = true /\ a_triggered_at a = None))
         (alerts (store (final (serve_all healthy a_day_of_requests
                                  (mkWorld empty_db 0%nat))))).
Proof.
  assert (Hz : all_zero (store (mkWorld empty_db 0%nat))) by constructor.
  destruct (shipped_server_never_fires healthy a_day_of_requests
              (mkWorld empty_db 0%nat) Hz) as (_ & _ & Hn & _ & Ha).
  split; [exact Hn | exact Ha].
Defined.


(* ================================================================== *)
(** * Tables that only grow *)
(* ================================================================== *)

Lemma composes_grows : composes grows.
Proof.
  constructor; unfold grows.
  - intros w1 e1 w2 e2 w3 ((h1 & H1) & (p1 & P1)) ((h2 & H2) & (p2 & P2)).
    split.
    + exists (h1 ++ h2). now rewrite H2, H1, app_assoc.
    + exists (p1 ++ p2). now rewrite P2, P1, app_assoc.
  - intros w c. cbn. split; exists []; now rewrite app_nil_r.
  - intros w e c _. cbn. split; exists []; now rewrite app_nil_r.
Qed.

Lemma grows_statement {A} (E : env) (q : sql) (run : time -> db -> db * A) :
  quiet_sql q = true ->
  (forall t d,
     (exists new, price_history (fst (run t d)) = price_history d ++ new) /\
     (exists new, map p_id (products (fst (run t d))) = map p_id (products d) ++ new)) ->
  obeys grows (pool_query E q run).
Proof.
  intros Hq Hrun. apply obeys_pool_query; [apply composes_grows | exact Hq |].
  intros w. apply Hrun.
Qed.

Lemma grows_same (d d' : db) :
  price_history d' = price_history d ->
  map p_id (products d') = map p_id (products d) ->
  (exists new, price_history d' = price_history d ++ new) /\
  (exists new, map p_id (products d') = map p_id (products d) ++ new).
Proof.
  intros -> ->. split; exists []; now rewrite app_nil_r.
Qed.

Lemma map_id_update (g : product -> product) (l : list product) :
  (forall p, p_id (g p) = p_id p) -> map p_id (map g l) = map p_id l.
Proof. intros Hg. rewrite map_map. now apply map_ext. Qed.

Section Grows.

Variable E : env.

Let HR := composes_grows.

Lemma grows_select {A} (q : sql) (f : db -> A) :
  quiet_sql q = true -> obeys grows (pool_query E q (fun _ d => (d, f d))).
Proof.
  intros Hq. apply grows_statement; [exact Hq|].
  intros t d. now apply grows_same.
Qed.

Lemma grows_insert_history (pid : nat) (price : Z) :
  obeys grows (pool_query E (InsertHistory pid price)
                 (fun now d => (Sql.insert_price_history pid price now d, tt))).
Proof.
  apply grows_statement; [reflexivity|]. intros t d. cbn. split.
  - eauto.
  - exists []. now rewrite app_nil_r.
Qed.

Lemma grows_checkAlerts (pid : nat) (p : Z) : obeys grows (checkAlerts E pid p).
Proof.
  intros w. destruct (checkAlerts_frame E pid p w) as (Hp & Hh).
  apply grows_same; [exact Hh | now rewrite Hp].
Qed.

Lemma grows_ingest (id : nat) (stored observed : Z) :
  obeys grows (ingest E id stored observed).
Proof.
  unfold ingest. apply obeys_bind; [exact HR| |].
  - apply grows_statement; [reflexivity|]. intros t d. cbn [fst].
    apply grows_same; [reflexivity|]. unfold Sql.update_product_price. cbn.
    apply map_id_update. intros p. now destruct (Nat.eqb (p_id p) id).
  - intros _. destruct (price_changed observed stored); [|now apply obeys_ret].
    apply obeys_bind; [exact HR | apply grows_insert_history |].
    intros _. apply grows_checkAlerts.
Qed.

Lemma grows_check_product (page : string -> Z) (id : nat) :
  obeys grows (check_product E (scrape_with page) id).
Proof.
  unfold check_product. apply obeys_try_catch; [exact HR| |].
  - apply obeys_bind; [exact HR | apply grows_select; reflexivity |].
    intros [|row0 rows]; [now apply obeys_ret|].
    apply obeys_bind; [exact HR | now apply obeys_scrape_with |]. intros ld.
    apply obeys_bind; [exact HR | apply grows_ingest |].
    intros _. now apply obeys_ret.
  - intros e. apply obeys_bind; [exact HR | now apply obeys_console_error |].
    intros _. now apply obeys_ret.
Qed.

Lemma grows_for_products (page : string -> Z) (rows : list product) :
  obeys grows (for_products E (scrape_with page) rows).
Proof.
  induction rows as [|r rest IH]; cbn [for_products]; [now apply obeys_ret|].
  apply obeys_bind; [exact HR| |intros _; exact IH].
  apply obeys_try_catch; [exact HR| |intros e; now apply obeys_console_error].
  apply obeys_bind; [exact HR | now apply obeys_scrape_with |]. intros ld.
  apply obeys_bind; [exact HR | apply grows_ingest |].
  intros _. now apply obeys_delay.
Qed.

Lemma grows_price_check (page : string -> Z) :
  obeys grows (price_check E (scrape_with page)).
Proof.
  unfold price_check.
  apply obeys_bind; [exact HR | now apply obeys_console_log |]. intros _.
  apply obeys_try_catch; [exact HR| |intros e; now apply obeys_console_error].
  apply obeys_bind; [exact HR | apply grows_select; reflexivity |]. intros rows.
  apply obeys_bind; [exact HR | apply grows_for_products |].
  intros _. now apply obeys_console_log.
Qed.

Lemma grows_add_product (page : string -> Z) (req : add_request) :
  obeys grows (add_product E (scrape_with page) req).
Proof.
  unfold add_product. apply obeys_try_catch; [exact HR| |].
  - destruct (negb (truthy_string (marketplace_url req))); [now apply obeys_ret|].
    apply obeys_bind; [exact HR | now apply obeys_scrape_with |]. intros ld.
    apply obeys_bind; [exact HR | apply grows_select; reflexivity |].
    intros existing. apply obeys_bind; [exact HR| |].
    { destruct existing as [|id0 ids].
      - apply obeys_bind; [exact HR| |intros; now apply obeys_ret].
        apply grows_statement; [reflexivity|]. intros t d. cbn. split.
        + exists []. now rewrite app_nil_r.
        + rewrite map_app. eauto.
      - apply obeys_bind; [exact HR| |intros; now apply obeys_ret].
        apply grows_statement; [reflexivity|]. intros t d. cbn [fst].
        apply grows_same; [reflexivity|]. unfold Sql.update_product_tracked. cbn.
        apply map_id_update. intros p. now destruct (Nat.eqb (p_id p) id0). }
    intros productId.
    apply obeys_bind; [exact HR | apply grows_insert_history |]. intros _.
    apply obeys_bind; [exact HR| |].
    { destruct (truthy_string (user_email req) && truthy_number (target_price req))%bool;
        [|now apply obeys_ret].
      apply grows_statement; [reflexivity|]. intros t d.
      now apply grows_same. }
    intros _.
    apply obeys_bind; [exact HR | apply grows_select; reflexivity |].
    intros product. now apply obeys_ret.
  - intros e. apply obeys_bind; [exact HR | now apply obeys_console_error |].
    intros _. now apply obeys_ret.
Qed.

Lemma grows_run_ops (os : list op) : obeys grows (run_ops E os).
Proof.
  induction os as [|o rest IH]; cbn [run_ops]; [now apply obeys_ret|].
  apply obeys_bind; [exact HR| |intros _; exact IH].
  destruct o as [page req|page id|page|pid p]; cbn [run_op].
  - apply obeys_bind; [exact HR | apply grows_add_product |].
    intros; now apply obeys_ret.
  - apply obeys_bind; [exact HR | apply grows_check_product |].
    intros; now apply obeys_ret.
  - apply grows_price_check.
  - apply grows_checkAlerts.
Qed.

End Grows.

(** X20. The price history is append-only and products are never removed
    or renumbered by tracking, refreshing, the hourly job or an evaluation:
    after any sequence of these operations, whatever the pages show and
    whatever fails, the history of before is a prefix of the history and
    the product ids of before are a prefix of the product ids. *)
Theorem history_is_append_only (E : env) (os : list op) (w : world) :
  let o := run_ops E os w in
  (exists new,
     price_history (store (final o)) = price_history (store w) ++ new) /\
  (exists new,
     map p_id (products (store (final o)))
     = map p_id (products (store w)) ++ new).
Proof. intros o. exact (grows_run_ops E os w). Qed.


(* ================================================================== *)
(** * A run of the hourly job with nothing failing *)
(* ================================================================== *)

Section Sweep.

Variable E : env.
Variable page : string -> Z.
Hypothesis up : forall t, db_down E t = false.

(** One iteration on a row whose URL matches: [ingest], then the delay. *)
Lemma iteration_up (r : product) (w : world) :
  match_item (p_marketplace_url r) <> None ->
  let oi := ingest E (p_id r) (p_current_price r) (page (p_marketplace_url r)) w in
  try_catch
    (bind (scrape_with page (p_marketplace_url r))
       (fun listingData =>
          bind (ingest E (p_id r) (p_current_price r) (ld_price listingData))
               (fun _ => delay 2000)))
    (fun error =>
       console_error
         ("Error checking product " ++ string_of_nat (p_id r) ++ ":")%string
         error) w
  = mkOutcome (Ok tt) (mkWorld (store (final oi)) (clock (final oi) + 2000)%nat)
              (emitted oi).
Proof.
  intros Hurl oi.
  destruct (match_item (p_marketplace_url r)) as [lid|] eqn:Hm; [|congruence].
  destruct (ingest_up E (p_id r) (p_current_price r)
              (page (p_marketplace_url r)) w up) as (Hres & _).
  apply try_catch_run.
  replace (emitted oi) with ([] ++ emitted oi ++ []) by now rewrite app_nil_r.
  eapply bind_run.
  - apply (scrape_with_valid _ _ lid). exact Hm.
  - cbn [ld_price]. eapply bind_run.
    + fold oi. rewrite (outcome_eta oi). fold oi in Hres. rewrite Hres. reflexivity.
    + reflexivity.
Qed.

Lemma for_products_up (rows : list product) :
  forall w,
    NoDup (map p_id rows) ->
    Forall (fun r => match_item (p_marketplace_url r) <> None) rows ->
    Forall (fun r => find_product (p_id r) (store w) <> None) rows ->
    let o := for_products E (scrape_with page) rows w in
    (forall r, In r rows ->
               stored_price (p_id r) (store (final o))
               = Some (page (p_marketplace_url r))) /\
    evaluated_ids (emitted o) = map p_id (moved page rows) /\
    map recorded (price_history (store (final o)))
    = map recorded (price_history (store w))
      ++ map (fun r => (p_id r, page (p_marketplace_url r))) (moved page rows).
Proof.
  induction rows as [|r rest IH]; intros w Hnd Hurl Hex o; subst o.
  - cbn. split; [intros r []|]. split; [reflexivity | now rewrite app_nil_r].
  - inversion Hnd as [|? ? Hfresh Hnd']; subst.
    inversion Hurl as [|? ? Hr Hurl']; subst.
    inversion Hex as [|? ? Hfound Hex']; subst.
    set (p := page (p_marketplace_url r)).
    set (oi := ingest E (p_id r) (p_current_price r) p w).
    set (w1 := mkWorld (store (final oi)) (clock (final oi) + 2000)%nat).
    pose proof (iteration_up r w Hr) as Hit. cbv zeta in Hit. fold p oi w1 in Hit.
    destruct (ingest_up E (p_id r) (p_current_price r) p w up)
      as (_ & Hprod & Hsame & Hchg). fold oi in Hprod, Hsame, Hchg.
    assert (Hothers : Forall (fun r' => p_id r' <> p_id r) rest).
    { apply Forall_forall. intros r' Hin Heq. apply Hfresh.
      rewrite <- Heq. now apply in_map. }
    assert (Hex1 : Forall (fun r' => find_product (p_id r') (store w1) <> None) rest).
    { rewrite Forall_forall in Hex', Hothers |- *. intros r' Hin.
      assert (Hne : p_id r <> p_id r') by (intro Heq; now apply (Hothers r' Hin)).
      destruct (ingest_skips E (p_id r') (p_id r) (p_current_price r) p Hne w)
        as (Hsk & _).
      fold oi in Hsk. cbn [w1 store]. rewrite Hsk. now apply Hex'. }
    destruct (IH w1 Hnd' Hurl' Hex1) as (IHp & IHe & IHh).
    set (o2 := for_products E (scrape_with page) rest w1) in *.
    assert (Hall : for_products E (scrape_with page) (r :: rest) w
                   = mkOutcome (res o2) (final o2) (emitted oi ++ emitted o2)).
    { cbn [for_products]. eapply bind_run; [exact Hit | apply outcome_eta]. }
    rewrite Hall. cbn [final emitted].
    split; [|split].
    + intros r' [<-|Hin]; [|now apply IHp].
      destruct (for_products_skips E page (p_id r) rest Hothers w1) as (Hsk & _).
      fold o2 in Hsk. unfold stored_price. rewrite Hsk.
      unfold find_product at 1. cbn [w1 store]. rewrite Hprod.
      destruct (find_product (p_id r) (store w)) as [L|] eqn:HL; [|congruence].
      pose proof (find_product_update p (p_id r) (clock w) (store w) L HL) as Hup.
      unfold find_product in Hup at 1. rewrite Hup. reflexivity.
    + rewrite evaluated_ids_app, IHe. unfold moved. cbn [filter]. fold p.
      destruct (price_changed p (p_current_price r)) eqn:Hc.
      * now rewrite (proj2 (Hchg eq_refl)).
      * now rewrite (proj2 (Hsame eq_refl)).
    + rewrite IHh. cbn [w1 store]. unfold moved. cbn [filter]. fold p.
      destruct (price_changed p (p_current_price r)) eqn:Hc.
      * rewrite (proj1 (Hchg eq_refl)), map_app. cbn. now rewrite <- app_assoc.
      * now rewrite (proj1 (Hsame eq_refl)).
Qed.

(** The job when the snapshot is loaded: what is left is the loop. *)
Lemma price_check_up (w : world) :
  let rows := Sql.select_active_products (store w) in
  let o := for_products E (scrape_with page) rows (tick w) in
  price_check E (scrape_with page) w
  = mkOutcome (Ok tt) (final o)
      ([ConsoleLog "Running scheduled price check..."]
       ++ ([Query SelectActiveProducts true]
           ++ emitted o ++ [ConsoleLog "Price check completed"])).
Proof.
  intros rows o. unfold price_check.
  eapply bind_run; [reflexivity|].
  apply try_catch_run.
  eapply bind_run; [apply pool_query_up; apply up|].
  cbn [snd fst]. eapply bind_run.
  - fold rows. change (mkWorld (store w) (S (clock w))) with (tick w). fold o.
    rewrite (outcome_eta o). subst o. rewrite for_products_returns. reflexivity.
  - reflexivity.
Qed.

End Sweep.

(** X21. A run of the hourly job in which nothing fails refreshes every
    active listing.  With the store reachable, the ids of the products
    distinct and the URL of every active listing accepted by the scraper:
    afterwards every active listing carries the price its page shows; the
    alerts evaluated are those of the active listings whose page shows
    another price than the row had, once each and in the order of the rows;
    and the history gains one row (product, new price) for each of these
    and nothing else. *)
Theorem hourly_job_refreshes_active_listings (E : env) (page : string -> Z)
    (w : world) :
  (forall t, db_down E t = false) ->
  NoDup (map p_id (products (store w))) ->
  (forall r, In r (products (store w)) -> p_status r = "active"%string ->
             match_item (p_marketplace_url r) <> None) ->
  let rows := Sql.select_active_products (store w) in
  let o := price_check E (scrape_with page) w in
  (forall r, In r (products (store w)) -> p_status r = "active"%string ->
             stored_price (p_id r) (store (final o))
             = Some (page (p_marketplace_url r))) /\
  evaluated_ids (emitted o) = map p_id (moved page rows) /\
  map recorded (price_history (store (final o)))
  = map recorded (price_history (store w))
    ++ map (fun r => (p_id r, page (p_marketplace_url r))) (moved page rows).
Proof.
  intros Hup Hnd Hurl rows o. subst o.
  rewrite (price_check_up E page Hup w). cbn [final emitted].
  assert (Hrows : forall r, In r rows <->
                            In r (products (store w)) /\ p_status r = "active"%string).
  { intros r. unfold rows, Sql.select_active_products.
    rewrite filter_In, String.eqb_eq. reflexivity. }
  destruct (for_products_up E page Hup rows (tick w)) as (Hp & He & Hh).
  - unfold rows, Sql.select_active_products. now apply NoDup_map_filter.
  - apply Forall_forall. intros r Hin. apply Hrows in Hin. now apply Hurl.
  - apply Forall_forall. intros r Hin. apply Hrows in Hin. destruct Hin as [Hin _].
    cbn [tick store].
    pose proof (find_key_In p_id (products (store w)) r Hnd Hin) as Hf.
    unfold find_product. congruence.
  - split; [|split].
    + intros r Hin Hact. apply Hp. apply Hrows. auto.
    + rewrite !evaluated_ids_app. cbn. rewrite app_nil_r. exact He.
    + exact Hh.
Qed.

(** Two active listings; the page of each shows 100, which moves only the
    second. *)
Lemma hourly_job_refreshes_active_listings_witness :
  stored_price 2
    (store (final (price_check healthy (scrape_with (fun _ => 100)) two_listings)))
  = Some 100 /\
  evaluated_ids (emitted (price_check healthy (scrape_with (fun _ => 100))
                            two_listings))
  = [2%nat].
Proof.
  assert (Hup : forall t, db_down healthy t = false) by reflexivity.
  assert (Hnd : NoDup (map p_id (products (store two_listings)))).
  { simpl. repeat constructor; simpl; intuition discriminate. }
  assert (Hurl : forall r, In r (products (store two_listings)) ->
                           p_status r = "active"%string ->
                           match_item (p_marketplace_url r) <> None).
  { intros r [<-|[<-|[]]] _; vm_compute; discriminate. }
  destruct (hourly_job_refreshes_active_listings healthy (fun _ => 100)
              two_listings Hup Hnd Hurl) as (Hp & He & _).
  split.
  - apply (Hp (mkProduct 2 "Product from Marketplace" "Tracked item" 50 ""
                         "Location TBD" "Seller TBD" "42"
                         "https://fb.com/marketplace/item/42" "active" None)).
    + simpl. auto.
    + reflexivity.
  - exact He.
Defined.


(* ================================================================== *)
(** * From a refresh to the notifications *)
(* ================================================================== *)

Lemma firing_rows_ids (pid : nat) (p : Z) (d : db) (pr : product) :
  NoDup (map p_id (products d)) ->
  find_product pid d = Some pr ->
  map ar_id (filter (firing p) (Sql.select_active_alerts pid d))
  = map a_id (filter (due pid p) (alerts d)).
Proof.
  intros Hnd Hf. unfold Sql.select_active_alerts, due.
  induction (alerts d) as [|a l IH]; simpl; [reflexivity|].
  destruct (Nat.eqb (a_product_id a) pid && a_is_active a)%bool eqn:Hc;
    [|exact IH].
  simpl. rewrite filter_app, map_app, IH.
  apply andb_true_iff in Hc. destruct Hc as [Hpid _].
  apply Nat.eqb_eq in Hpid. subst pid.
  rewrite (filter_key_unique p_id (products d) (a_product_id a) pr Hnd Hf).
  cbn [map filter]. unfold firing, ar_target_price. cbn [ar_alert].
  now destruct (p <=? a_target_price a).
Qed.

Lemma same_key_same_row {A} (key : A -> nat) (l : list A) (x y : A) :
  NoDup (map key l) -> In x l -> In y l -> key x = key y -> x = y.
Proof.
  intros Hnd Hx Hy Hk.
  pose proof (find_key_In key l x Hnd Hx) as Fx.
  pose proof (find_key_In key l y Hnd Hy) as Fy.
  rewrite Hk in Fx. congruence.
Qed.

(** X22. From a refresh to the notifications.  A manual refresh of an
    existing listing, with the store reachable, that observes a price p
    other than the stored one hands to the notifier exactly the alerts of
    the listing that are active and have p <= target, each once, and
    deactivates exactly these; every other alert row of the table is as
    before.  A refresh that observes the stored price notifies nobody and
    leaves the alerts alone, even those whose target the price has already
    reached. *)
Theorem refresh_notifies_price_drops (E : env) (p : Z) (id : nat) (w : world)
    (L : product) (lid : string) :
  (forall t, db_down E t = false) ->
  wf_db (store w) ->
  find_product id (store w) = Some L ->
  match_item (p_marketplace_url L) = Some lid ->
  let o := check_product E (observing p) id w in
  (price_changed p (p_current_price L) = true ->
   notified_ids (emitted o) = map a_id (filter (due id p) (alerts (store w))) /\
   deactivated_ids (emitted o) = map a_id (filter (due id p) (alerts (store w))) /\
   NoDup (notified_ids (emitted o)) /\
   forall a, In a (alerts (store w)) ->
     if due id p a
     then exists t, (clock w < t)%nat /\
            find_alert (a_id a) (store (final o)) = Some (Sql.deactivate t a)
     else find_alert (a_id a) (store (final o)) = Some a) /\
  (price_changed p (p_current_price L) = false ->
   notified_ids (emitted o) = [] /\
   alerts (store (final o)) = alerts (store w)).
Proof.
  intros Hup Hwf Hfind Hurl o. split.
  - intros Hchg.
    destruct (check_product_run E p id w L lid (Hup _) Hfind Hurl) as (Hf & _ & He).
    fold o in Hf, He.
    set (w1 := mkWorld (store w) (S (clock w))) in *.
    destruct (ingest_changed E id (p_current_price L) p w1 Hchg (Hup _) (Hup _))
      as (Ir & If & Ie).
    cbn [store clock w1] in If, Ie.
    set (d2 := Sql.insert_price_history id p (S (S (clock w)))
                 (Sql.update_product_price p id (S (clock w)) (store w))) in *.
    set (w2 := mkWorld d2 (S (S (S (clock w))))) in *.
    destruct (checkAlerts_up E id p w2 Hup) as (_ & Cf & Cn & Cd & _).
    cbn [store clock w2] in Cf, Cn, Cd.
    set (rows := Sql.select_active_alerts id d2) in *.
    assert (Hal : alerts d2 = alerts (store w)) by reflexivity.
    assert (Hwf2 : wf_db d2).
    { unfold d2.
      apply (proj2 (proj2 (keeps_insert_price_history id p _ _))).
      apply (proj2 (proj2 (keeps_update_product_price p id _ _))). exact Hwf. }
    assert (Hfind2 : find_product id d2 = Some (Sql.set_price p (S (clock w)) L)).
    { exact (find_product_update p id (S (clock w)) (store w) L Hfind). }
    assert (Hids : map ar_id (filter (firing p) rows)
                   = map a_id (filter (due id p) (alerts (store w)))).
    { unfold rows. rewrite <- Hal.
      apply (firing_rows_ids id p d2 _ (proj1 Hwf2) Hfind2). }
    assert (Hno : notified_ids (emitted o)
                  = map a_id (filter (due id p) (alerts (store w)))).
    { rewrite He, Ir, Ie, app_nil_r.
      change (notified_ids
                ([Query (SelectProduct id) true;
                  Query (UpdateProductPrice p id) true;
                  Query (InsertHistory id p) true]
                 ++ emitted (checkAlerts E id p w2)) = 
              map a_id (filter (due id p) (alerts (store w)))).
      rewrite notified_ids_app, Cn. exact Hids. }
    destruct Hwf as (_ & Hnda & _).
    split; [exact Hno|]. split; [|split].
    + rewrite He, Ir, Ie, app_nil_r.
      change (deactivated_ids
                ([Query (SelectProduct id) true;
                  Query (UpdateProductPrice p id) true;
                  Query (InsertHistory id p) true]
                 ++ emitted (checkAlerts E id p w2)) = 
              map a_id (filter (due id p) (alerts (store w)))).
      rewrite deactivated_ids_app, Cd. exact Hids.
    + rewrite Hno. now apply NoDup_map_filter.
    + intros a Hin. rewrite Hf, If, Cf. cbn [store].
      assert (Hfa : find_alert (a_id a) d2 = Some a).
      { unfold find_alert. rewrite Hal.
        exact (find_key_In a_id (alerts (store w)) a Hnda Hin). }
      destruct (due id p a) eqn:Hdue.
      * assert (Hnames : existsb (names p (a_id a)) rows = true).
        { apply names_In. rewrite Hids. apply in_map. apply filter_In. auto. }
        destruct (fired_store_hit rows p (a_id a) Hnames
                    (S (S (S (S (clock w))))) d2 a Hfa) as (t & Ht & Hhit).
        exists t. split; [lia | exact Hhit].
      * rewrite fired_store_other; [exact Hfa|].
        intros r Hr Hfire Heq.
        assert (Hin' : In (a_id a) (map a_id (filter (due id p) (alerts (store w))))).
        { rewrite <- Hids, <- Heq. apply in_map. apply filter_In. auto. }
        apply in_map_iff in Hin'. destruct Hin' as (a' & Hid' & Hin').
        apply filter_In in Hin'. destruct Hin' as [Hin' Hdue'].
        rewrite (same_key_same_row a_id _ a' a Hnda Hin' Hin Hid') in Hdue'.
        congruence.
  - intros Hsame.
    destruct (check_product_up E p id w L lid Hup Hfind Hurl)
      as (_ & _ & Hs & _).
    destruct (Hs Hsame) as (_ & Ha & _ & Hn). auto.
Qed.

(** The scenario: the listing at 100 with an alert at 90, refreshed at 90. *)
Lemma refresh_notifies_price_drops_witness :
  notified_ids (emitted (check_product healthy (observing 90) 1 scenario)) = [1%nat].
Proof.
  assert (Hup : forall t, db_down healthy t = false) by reflexivity.
  exact (proj1 (proj1 (refresh_notifies_price_drops healthy 90 1 scenario
                         (listing1 100) "1234567" Hup wf_scenario
                         eq_refl eq_refl) eq_refl)).
Defined.


(* ================================================================== *)
(** * Tracking a listing again *)
(* ================================================================== *)

Lemma select_by_listing_tracked (lid : string) (price : Z) (id : nat) (t : time)
    (d : db) :
  Sql.select_by_listing lid (Sql.update_product_tracked price id t d)
  = Sql.select_by_listing lid d.
Proof.
  unfold Sql.select_by_listing, Sql.update_product_tracked. cbn [products].
  induction (products d) as [|q l IH]; cbn [map filter]; [reflexivity|].
  assert (Hq : p_listing_id (if Nat.eqb (p_id q) id
                             then Sql.set_tracked price t q else q)
               = p_listing_id q /\
               p_id (if Nat.eqb (p_id q) id then Sql.set_tracked price t q else q)
               = p_id q).
  { now destruct (Nat.eqb (p_id q) id). }
  destruct Hq as (Hl & Hi). rewrite Hl.
  destruct (String.eqb (p_listing_id q) lid); cbn [map]; now rewrite ?Hi, IH.
Qed.

Section Again.

Variable E : env.
Hypothesis up : forall t, db_down E t = false.

Ltac statement_then :=
  eapply bind_run;
  [ apply pool_query_up; apply up
  | cbn [store clock fst snd Sql.insert_product p_id Sql.new_product] ].

(** The handler with a URL the scraper accepts, an email and a target, when
    no statement fails: the alert is for the product [tracked_id], which is
    afterwards the first row with the listing id. *)
Lemma add_product_tracks (page : string -> Z) (w : world)
    (url lid email : string) (target : Z) :
  match_item url = Some lid ->
  email <> EmptyString ->
  target <> 0 ->
  let o := add_product E (scrape_with page)
             (mkAddRequest (Some url) (Some email) (Some target)) w in
  alerts (store (final o))
  = alerts (store w)
    ++ [mkAlert (next_alert_id (store w)) (tracked_id lid (store w)) email target
                "price_drop" true None] /\
  next_alert_id (store (final o)) = S (next_alert_id (store w)) /\
  tracked_id lid (store (final o)) = tracked_id lid (store w).
Proof.
  intros Hurl Hemail Htarget o. subst o.
  assert (Hu : truthy_string (Some url) = true).
  { destruct url; [discriminate Hurl | reflexivity]. }
  assert (He : truthy_string (Some email) = true).
  { destruct email; [congruence | reflexivity]. }
  assert (Ht : truthy_number (Some target) = true).
  { simpl. now rewrite (proj2 (Z.eqb_neq _ _) Htarget). }
  unfold tracked_id at 1 3.
  destruct (Sql.select_by_listing lid (store w)) as [|id0 ids] eqn:Hsel.
  - assert (Hrun : exists r wf evs,
              add_product E (scrape_with page)
                (mkAddRequest (Some url) (Some email) (Some target)) w
              = mkOutcome (Ok r) wf evs /\
              alerts (store wf)
              = alerts (store w)
                ++ [mkAlert (next_alert_id (store w)) (next_product_id (store w))
                            email target "price_drop" true None] /\
              next_alert_id (store wf) = S (next_alert_id (store w)) /\
              products (store wf)
              = products (store w)
                ++ [mkProduct (next_product_id (store w)) "Product from Marketplace"
                      "Tracked item" (page url) "" "Location TBD" "Seller TBD"
                      lid url "active" None]).
    { unfold add_product.
      cbn [marketplace_url user_email target_price string_or_empty number_or_zero].
      rewrite Hu, He, Ht. cbn [negb andb].
      eexists _, _, _. split.
      + apply try_catch_run.
        eapply bind_run; [apply (scrape_with_valid _ _ lid); exact Hurl|].
        cbn [ld_price ld_listing_id].
        statement_then. rewrite Hsel.
        eapply bind_run.
        { statement_then. reflexivity. }
        statement_then. statement_then. statement_then.
        reflexivity.
      + repeat split; reflexivity. }
    destruct Hrun as (r & wf & evs & Hrun & Hal & Hnext & Hprod).
    rewrite Hrun. cbn [final]. split; [exact Hal|]. split; [exact Hnext|].
    unfold tracked_id, Sql.select_by_listing. rewrite Hprod, filter_app, map_app.
    unfold Sql.select_by_listing in Hsel.
    apply map_eq_nil in Hsel. rewrite Hsel. cbn [filter p_listing_id app].
    rewrite String.eqb_refl. reflexivity.
  - assert (Hrun : exists r wf evs,
              add_product E (scrape_with page)
                (mkAddRequest (Some url) (Some email) (Some target)) w
              = mkOutcome (Ok r) wf evs /\
              alerts (store wf)
              = alerts (store w)
                ++ [mkAlert (next_alert_id (store w)) id0
                            email target "price_drop" true None] /\
              next_alert_id (store wf) = S (next_alert_id (store w)) /\
              products (store wf)
              = products (Sql.update_product_tracked (page url) id0 (S (clock w))
                            (store w))).
    { unfold add_product.
      cbn [marketplace_url user_email target_price string_or_empty number_or_zero].
      rewrite Hu, He, Ht. cbn [negb andb].
      eexists _, _, _. split.
      + apply try_catch_run.
        eapply bind_run; [apply (scrape_with_valid _ _ lid); exact Hurl|].
        cbn [ld_price ld_listing_id].
        statement_then. rewrite Hsel.
        eapply bind_run.
        { statement_then. reflexivity. }
        statement_then. statement_then. statement_then.
        reflexivity.
      + repeat split; reflexivity. }
    destruct Hrun as (r & wf & evs & Hrun & Hal & Hnext & Hprod).
    rewrite Hrun. cbn [final]. split; [exact Hal|]. split; [exact Hnext|].
    unfold tracked_id.
    assert (Hs : Sql.select_by_listing lid (store wf)
                 = Sql.select_by_listing lid
                     (Sql.update_product_tracked (page url) id0 (S (clock w))
                        (store w))).
    { unfold Sql.select_by_listing. now rewrite Hprod. }
    now rewrite Hs, select_by_listing_tracked, Hsel.
Qed.

End Again.

(** X23. Alerts are not deduplicated.  Tracking the same URL twice with the
    same email and the same target, no statement failing, leaves two alert
    rows that differ in their id only: both are for the same product, both
    active, whatever the pages show at the two requests and whether or not
    the listing was tracked before. *)
Theorem tracking_again_duplicates_alert (E : env) (page page' : string -> Z)
    (w : world) (url lid email : string) (target : Z) :
  (forall t, db_down E t = false) ->
  match_item url = Some lid ->
  email <> EmptyString ->
  target <> 0 ->
  let req := mkAddRequest (Some url) (Some email) (Some target) in
  let o1 := add_product E (scrape_with page) req w in
  let o2 := add_product E (scrape_with page') req (final o1) in
  let n := next_alert_id (store w) in
  let pid := tracked_id lid (store w) in
  alerts (store (final o2))
  = alerts (store w)
    ++ [mkAlert n pid email target "price_drop" true None;
        mkAlert (S n) pid email target "price_drop" true None].
Proof.
  intros Hup Hurl Hemail Htarget req o1 o2 n pid.
  destruct (add_product_tracks E Hup page w url lid email target
              Hurl Hemail Htarget) as (A1 & N1 & T1).
  destruct (add_product_tracks E Hup page' (final o1) url lid email target
              Hurl Hemail Htarget) as (A2 & _ & _).
  fold req o1 in A1, N1, T1. fold req o1 o2 in A2.
  rewrite A2, A1, N1, T1, <- app_assoc. reflexivity.
Qed.

(** The request of the scenario, sent twice to the empty store. *)
Lemma tracking_again_duplicates_alert_witness :
  alerts (store (final
    (add_product healthy (scrape_with (fun _ => 95)) track_request
       (final (add_product healthy (scrape_with (fun _ => 100)) track_request
                 (mkWorld empty_db 0%nat))))))
  = [mkAlert 1 1 "ann@example.com" 90 "price_drop" true None;
     mkAlert 2 1 "ann@example.com" 90 "price_drop" true None].
Proof.
  assert (Hup : forall t, db_down healthy t = false) by reflexivity.
  assert (He : "ann@example.com"%string <> EmptyString) by discriminate.
  assert (Ht : 90 <> 0) by lia.
  exact (tracking_again_duplicates_alert healthy (fun _ => 100) (fun _ => 95)
           (mkWorld empty_db 0%nat) url1 "1234567" "ann@example.com" 90
           Hup eq_refl He Ht).
Defined.

(* ================================================================== *)
(** * The handlers, for a relation the statements and [checkAlerts] obey *)
(* ================================================================== *)

Section Handlers.

Variable R : step_rel.
Hypothesis HR : composes R.
Variable E : env.

Hypothesis statement_obeys :
  forall {A} (q : sql) (run : time -> db -> db * A),
    quiet_sql q = true -> keeps_alerts run -> obeys R (pool_query E q run).

Hypothesis insert_alert_obeys :
  forall pid email target,
    obeys R (pool_query E (InsertAlert pid email target)
               (fun _ d => (Sql.insert_alert pid email target "price_drop" d, tt))).

Hypothesis checkAlerts_obeys : forall pid p, obeys R (checkAlerts E pid p).

Lemma handlers_ingest (id : nat) (stored observed : Z) :
  obeys R (ingest E id stored observed).
Proof.
  unfold ingest. apply obeys_bind; [exact HR| |].
  - apply statement_obeys; [reflexivity | apply keeps_update_product_price].
  - intros _. destruct (price_changed observed stored); [|now apply obeys_ret].
    apply obeys_bind; [exact HR| |intros _; apply checkAlerts_obeys].
    apply statement_obeys; [reflexivity | apply keeps_insert_price_history].
Qed.

Lemma handlers_check_product (page : string -> Z) (id : nat) :
  obeys R (check_product E (scrape_with page) id).
Proof.
  unfold check_product. apply obeys_try_catch; [exact HR| |].
  - apply obeys_bind; [exact HR| |].
    + apply statement_obeys; [reflexivity | apply keeps_select].
    + intros [|row0 rows]; [now apply obeys_ret|].
      apply obeys_bind; [exact HR | now apply obeys_scrape_with |]. intros ld.
      apply obeys_bind; [exact HR | apply handlers_ingest |].
      intros _. now apply obeys_ret.
  - intros e. apply obeys_bind; [exact HR | now apply obeys_console_error |].
    intros _. now apply obeys_ret.
Qed.

Lemma handlers_for_products (page : string -> Z) (rows : list product) :
  obeys R (for_products E (scrape_with page) rows).
Proof.
  induction rows as [|r rest IH]; cbn [for_products]; [now apply obeys_ret|].
  apply obeys_bind; [exact HR| |intros _; exact IH].
  apply obeys_try_catch; [exact HR| |intros e; now apply obeys_console_error].
  apply obeys_bind; [exact HR | now apply obeys_scrape_with |]. intros ld.
  apply obeys_bind; [exact HR | apply handlers_ingest |].
  intros _. now apply obeys_delay.
Qed.

Lemma handlers_price_check (page : string -> Z) :
  obeys R (price_check E (scrape_with page)).
Proof.
  unfold price_check.
  apply obeys_bind; [exact HR | now apply obeys_console_log |]. intros _.
  apply obeys_try_catch; [exact HR| |intros e; now apply obeys_console_error].
  apply obeys_bind; [exact HR| |].
  - apply statement_obeys; [reflexivity | apply keeps_select].
  - intros rows.
    apply obeys_bind; [exact HR | apply handlers_for_products |].
    intros _. now apply obeys_console_log.
Qed.

Lemma handlers_add_product (page : string -> Z) (req : add_request) :
  obeys R (add_product E (scrape_with page) req).
Proof.
  unfold add_product. apply obeys_try_catch; [exact HR| |].
  - destruct (negb (truthy_string (marketplace_url req))); [now apply obeys_ret|].
    apply obeys_bind; [exact HR | now apply obeys_scrape_with |]. intros ld.
    apply obeys_bind; [exact HR| |].
    { apply statement_obeys; [reflexivity | apply keeps_select]. }
    intros existing. apply obeys_bind; [exact HR| |].
    { destruct existing as [|id0 ids].
      - apply obeys_bind; [exact HR| |intros; now apply obeys_ret].
        apply statement_obeys; [reflexivity | apply keeps_insert_product].
      - apply obeys_bind; [exact HR| |intros; now apply obeys_ret].
        apply statement_obeys; [reflexivity | apply keeps_update_product_tracked]. }
    intros productId.
    apply obeys_bind; [exact HR| |].
    { apply statement_obeys; [reflexivity | apply keeps_insert_price_history]. }
    intros _. apply obeys_bind; [exact HR| |].
    { destruct (truthy_string (user_email req) && truthy_number (target_price req))%bool;
        [apply insert_alert_obeys | now apply obeys_ret]. }
    intros _. apply obeys_bind; [exact HR| |].
    { apply statement_obeys; [reflexivity | apply keeps_select]. }
    intros product. now apply obeys_ret.
  - intros e. apply obeys_bind; [exact HR | now apply obeys_console_error |].
    intros _. now apply obeys_ret.
Qed.

Lemma handlers_run_ops (os : list op) : obeys R (run_ops E os).
Proof.
  induction os as [|o rest IH]; cbn [run_ops]; [now apply obeys_ret|].
  apply obeys_bind; [exact HR| |intros _; exact IH].
  destruct o as [page req|page id|page|pid p]; cbn [run_op].
  - apply obeys_bind; [exact HR | apply handlers_add_product |].
    intros; now apply obeys_ret.
  - apply obeys_bind; [exact HR | apply handlers_check_product |].
    intros; now apply obeys_ret.
  - apply handlers_price_check.
  - apply checkAlerts_obeys.
Qed.

End Handlers.

(* ================================================================== *)
(** * Deactivations along a run *)
(* ================================================================== *)

Lemma deactivated_ids_quiet (e : event) :
  quiet_event e = true -> deactivated_ids [e] = [].
Proof.
  destruct e as [q ok| | |]; try reflexivity.
  destruct q; try discriminate; reflexivity.
Qed.

Lemma notified_ids_quiet (e : event) :
  quiet_event e = true -> notified_ids [e] = [].
Proof. destruct e; try reflexivity. discriminate. Qed.

Lemma composes_settles : composes settles.
Proof.
  constructor; unfold settles.
  - intros w1 e1 w2 e2 w3 H1 H2 Hwf1.
    destruct (H1 Hwf1) as (Hwf2 & L1 & N1 & D1).
    destruct (H2 Hwf2) as (Hwf3 & L2 & N2 & D2).
    split; [exact Hwf3|]. split; [now apply lifecycle_trans with (d1 := store w2)|].
    rewrite deactivated_ids_app. split.
    + apply NoDup_app; [exact N1 | exact N2 |].
      intros aid Hin1 Hin2.
      destruct (D1 aid Hin1) as (_ & _ & a' & t & Hf & Hinact & _).
      destruct (D2 aid Hin2) as (_ & Hact & _).
      specialize (Hact a' Hf). congruence.
    + intros aid Hin. rewrite fires_app.
      apply in_app_or in Hin. destruct Hin as [Hin|Hin].
      * destruct (D1 aid Hin) as (Hfires & Hact & a' & t & Hf & Hinact & Ht).
        split; [now rewrite Hfires|]. split; [exact Hact|].
        destruct (proj1 L2 aid a' Hf) as (a'' & Hf'' & [->|(Hact' & _)]);
          [|congruence].
        exists a', t. auto.
      * destruct (D2 aid Hin) as (Hfires & Hact & Hfinal).
        split; [rewrite Hfires; apply orb_true_r|]. split; [|exact Hfinal].
        intros a Hf.
        destruct (proj1 L1 aid a Hf) as (a' & Hf' & [->|(Hact' & _)]);
          [now apply Hact | exact Hact'].
  - intros w c Hwf. cbn [store deactivated_ids flat_map].
    split; [exact Hwf|]. split; [apply lifecycle_refl|].
    split; [constructor | intros aid []].
  - intros w e c He Hwf. cbn [store]. rewrite (deactivated_ids_quiet e He).
    split; [exact Hwf|]. split; [now apply lifecycle_same_alerts|].
    split; [constructor | intros aid []].
Qed.

Lemma composes_prompt : composes prompt.
Proof.
  constructor; unfold prompt.
  - intros w1 e1 w2 e2 w3 H1 H2.
    now rewrite notified_ids_app, deactivated_ids_app, H1, H2.
  - reflexivity.
  - intros w e c He.
    now rewrite (notified_ids_quiet e He), (deactivated_ids_quiet e He).
Qed.

(** A computation that respects the life of alerts and deactivates none. *)
Lemma settles_of_respects {A} (m : M A) :
  respects m ->
  (forall w, deactivated_ids (emitted (m w)) = []) ->
  obeys settles m.
Proof.
  intros Hm Hnone w Hwf. destruct (Hm w Hwf) as (Hwf' & Hl).
  rewrite Hnone. split; [exact Hwf'|]. split; [exact Hl|].
  split; [constructor | intros aid []].
Qed.

Lemma pool_query_deactivates_none {A} (E : env) (q : sql)
    (run : time -> db -> db * A) (w : world) :
  quiet_sql q = true -> deactivated_ids (emitted (pool_query E q run w)) = [].
Proof.
  intros Hq. unfold pool_query.
  destruct (db_down E (clock w)); cbn [emitted];
    now apply (deactivated_ids_quiet (Query q _)).
Qed.

(** One evaluation: the rows it deactivates are firing rows of a prefix of
    the rows it loaded. *)
Lemma settles_checkAlerts (E : env) (pid : nat) (p : Z) :
  obeys settles (checkAlerts E pid p).
Proof.
  intros w Hwf.
  destruct (checkAlerts_lifecycle E pid p w Hwf) as (Hwf' & Hl).
  destruct (checkAlerts_prefix E pid p w)
    as (_ & done & rest & Hrows & Hst & Hde & Hsub & _).
  split; [exact Hwf'|]. split; [exact Hl|]. rewrite Hde. split.
  - apply NoDup_map_filter.
    pose proof (select_active_alerts_NoDup pid (store w) Hwf) as Hnd.
    rewrite Hrows, map_app in Hnd. now apply NoDup_app_remove_r in Hnd.
  - intros aid Hin.
    assert (Hnames : existsb (names p aid) done = true) by now apply names_In.
    split; [apply fires_In; now apply Hsub|].
    apply in_map_iff in Hin. destruct Hin as (r & <- & Hin).
    apply filter_In in Hin. destruct Hin as [Hin _].
    destruct (loaded_row pid (store w) r Hwf) as (Hf & _ & Hact).
    { rewrite Hrows. apply in_or_app. now left. }
    split; [intros a Ha; congruence|].
    destruct (fired_store_hit done p (ar_id r) Hnames (S (clock w)) (store w)
                (ar_alert r) Hf) as (t & _ & Hhit).
    exists (Sql.deactivate t (ar_alert r)), t.
    rewrite Hst. split; [exact Hhit|]. split; reflexivity.
Qed.

Lemma settles_run_ops (E : env) (os : list op) : obeys settles (run_ops E os).
Proof.
  apply handlers_run_ops.
  - exact composes_settles.
  - intros A q run Hq Hkeeps. apply settles_of_respects.
    + now apply respects_pool_query.
    + intros w. now apply pool_query_deactivates_none.
  - intros pid email target. apply settles_of_respects.
    + apply respects_insert_alert.
    + intros w. now apply pool_query_deactivates_none.
  - apply settles_checkAlerts.
Qed.

(** With the store reachable every alert that is notified is deactivated. *)
Lemma prompt_run_ops (E : env) (os : list op) :
  (forall t, db_down E t = false) -> obeys prompt (run_ops E os).
Proof.
  intros Hup. pose proof composes_prompt as HR.
  assert (Hq : forall A (q : sql) (run : time -> db -> db * A),
            quiet_sql q = true -> obeys prompt (pool_query E q run)).
  { intros A q run Hq. apply obeys_pool_query; [exact HR | exact Hq |].
    intros w. unfold prompt.
    now rewrite (notified_ids_quiet (Query q true) Hq),
                (deactivated_ids_quiet (Query q true) Hq). }
  apply handlers_run_ops.
  - exact HR.
  - intros A q run Hquiet _. now apply Hq.
  - intros pid email target. now apply Hq.
  - intros pid p w. unfold prompt.
    destruct (checkAlerts_up E pid p w Hup) as (_ & _ & Hn & Hd & _).
    now rewrite Hn, Hd.
Qed.

(** C9, as the code has it. An alert row is created active with a null
    triggered timestamp.  Along every sequence of operations (tracking a
    product, manual refresh, hourly job, evaluation), in every environment
    and from any store that satisfies the key constraints: a row that
    exists stays, and is either untouched or was active, fired during the
    sequence and is now that row deactivated; an inactive row is never
    written again; a row that appears during the sequence was created
    active and never triggered, and is either still so or has fired during
    the sequence; no alert is deactivated twice, and an alert that was
    deactivated has fired, was not inactive before, and is inactive with a
    triggered timestamp afterwards.  With the store reachable throughout,
    the alerts handed to the notifier are the alerts deactivated: each is
    notified once, and is inactive with a triggered timestamp afterwards. *)
Theorem alert_lifecycle (E : env) (os : list op) (w : world) :
  wf_db (store w) ->
  let o := run_ops E os w in
  wf_db (store (final o)) /\
  (forall aid a,
     find_alert aid (store w) = Some a ->
     exists a',
       find_alert aid (store (final o)) = Some a' /\
       (a' = a \/
        (a_is_active a = true /\
         (exists t, a' = Sql.deactivate t a) /\
         fires aid (emitted o) = true))) /\
  (forall aid a,
     find_alert aid (store w) = Some a ->
     a_is_active a = false ->
     find_alert aid (store (final o)) = Some a) /\
  (forall aid a',
     find_alert aid (store w) = None ->
     find_alert aid (store (final o)) = Some a' ->
     (a_is_active a' = true /\ a_triggered_at a' = None) \/
     (a_is_active a' = false /\
      (exists t, a_triggered_at a' = Some t) /\
      fires aid (emitted o) = true)) /\
  (forall page url lid email target,
     (forall t, db_down E t = false) ->
     match_item url = Some lid ->
     email <> EmptyString ->
     target <> 0 ->
     exists pid,
       alerts (store (final (add_product E (scrape_with page)
                 (mkAddRequest (Some url) (Some email) (Some target)) w)))
       = alerts (store w)
         ++ [mkAlert (next_alert_id (store w)) pid email target
                     "price_drop" true None]) /\
  NoDup (deactivated_ids (emitted o)) /\
  (forall aid,
     In aid (deactivated_ids (emitted o)) ->
     fires aid (emitted o) = true /\
     (forall a, find_alert aid (store w) = Some a -> a_is_active a = true) /\
     exists a' t,
       find_alert aid (store (final o)) = Some a' /\
       a_is_active a' = false /\
       a_triggered_at a' = Some t) /\
  ((forall t, db_down E t = false) ->
   notified_ids (emitted o) = deactivated_ids (emitted o) /\
   NoDup (notified_ids (emitted o)) /\
   forall aid,
     fires aid (emitted o) = true ->
     exists a' t,
       find_alert aid (store (final o)) = Some a' /\
       a_is_active a' = false /\
       a_triggered_at a' = Some t).
Proof.
  intros Hwf o.
  destruct (settles_run_ops E os w Hwf) as (Hwf' & (Hold & Hnew) & Hnd & Hde).
  fold o in Hwf', Hold, Hnew, Hnd, Hde.
  split; [exact Hwf'|]. split; [exact Hold|].
  split; [|split; [exact Hnew|]]; [|split; [|split; [exact Hnd|split; [exact Hde|]]]].
  - intros aid a Hfind Hinact.
    destruct (Hold aid a Hfind) as (a' & Hf' & [->|(Hact & _)]);
      [exact Hf' | congruence].
  - intros page url lid email target Hup Hurl Hemail Htarget.
    now apply add_product_creates_alert with (lid := lid).
  - intros Hup. pose proof (prompt_run_ops E os Hup w) as Hp.
    unfold prompt in Hp. fold o in Hp.
    split; [exact Hp|]. split; [now rewrite Hp|].
    intros aid Hfires. apply fires_In in Hfires. rewrite Hp in Hfires.
    now destruct (Hde aid Hfires) as (_ & _ & Hfinal).
Qed.

(** From the empty store: track a product with an alert of target 90, then
    observe 95, 90 (hourly job), 85, and evaluate at 80: the alert is
    notified once, by the hourly job, and is inactive afterwards. *)
Lemma alert_lifecycle_witness :
  wf_db (store (final (run_ops healthy life_of_an_alert (mkWorld empty_db 0%nat)))) /\
  (forall aid a',
     find_alert aid empty_db = None ->
     find_alert aid (store (final (run_ops healthy life_of_an_alert
                                     (mkWorld empty_db 0%nat)))) = Some a' ->
     (a_is_active a' = true /\ a_triggered_at a' = None) \/
     (a_is_active a' = false /\
      (exists t, a_triggered_at a' = Some t) /\
      fires aid (emitted (run_ops healthy life_of_an_alert
                            (mkWorld empty_db 0%nat))) = true)) /\
  notified_ids (emitted (run_ops healthy life_of_an_alert (mkWorld empty_db 0%nat)))
  = deactivated_ids (emitted (run_ops healthy life_of_an_alert
                                (mkWorld empty_db 0%nat))) /\
  exists a' t,
    find_alert 1 (store (final (run_ops healthy life_of_an_alert
                                  (mkWorld empty_db 0%nat)))) = Some a' /\
    a_is_active a' = false /\
    a_triggered_at a' = Some t.
Proof.
  destruct (alert_lifecycle healthy life_of_an_alert (mkWorld empty_db 0%nat)
              wf_empty_db) as (Hwf & _ & _ & Hnew & _ & _ & _ & Hup).
  destruct (Hup (fun _ => eq_refl)) as (Hsame & _ & Hfired).
  split; [exact Hwf|]. split; [exact Hnew|]. split; [exact Hsame|].
  apply Hfired. reflexivity.
Defined.

(** C9, counterexample. The listing at 100 with an active alert of target
    90, the store unreachable at the instant of the UPDATE that would
    deactivate the alert: the refresh that observes 90 hands the alert to
    the notifier and the alert stays active, never triggered; the
    evaluation that follows hands it to the notifier a second time. *)
Lemma fired_alert_stays_active :
  fires 1 (emitted (run_ops (db_blip 5%nat) refresh_at_90 scenario)) = true /\
  find_alert 1 (store (final (run_ops (db_blip 5%nat) refresh_at_90 scenario)))
  = Some alert1 /\
  a_is_active alert1 = true /\
  a_triggered_at alert1 = None /\
  notified_ids (emitted (run_ops (db_blip 5%nat) refresh_then_evaluate scenario))
  = [1%nat; 1%nat].
Proof. repeat split; reflexivity. Qed.
